(** * static-suite-data-server: store, cache, module registry, include parser

    A shallow embedding of [src/lib/store/store.js], of the cache
    ([src/unnamed/part_000]) and of the module handler and the include
    parser ([src/unnamed/part_001]), with the part of the data route
    that reads the store.

    JavaScript values are modelled by value.  Objects are finite maps of
    their own properties; arrays are a list of elements plus the named
    properties that were set on them.  [store.js] carries no strict-mode
    directive, so a write to a property of a primitive is silently
    dropped.

    Two things the source does are outside such a model, and the
    theorems say where they keep away from them.

    - The prototype chain.  A lookup of a name an object does not own
      goes on to [Object.prototype] in the source and yields [VUndef]
      here, and a write to [__proto__] creates no property in the
      source.  The model follows the source for the names of
      [Names.prototype_names] only where they are own properties;
      [Names.plain_name] and [Store.plain_file] keep these names out.

    - Sharing.  The source holds one document object in the cache, at
      the leaf of the tree and in the index arrays of every level; the
      model stores a copy in each place.  The one write to a stored
      document is [json.__FILENAME__ = file] of an [add] that is served
      from the cache.  The copies stay in step when the cached document
      carries that file name already; [Store.cache_agrees] says so. *)

From Stdlib Require Import ZArith Ascii String.
From stdpp Require Import gmap strings list fin_maps.

Set Warnings "-register-all".
#[local] Open Scope string_scope.
#[local] Open Scope Z_scope.

(** ** JavaScript values *)

Module JS.

Inductive value : Type :=
| VUndef
| VNull
| VBool (b : bool)
| VNum (n : Z)
| VStr (s : string)
| VArr (xs : list value) (props : gmap string value)
| VObj (m : gmap string value).

(** How a call ends.  [OutOfModel] marks a step on which the model has
    nothing to say (a write that would resize an array or leave a hole
    in it). *)
Inductive completion : Type :=
| Normal
| TypeError
| OutOfModel.

Definition is_normal (c : completion) : bool :=
  match c with Normal => true | _ => false end.

(** ToBoolean. *)
Definition truthy (v : value) : bool :=
  match v with
  | VUndef | VNull => false
  | VBool b => b
  | VNum n => negb (n =? 0)
  | VStr s => negb (String.eqb s "")
  | VArr _ _ | VObj _ => true
  end.

Definition nullish (v : value) : bool :=
  match v with VUndef | VNull => true | _ => false end.

(** [a || b] *)
Definition js_or (a b : value) : value := if truthy a then a else b.

Definition digit_of (c : ascii) : option nat :=
  let n := nat_of_ascii c in
  if (48 <=? n)%nat && (n <=? 57)%nat then Some (n - 48)%nat else None.

Fixpoint digits_value (s : string) (acc : nat) : option nat :=
  match s with
  | EmptyString => Some acc
  | String c s' =>
      match digit_of c with
      | Some d => digits_value s' (10 * acc + d)%nat
      | None => None
      end
  end.

(** A property name is an array index when it is the canonical decimal
    spelling of a number: no sign, no leading zero. *)
Definition index_of_string (k : string) : option nat :=
  match k with
  | EmptyString => None
  | String "0" EmptyString => Some 0%nat
  | String "0" _ => None
  | _ => digits_value k 0
  end.

Definition char_at (s : string) (i : nat) : value :=
  match String.get i s with
  | Some c => VStr (String c EmptyString)
  | None => VUndef
  end.

(** [v[k]] for a [v] that is neither [undefined] nor [null]. *)
Definition own_prop (v : value) (k : string) : value :=
  match v with
  | VObj m => default VUndef (m !! k)
  | VArr xs props =>
      if String.eqb k "length" then VNum (Z.of_nat (length xs))
      else match index_of_string k with
           | Some i => default VUndef (xs !! i)
           | None => default VUndef (props !! k)
           end
  | VStr s =>
      if String.eqb k "length" then VNum (Z.of_nat (String.length s))
      else match index_of_string k with
           | Some i => char_at s i
           | None => VUndef
           end
  | _ => VUndef
  end.

(** [v[k]]: reading a property of [undefined] or [null] throws. *)
Definition get_prop (v : value) (k : string) : option value :=
  if nullish v then None else Some (own_prop v k).

(** [v?.[k]] *)
Definition opt_prop (v : value) (k : string) : value :=
  if nullish v then VUndef else own_prop v k.

(** [v[k] = x] *)
Definition set_prop (v : value) (k : string) (x : value) : value * completion :=
  match v with
  | VObj m => (VObj (<[k:=x]> m), Normal)
  | VArr xs props =>
      if String.eqb k "length" then (v, OutOfModel)
      else match index_of_string k with
           | Some i =>
               if (i <? length xs)%nat then (VArr (<[i:=x]> xs) props, Normal)
               else (v, OutOfModel)
           | None => (VArr xs (<[k:=x]> props), Normal)
           end
  | VUndef | VNull => (v, TypeError)
  | VBool _ | VNum _ | VStr _ => (v, Normal)
  end.

(** [delete v[k]] *)
Definition delete_prop (v : value) (k : string) : value * completion :=
  match v with
  | VObj m => (VObj (delete k m), Normal)
  | VArr xs props =>
      if String.eqb k "length" then (v, Normal)
      else match index_of_string k with
           | Some i => if (i <? length xs)%nat then (v, OutOfModel) else (v, Normal)
           | None => (VArr xs (delete k props), Normal)
           end
  | VUndef | VNull => (v, TypeError)
  | VBool _ | VNum _ | VStr _ => (v, Normal)
  end.

(** The source mutates the object it reached as [v[k]] in place.  The
    model computes the mutated child and stores it back where it was
    read; nothing is stored when [v] holds no such property. *)
Definition write_back (v : value) (k : string) (child : value) : value :=
  match v with
  | VObj m =>
      match m !! k with
      | Some _ => VObj (<[k:=child]> m)
      | None => v
      end
  | VArr xs props =>
      if String.eqb k "length" then v
      else match index_of_string k with
           | Some i => VArr (<[i:=child]> xs) props
           | None =>
               match props !! k with
               | Some _ => VArr xs (<[k:=child]> props)
               | None => v
               end
           end
  | _ => v
  end.

(** In-place update of the value reached by the property chain [path]:
    each read throws on [undefined] and [null], as [a[b][c]] does. *)
Fixpoint update_in (path : list string) (f : value → value * completion)
    (v : value) : value * completion :=
  match path with
  | [] => f v
  | k :: path' =>
      match get_prop v k with
      | None => (v, TypeError)
      | Some child =>
          let '(child', c) := update_in path' f child in
          (write_back v k child', c)
      end
  end.

(** [Array.prototype.findIndex], with [-1] for no match. *)
Fixpoint findIndex (p : value → bool) (xs : list value) : Z :=
  match xs with
  | [] => -1
  | x :: xs' =>
      if p x then 0
      else let r := findIndex p xs' in if r <? 0 then -1 else r + 1
  end.

(** [Array.prototype.splice(start, deleteCount)]: a negative [start]
    counts from the end. *)
Definition splice (start : Z) (deleteCount : nat) (xs : list value) : list value :=
  let len := Z.of_nat (length xs) in
  let from := if start <? 0 then Z.max (len + start) 0 else Z.min start len in
  take (Z.to_nat from) xs ++ drop (Z.to_nat from + deleteCount) xs.

(** [String.prototype.split] on a one-character separator. *)
Fixpoint split_on (sep : ascii) (s : string) : list string :=
  match s with
  | EmptyString => [EmptyString]
  | String c s' =>
      if Ascii.eqb c sep then EmptyString :: split_on sep s'
      else match split_on sep s' with
           | x :: r => String c x :: r
           | [] => [String c EmptyString]
           end
  end.

(** [Array.prototype.join] *)
Fixpoint join (sep : string) (xs : list string) : string :=
  match xs with
  | [] => EmptyString
  | [x] => x
  | x :: r => x ++ sep ++ join sep r
  end.

(** [Array.prototype.includes] on strings. *)
Definition includes (xs : list string) (x : string) : bool :=
  existsb (String.eqb x) xs.

Definition lower_ascii (c : ascii) : ascii :=
  let n := nat_of_ascii c in
  if (65 <=? n)%nat && (n <=? 90)%nat then ascii_of_nat (n + 32) else c.

(** [String.prototype.toLowerCase] on the ASCII letters, which is all
    the include parser needs: it looks for ASCII suffixes. *)
Fixpoint toLowerCase (s : string) : string :=
  match s with
  | EmptyString => EmptyString
  | String c s' => String (lower_ascii c) (toLowerCase s')
  end.

(** [String.prototype.endsWith] *)
Definition endsWith (s suffix : string) : bool :=
  let n := String.length s in
  let k := String.length suffix in
  (k <=? n)%nat && String.eqb (String.substring (n - k) k s) suffix.

End JS.

(** ** Names every object inherits *)

Module Names.

(** The own properties of [Object.prototype]. *)
Definition prototype_names : list string :=
  ["__proto__"; "constructor"; "hasOwnProperty"; "isPrototypeOf";
   "propertyIsEnumerable"; "toLocaleString"; "toString"; "valueOf";
   "__defineGetter__"; "__defineSetter__"; "__lookupGetter__";
   "__lookupSetter__"].

(** A name a plain object has only if it owns it. *)
Definition plain_name (k : string) : bool :=
  negb (JS.includes prototype_names k).

(** Every segment of the path is such a name. *)
Definition plain_path (file : string) : bool :=
  forallb plain_name (JS.split_on "/" file).

End Names.

(** ** The cache ([src/unnamed/part_000]) *)

Module Cache.
Section Cache.
Context {V : Type}.

Definition set (bin key : string) (value : V)
    (data : gmap string (gmap string V)) : gmap string (gmap string V) :=
  let data1 :=
    match data !! bin with
    | Some _ => data
    | None => <[bin:=∅]> data
    end in
  match data1 !! bin with
  | Some items => <[bin:=<[key:=value]> items]> data1
  | None => data1
  end.

Definition get (bin key : string)
    (data : gmap string (gmap string V)) : option V :=
  match data !! bin with
  | Some items => items !! key
  | None => None
  end.

Definition remove (bin key : string)
    (data : gmap string (gmap string V)) : gmap string (gmap string V) :=
  match data !! bin with
  | Some items => <[bin:=delete key items]> data
  | None => data
  end.

Definition countItems (bin : string)
    (data : gmap string (gmap string V)) : nat :=
  match data !! bin with
  | Some items => size items
  | None => 0%nat
  end.

Definition reset (bin : string)
    (data : gmap string (gmap string V)) : gmap string (gmap string V) :=
  <[bin:=∅]> data.

End Cache.
End Cache.

(** ** The store ([src/lib/store/store.js]) *)

Module Store.
Import JS.

Definition JSON_ITEMS : string := "_json".
Definition MAIN : string := "main".
Definition VARIANTS : string := "variants".
Definition FILENAME : string := "__FILENAME__".

(** [JSON.parse(JSON.stringify(object))].  The store clones nothing but
    [storeDataSkeleton], which the round trip reproduces; by value the
    clone is the skeleton itself. *)
Definition deepClone (object : value) : value := object.

Definition storeDataSkeleton : value :=
  VObj {[ JSON_ITEMS := VObj (<[MAIN:=VArr [] ∅]> {[ VARIANTS := VObj ∅ ]}) ]}.

(** What [getFileContents] hands back and the cache keeps. *)
Record FileContents : Type := {
  raw : string;
  json : value;
}.

(** The hooks of a post-processor module.  [processFile] is taken as a
    function of the file and its contents; [storeAdd] and [storeRemove]
    have no return contract, and the model records that they ran.  The
    source hands every hook the store as well; a hook that writes to
    the store, or throws, is outside the model. *)
Record PostProcessor : Type := {
  processFile : option (string → string → string → value → string * value);
  storeAdd : bool;
  storeRemove : bool;
}.

Inductive event : Type :=
| LogWarn (message : string)
| StoreAddHook (dataDir file rawFileContents : string) (jsonFileContents : value)
| StoreRemoveHook (file : string).

Record Options : Type := {
  useStage : bool;
  useCache : bool;
}.

(** [options = {}] *)
Definition no_options : Options := {| useStage := false; useCache := false |}.

(** The store object together with what the calls reach outside it: the
    cache module and the trace of log lines and hook calls. *)
Record World : Type := {
  data : value;
  stage : value;
  cache : gmap string (gmap string FileContents);
  trace : list event;
}.

Definition with_data (w : World) (d : value) : World :=
  {| data := d; stage := stage w; cache := cache w; trace := trace w |}.

Definition with_stage (w : World) (s : value) : World :=
  {| data := data w; stage := s; cache := cache w; trace := trace w |}.

Definition with_cache (w : World) (c : gmap string (gmap string FileContents)) : World :=
  {| data := data w; stage := stage w; cache := c; trace := trace w |}.

Definition emit (w : World) (e : event) : World :=
  {| data := data w; stage := stage w; cache := cache w;
     trace := (trace w ++ [e])%list |}.

Definition initial : World :=
  {| data := deepClone storeDataSkeleton;
     stage := deepClone storeDataSkeleton;
     cache := ∅;
     trace := [] |}.

Definition quote : string := String (ascii_of_nat 34) EmptyString.

Definition skip_message (pathParts : list string) : string :=
  "Skipping file " ++ quote ++ join "/" pathParts ++ quote
  ++ " since it contains " ++ quote ++ JSON_ITEMS ++ quote
  ++ ", a reserved name. Please, rename it.".

(** [item => item?.__FILENAME__ === file] *)
Definition has_filename (file : string) (item : value) : bool :=
  match opt_prop item FILENAME with
  | VStr s => String.eqb s file
  | _ => false
  end.

(** [array.push(json)] *)
Definition push (json : value) (array : value) : value * completion :=
  match array with
  | VArr xs props => (VArr (xs ++ [json]) props, Normal)
  | _ => (array, TypeError)
  end.

(** [const i = array.findIndex(...); array.splice(i, 1)] *)
Definition splice_file (file : string) (array : value) : value * completion :=
  match array with
  | VArr xs props => (VArr (splice (findIndex (has_filename file) xs) 1 xs) props, Normal)
  | _ => (array, TypeError)
  end.

Definition is_empty_array (array : value) : bool :=
  match own_prop array "length" with
  | VNum 0 => true
  | _ => false
  end.

Section Store.
(** [getVariantName] and [getFileContents] of [utils/fsUtils], node's
    [path.join] and the configured post-processor
    ([getPostProcessor ()]) are not part of the store. *)
Variable getVariantName : string → option string.
Variable getFileContents : string → FileContents.
Variable path_join : string → string → string.
Variable postProcessor : option PostProcessor.

(** [if (variantName)]: [null] and the empty string are falsy. *)
Definition variant_of (file : string) : option string :=
  match getVariantName file with
  | Some v => if String.eqb v "" then None else Some v
  | None => None
  end.

(** No segment of [file], nor the name of its variant, is a name
    every object inherits. *)
Definition plain_file (file : string) : bool :=
  Names.plain_path file
  && match variant_of file with
     | Some variantName => Names.plain_name variantName
     | None => true
     end.

(** [plain_file], and the path the contents are cached under is no
    inherited name either. *)
Definition plain_add (dataDir file : string) : bool :=
  plain_file file && Names.plain_name (path_join dataDir file).

(** [json.__FILENAME__ = file] *)
Definition tag (file : string) (jsonFileContents : value) : value :=
  fst (set_prop jsonFileContents FILENAME (VStr file)).

Definition addFileToJsonItems (dataLeaf : value) (file : string)
    (jsonFileContents : value) : value * completion :=
  if truthy jsonFileContents then
    let json := tag file jsonFileContents in
    match variant_of file with
    | Some variantName =>
        update_in [JSON_ITEMS; VARIANTS]
          (λ variants,
            match get_prop variants variantName with
            | None => (variants, TypeError)
            | Some group =>
                let '(variants1, c) :=
                  if truthy group then (variants, Normal)
                  else set_prop variants variantName (VArr [] ∅) in
                if is_normal c then update_in [variantName] (push json) variants1
                else (variants1, c)
            end)
          dataLeaf
    | None => update_in [JSON_ITEMS; MAIN] (push json) dataLeaf
    end
  else (dataLeaf, Normal).

Definition removeFileFromJsonItems (dataLeaf : value) (file : string)
    : value * completion :=
  match variant_of file with
  | Some variantName =>
      if truthy (opt_prop (opt_prop (opt_prop dataLeaf JSON_ITEMS) VARIANTS) variantName)
      then
        update_in [JSON_ITEMS; VARIANTS]
          (λ variants,
            let '(variants1, c) := update_in [variantName] (splice_file file) variants in
            if is_normal c then
              if is_empty_array (own_prop variants1 variantName)
              then delete_prop variants1 variantName
              else (variants1, Normal)
            else (variants1, c))
          dataLeaf
      else (dataLeaf, Normal)
  | None =>
      if truthy (opt_prop (opt_prop dataLeaf JSON_ITEMS) MAIN)
      then update_in [JSON_ITEMS; MAIN] (splice_file file) dataLeaf
      else (dataLeaf, Normal)
  end.

Definition meetsPathRequirements (pathParts : list string) (w : World)
    : bool * World :=
  if includes pathParts JSON_ITEMS
  then (false, emit w (LogWarn (skip_message pathParts)))
  else (true, w).

(** The body of [pathParts.forEach] in [add], from the leaf the loop
    has reached.  [doc] is [jsonFileContents || rawFileContents].  The
    call that adds the file to the root's [_json] sits in the last
    round of the loop; [add_tree] makes it once the walk is over. *)
Fixpoint add_walk (file : string) (jsonFileContents doc : value)
    (pathParts : list string) (leaf : value) : value * completion :=
  match pathParts with
  | [] => (leaf, Normal)
  | [part] => set_prop leaf part doc
  | part :: rest =>
      let '(leaf1, c1) :=
        if truthy (own_prop leaf part) then (leaf, Normal)
        else set_prop leaf part (deepClone storeDataSkeleton) in
      if is_normal c1 then
        let '(child, c2) :=
          addFileToJsonItems (own_prop leaf1 part) file jsonFileContents in
        let leaf2 := write_back leaf1 part child in
        if is_normal c2 then
          if truthy child then
            let '(child', c3) := add_walk file jsonFileContents doc rest child in
            (write_back leaf2 part child', c3)
          else add_walk file jsonFileContents doc rest leaf2
        else (leaf2, c2)
      else (leaf1, c1)
  end.

Definition add_tree (file : string) (jsonFileContents doc : value)
    (pathParts : list string) (rootLeaf : value) : value * completion :=
  let '(root1, c) := add_walk file jsonFileContents doc pathParts rootLeaf in
  if is_normal c then addFileToJsonItems root1 file jsonFileContents
  else (root1, c).

(** [postProcessor.processFile], when the hook is there. *)
Definition post_process (dataDir file : string) (contents : FileContents)
    : FileContents :=
  match postProcessor with
  | Some pp =>
      match processFile pp with
      | Some f =>
          let '(r, j) := f dataDir file (raw contents) (json contents) in
          {| raw := r; json := j |}
      | None => contents
      end
  | None => contents
  end.

(** The contents [add] ends up with for a file: read or cached, then
    post-processed.  The entry is in the cache when it is read back. *)
Definition fetch (dataDir file : string) (options : Options) (w : World)
    : World * FileContents :=
  let filePath := path_join dataDir file in
  let w1 :=
    if negb (useCache options)
       || negb (bool_decide (is_Some (Cache.get "file" filePath (cache w))))
    then with_cache w (Cache.set "file" filePath (getFileContents filePath) (cache w))
    else w in
  let contents :=
    match Cache.get "file" filePath (cache w1) with
    | Some c => c
    | None => getFileContents filePath
    end in
  (w1, post_process dataDir file contents).

(** The value the leaf of the tree receives: the parsed contents,
    carrying the file name, or the raw text. *)
Definition stored (file : string) (contents : FileContents) : value :=
  js_or (tag file (json contents)) (VStr (raw contents)).

(** [postProcessor?.processFile] *)
Definition processes : bool :=
  match postProcessor with
  | Some pp => match processFile pp with Some _ => true | None => false end
  | None => false
  end.

(** [json.__FILENAME__ = file] writes to the object [add] was handed.
    Without a [processFile] hook that is the object the cache holds, so
    the entry carries the file name from then on.  The loop gets to the
    write in its first round, before anything that can throw, unless
    the root leaf is [undefined] or [null].  With the hook the write
    goes to the object the hook returned, which is taken to be one of
    its own. *)
Definition tag_cached (dataDir file : string) (rootLeaf : value) (w : World)
    : World :=
  let filePath := path_join dataDir file in
  if processes || nullish rootLeaf then w
  else
    match Cache.get "file" filePath (cache w) with
    | Some c =>
        with_cache w
          (Cache.set "file" filePath
             {| raw := raw c; json := tag file (json c) |} (cache w))
    | None => w
    end.

(** The object a cache hit would hand to [add] carries no other file
    name, so that writing the name to it changes no document that is
    stored already.  With a [processFile] hook there is no telling
    which object got the name, and only a miss will do. *)
Definition cache_agrees (dataDir file : string) (options : Options) (w : World)
    : bool :=
  negb (useCache options)
  || match Cache.get "file" (path_join dataDir file) (cache w) with
     | Some c =>
         negb processes
         && match opt_prop (json c) FILENAME with
            | VStr name => String.eqb name file
            | _ => true
            end
     | None => true
     end.

Definition add (dataDir file : string) (options : Options) (w : World)
    : World * completion :=
  if String.eqb file "" then (w, Normal)
  else
    let pathParts := split_on "/" file in
    let '(ok, w0) := meetsPathRequirements pathParts w in
    if ok then
      let '(w1, contents) := fetch dataDir file options w0 in
      let rootLeaf := if useStage options then stage w1 else data w1 in
      let '(root', c) :=
        add_tree file (json contents) (stored file contents) pathParts rootLeaf in
      let w2 := if useStage options then with_stage w1 root' else with_data w1 root' in
      let w3 := tag_cached dataDir file rootLeaf w2 in
      if is_normal c then
        match postProcessor with
        | Some pp =>
            if storeAdd pp
            then (emit w3 (StoreAddHook dataDir file (raw contents)
                             (tag file (json contents))), Normal)
            else (w3, Normal)
        | None => (w3, Normal)
        end
      else (w3, c)
    else (w0, Normal).

(** The body of [pathParts.forEach] in [remove]; the call on
    [store.data] of the last round is made by [remove_tree]. *)
Fixpoint remove_walk (file : string) (pathParts : list string) (leaf : value)
    : value * completion :=
  match pathParts with
  | [] => (leaf, Normal)
  | [part] => delete_prop leaf part
  | part :: rest =>
      let '(child, c) := removeFileFromJsonItems (own_prop leaf part) file in
      let leaf1 := write_back leaf part child in
      if is_normal c then
        if truthy child then
          let '(child', c') := remove_walk file rest child in
          (write_back leaf1 part child', c')
        else remove_walk file rest leaf1
      else (leaf1, c)
  end.

Definition remove_tree (file : string) (pathParts : list string) (root : value)
    : value * completion :=
  let '(root1, c) := remove_walk file pathParts root in
  if is_normal c then removeFileFromJsonItems root1 file
  else (root1, c).

Definition remove (file : string) (w : World) : World * completion :=
  let pathParts := split_on "/" file in
  let '(root', c) := remove_tree file pathParts (data w) in
  let w1 := with_data w root' in
  if is_normal c then
    match postProcessor with
    | Some pp =>
        if storeRemove pp then (emit w1 (StoreRemoveHook file), Normal)
        else (w1, Normal)
    | None => (w1, Normal)
    end
  else (w1, c).

Definition update (dataDir file : string) (w : World) : World * completion :=
  let '(w1, c) := remove file w in
  if is_normal c then add dataDir file no_options w1
  else (w1, c).

(** [pathParts.reduce((prev, curr) => prev && prev[curr], store.data)] *)
Definition walk (pathParts : list string) (root : value) : value :=
  fold_left (λ prev curr, if truthy prev then own_prop prev curr else prev)
    pathParts root.

Definition get (file : string) (w : World) : value :=
  walk (split_on "/" file) (data w).

Definition promoteStage (w : World) : World :=
  with_stage (with_data w (stage w)) (deepClone storeDataSkeleton).

End Store.
End Store.

(** ** The module handler ([src/unnamed/part_001], lines 8-47) *)

Module ModuleHandler.

Inductive error : Type :=
| RequireFailed
| ResolveFailed
| NotLoaded (message : string).

Inductive outcome (A : Type) : Type :=
| Returned (a : A)
| Thrown (e : error).
Arguments Returned {A} a.
Arguments Thrown {A} e.

Section ModuleHandler.
(** A handle is whatever [require] yields; the handler only tests it
    for truthiness.  [require] returns [None] when node cannot resolve
    or evaluate the module. *)
Context {Handle : Type}.
Variable handle_truthy : Handle → bool.
Variable require : string → option Handle.
Variable resolvable : string → bool.

Record Registry : Type := {
  modules : gmap string Handle;
  debug_log : list string;
}.

Definition load (modulePath : string) (r : Registry) : Registry * outcome Handle :=
  let modules1 := delete modulePath (modules r) in
  match require modulePath with
  | None => ({| modules := modules1; debug_log := debug_log r |}, Thrown RequireFailed)
  | Some h =>
      let modules2 := <[modulePath:=h]> modules1 in
      if handle_truthy h then
        ({| modules := modules2;
            debug_log := (debug_log r ++ [("Load for " ++ modulePath ++ " done.")%string])%list |},
         Returned h)
      else
        ({| modules := modules2; debug_log := debug_log r |},
         Thrown (NotLoaded ("Query " ++ Store.quote ++ modulePath ++ Store.quote ++ " not loaded.")))
  end.

Definition remove (modulePath : string) (r : Registry) : Registry * outcome unit :=
  let r1 := {| modules := modules r;
               debug_log := (debug_log r ++ [("Remove for " ++ modulePath ++ " done.")%string])%list |} in
  if resolvable modulePath then
    ({| modules := delete modulePath (modules r1); debug_log := debug_log r1 |}, Returned tt)
  else (r1, Thrown ResolveFailed).

(** [modules[modulePath] || moduleHandler.load(modulePath)] *)
Definition get (modulePath : string) (r : Registry) : Registry * outcome Handle :=
  match modules r !! modulePath with
  | Some h => if handle_truthy h then (r, Returned h) else load modulePath r
  | None => load modulePath r
  end.

Definition failed {A : Type} (o : outcome A) : bool :=
  match o with Thrown _ => true | Returned _ => false end.

(** The entry at [modulePath] is one [get] would hand out. *)
Definition usable (modulePath : string) (r : Registry) : bool :=
  match modules r !! modulePath with
  | Some h => handle_truthy h
  | None => false
  end.

End ModuleHandler.
End ModuleHandler.

(** ** The include parser ([src/unnamed/part_001], lines 49-162) *)

Module IncludeParser.
Import JS.

(** *** [URLSearchParams]

    The platform class, after the URL standard: an ordered list of
    name-value pairs.  One leading [?] is dropped, the query string is
    cut at [&], empty pieces are skipped, each piece is cut at its first
    [=], [+] stands for a space and [%XX] for a byte.  Strings are byte
    strings here, the UTF-8 encoding of the text; what the standard's
    UTF-8 decoding without byte order mark does to them is to put
    U+FFFD in the place of every ill-formed sequence. *)

Definition hex_of (c : ascii) : option nat :=
  let n := nat_of_ascii c in
  if (48 <=? n)%nat && (n <=? 57)%nat then Some (n - 48)%nat
  else if (65 <=? n)%nat && (n <=? 70)%nat then Some (n - 55)%nat
  else if (97 <=? n)%nat && (n <=? 102)%nat then Some (n - 87)%nat
  else None.

Fixpoint percent_decode (s : string) : string :=
  match s with
  | EmptyString => EmptyString
  | String c s' =>
      let plain := String (if Ascii.eqb c "+" then " "%char else c) (percent_decode s') in
      if Ascii.eqb c "%" then
        match s' with
        | String h (String l s'') =>
            match hex_of h, hex_of l with
            | Some a, Some b =>
                String (ascii_of_nat (16 * a + b)) (percent_decode s'')
            | _, _ => plain
            end
        | _ => plain
        end
      else plain
  end.

(** U+FFFD, in UTF-8. *)
Definition replacement : string :=
  String (ascii_of_nat 239) (String (ascii_of_nat 191)
    (String (ascii_of_nat 189) EmptyString)).

(** What a byte starts when no sequence is open: nothing for an ASCII
    byte, a sequence with so many bytes to come, within the bounds the
    next byte has to keep, or an error. *)
Inductive lead : Type :=
| Single
| Opens (needed lower upper : nat)
| Stray.

Definition lead_of (b : nat) : lead :=
  if (b <=? 127)%nat then Single
  else if (194 <=? b)%nat && (b <=? 223)%nat then Opens 1 128 191
  else if (224 <=? b)%nat && (b <=? 239)%nat then
    Opens 2 (if (b =? 224)%nat then 160 else 128)%nat
            (if (b =? 237)%nat then 159 else 191)%nat
  else if (240 <=? b)%nat && (b <=? 244)%nat then
    Opens 3 (if (b =? 240)%nat then 144 else 128)%nat
            (if (b =? 244)%nat then 143 else 191)%nat
  else Stray.

(** The UTF-8 decoder of the encoding standard, followed by the
    encoding of its output.  [needed] bytes of the open sequence are
    still to come, the next one within [lower] and [upper]; [seen] are
    the bytes of the sequence so far. *)
Fixpoint utf8_decode (s : string) (needed lower upper : nat) (seen : string)
    : string :=
  match s with
  | EmptyString => if (needed =? 0)%nat then EmptyString else replacement
  | String c s' =>
      let b := nat_of_ascii c in
      if negb (needed =? 0)%nat && (lower <=? b)%nat && (b <=? upper)%nat then
        if (needed =? 1)%nat
        then seen ++ String c (utf8_decode s' 0 128 191 EmptyString)
        else utf8_decode s' (needed - 1) 128 191 (seen ++ String c EmptyString)
      else
        (if (needed =? 0)%nat then EmptyString else replacement)
        ++ match lead_of b with
           | Single => String c (utf8_decode s' 0 128 191 EmptyString)
           | Opens n lo hi => utf8_decode s' n lo hi (String c EmptyString)
           | Stray => replacement ++ utf8_decode s' 0 128 191 EmptyString
           end
  end.

(** A name or a value of the query string: percent-decoded, then
    UTF-8 decoded. *)
Definition decode_component (s : string) : string :=
  utf8_decode (percent_decode s) 0 128 191 EmptyString.

(** Cut at the first [sep]. *)
Fixpoint cut_first (sep : ascii) (s : string) : string * string :=
  match s with
  | EmptyString => (EmptyString, EmptyString)
  | String c s' =>
      if Ascii.eqb c sep then (EmptyString, s')
      else let '(a, b) := cut_first sep s' in (String c a, b)
  end.

Definition URLSearchParams (init : string) : list (string * string) :=
  let query :=
    match init with
    | String "?" rest => rest
    | _ => init
    end in
  omap
    (λ piece,
      if String.eqb piece "" then None
      else let '(name, value) := cut_first "=" piece in
           Some (decode_component name, decode_component value))
    (split_on "&" query).

(** [params.keys()] *)
Definition keys (params : list (string * string)) : list string :=
  map fst params.

(** [params.getAll(key)] *)
Definition getAll (key : string) (params : list (string * string)) : list string :=
  map snd (filter (λ kv, kv.1 = key) params).

(** [params.get(key)] *)
Definition get_first (key : string) (params : list (string * string)) : value :=
  match getAll key params with
  | v :: _ => VStr v
  | [] => VNull
  end.

Definition param_entry (key : string) (params : list (string * string)) : value :=
  if (1 <? length (getAll key params))%nat
  then VArr (map VStr (getAll key params)) ∅
  else get_first key params.

(** [obj[key] = ...].  Under the key [__proto__] the write goes to the
    setter every object inherits and creates no property: a string is
    dropped. *)
Definition assign_param (params : list (string * string))
    (obj : gmap string value) (key : string) : gmap string value :=
  if String.eqb key "__proto__" then obj
  else <[key:=param_entry key params]> obj.

(** When [__proto__] occurs more than once, the write under that key
    makes the array of its values the prototype of [obj]: an object
    the model has no value for, hence [None]. *)
Definition parseParams (queryString : string) : option value :=
  let params := URLSearchParams queryString in
  if (1 <? length (getAll "__proto__" params))%nat then None
  else Some (VObj (fold_left (assign_param params) (keys params) ∅)).

Inductive strategy : Type :=
| ConfigInclude
| EntityInclude
| CustomInclude
| LocaleInclude
| AliasWithoutType (type : string).

(** What a pass asks of its collaborators, in call order. *)
Inductive call : Type :=
| QueryRun (queryId : string) (queryArgs : value)
| Mount (s : strategy) (includeData : value) (mountPointPath : list string)
    (includeKey : string).

(** The suffixes the static pass tests the key of a reference for. *)
Definition static_suffixes : list string :=
  ["configinclude"; "entityinclude"; "custominclude"; "localeinclude"].

(** [array.pop()]: the array without its last element, and that element. *)
Definition pop (xs : list string) : list string * option string :=
  (removelast xs, last xs).

Section IncludeParser.
(** The store lookup, [getObjectValue] of [utils/object], the query
    runner and the five mounting strategies live in other modules;
    each strategy returns the document it has written to. *)
Variable store_get : value → value.
Variable getObjectValue : value → string → value.
Variable queryRunner_run : string → value → value.
Variable configIncludeParser : value → value → list string → string → value.
Variable entityIncludeParser : value → value → list string → string → value.
Variable customIncludeParser : value → value → list string → string → value.
Variable localeIncludeParser : value → value → list string → string → value.
Variable aliasWithoutTypeIncludeParser :
  value → value → list string → string → string → value.

(** [jsonData.metadata?.includes], when the pass gets to iterate it. *)
Definition includes_of (fileContent : value) : option (list value) :=
  if truthy fileContent then
    let seq := opt_prop (own_prop fileContent "metadata") "includes" in
    if truthy seq then
      match seq with
      | VArr xs _ => Some xs
      | _ => None
      end
    else Some []
  else Some [].

Definition includes_iterable (fileContent : value) : bool :=
  bool_decide (is_Some (includes_of fileContent)).

(** One of the four [if] statements of the static pass. *)
Definition static_if (suffix : string) (s : strategy)
    (parser : value → value → list string → string → value)
    (includeData : value) (mountPointPath : list string) (includeKey : string)
    (st : value * list call) : value * list call :=
  if endsWith (toLowerCase includeKey) suffix
  then (parser st.1 includeData mountPointPath includeKey,
        (st.2 ++ [Mount s includeData mountPointPath includeKey])%list)
  else st.

(** The callback of [forEach] in [static.run]. *)
Definition static_step (includePath : string) (st : value * list call)
    : value * list call :=
  let includePathValue := getObjectValue st.1 includePath in
  let includeData := store_get includePathValue in
  let '(mountPointPath, includeKey) := pop (split_on "." includePath) in
  match includeKey with
  | Some includeKey =>
      if truthy (VStr includeKey) then
        let st1 := static_if "configinclude" ConfigInclude configIncludeParser
                     includeData mountPointPath includeKey st in
        let st2 := static_if "entityinclude" EntityInclude entityIncludeParser
                     includeData mountPointPath includeKey st1 in
        let st3 := static_if "custominclude" CustomInclude customIncludeParser
                     includeData mountPointPath includeKey st2 in
        static_if "localeinclude" LocaleInclude localeIncludeParser
          includeData mountPointPath includeKey st3
      else st
  | None => st
  end.

(** The callback of [forEach] in [dynamic.run]. *)
Definition dynamic_step (includePath : string) (st : value * list call)
    : value * list call * completion :=
  if endsWith (toLowerCase includePath) "queryinclude" then
    match getObjectValue st.1 includePath with
    | VStr reference =>
        let queryData := split_on "?" reference in
        let queryId := default EmptyString (queryData !! 0%nat) in
        let queryArgs :=
          match queryData !! 1%nat with
          | Some q => if truthy (VStr q) then parseParams q else Some (VObj ∅)
          | None => Some (VObj ∅)
          end in
        match queryArgs with
        | Some queryArgs =>
            let includeData := queryRunner_run queryId queryArgs in
            let st1 := (st.1, (st.2 ++ [QueryRun queryId queryArgs])%list) in
            let '(mountPointPath, includeKey) := pop (split_on "." includePath) in
            match includeKey with
            | Some includeKey =>
                if truthy (VStr includeKey) then
                  (aliasWithoutTypeIncludeParser st1.1 includeData mountPointPath
                     includeKey "query",
                   (st1.2 ++ [Mount (AliasWithoutType "query") includeData
                                mountPointPath includeKey])%list,
                   Normal)
                else (st1, Normal)
            | None => (st1, Normal)
            end
        | None => (st, OutOfModel)
        end
    | _ => (st, TypeError)
    end
  else (st, Normal).

(** [forEach] over the declared references; an entry that is not a
    string has no [toLowerCase] and no [split]. *)
Fixpoint static_each (paths : list value) (st : value * list call)
    : value * list call * completion :=
  match paths with
  | [] => (st, Normal)
  | VStr includePath :: rest => static_each rest (static_step includePath st)
  | _ :: _ => (st, TypeError)
  end.

Fixpoint dynamic_each (paths : list value) (st : value * list call)
    : value * list call * completion :=
  match paths with
  | [] => (st, Normal)
  | VStr includePath :: rest =>
      let '(st1, c) := dynamic_step includePath st in
      if is_normal c then dynamic_each rest st1 else (st1, c)
  | _ :: _ => (st, TypeError)
  end.

Definition static_run (fileContent : value) : value * list call * completion :=
  match includes_of fileContent with
  | Some paths => static_each paths (fileContent, [])
  | None => ((fileContent, []), TypeError)
  end.

Definition dynamic_run (fileContent : value) : value * list call * completion :=
  match includes_of fileContent with
  | Some paths => dynamic_each paths (fileContent, [])
  | None => ((fileContent, []), TypeError)
  end.

End IncludeParser.
End IncludeParser.

(** ** Shapes of the tree *)

Module Shape.
Import JS Store.

Definition is_array (v : value) : bool :=
  match v with VArr _ _ => true | _ => false end.

(** An index: [{ main: [...], variants: { name: [...], ... } }]. *)
Definition index_value (main : list value) (groups : gmap string value) : value :=
  VObj (<[MAIN:=VArr main ∅]> {[ VARIANTS := VObj groups ]}).

Definition is_index (v : value) : bool :=
  match v with
  | VObj items =>
      match items !! MAIN, items !! VARIANTS with
      | Some (VArr _ _), Some (VObj groups) =>
          bool_decide (map_Forall (λ _ g, is_array g = true) groups)
      | _, _ => false
      end
  | _ => false
  end.

(** A directory node: an object that owns an index under [_json]. *)
Definition is_dir (v : value) : bool :=
  match v with
  | VObj m =>
      match m !! JSON_ITEMS with
      | Some items => is_index items
      | None => false
      end
  | _ => false
  end.

(** What [addFileToJsonItems] makes of the index of a directory node:
    the document joins [main], or the group of its variant. *)
Definition group_push (d : value) (v : string) (groups : gmap string value)
    : gmap string value :=
  match groups !! v with
  | Some (VArr docs props) => <[v:=VArr (docs ++ [d]) props]> groups
  | _ => <[v:=VArr [d] ∅]> groups
  end.

Definition items_add (v : option string) (d : value) (items : value) : value :=
  match items with
  | VObj im =>
      match v with
      | None =>
          match im !! MAIN with
          | Some (VArr docs props) => VObj (<[MAIN:=VArr (docs ++ [d]) props]> im)
          | _ => items
          end
      | Some v =>
          match im !! VARIANTS with
          | Some (VObj groups) => VObj (<[VARIANTS:=VObj (group_push d v groups)]> im)
          | _ => items
          end
      end
  | _ => items
  end.

Definition items_after_add (v : option string) (file : string)
    (jsonFileContents : value) (items : value) : value :=
  if truthy jsonFileContents then items_add v (tag file jsonFileContents) items
  else items.

(** The child [add] steps into: the one that is there, or a fresh
    skeleton. *)
Definition entered (m : gmap string value) (part : string) : value :=
  if truthy (default VUndef (m !! part)) then default VUndef (m !! part)
  else deepClone storeDataSkeleton.

(** The index of a node, that of a fresh skeleton when the node is
    not there yet. *)
Definition items_of (node : value) : value :=
  own_prop (if truthy node then node else deepClone storeDataSkeleton) JSON_ITEMS.

(** [findIndex] and [splice(_, 1)] on the documents of an array. *)
Definition splice_of (file : string) (docs : list value) : list value :=
  splice (findIndex (has_filename file) docs) 1 docs.

Definition group_splice (file v : string) (groups : gmap string value)
    : gmap string value :=
  match groups !! v with
  | Some (VArr docs props) =>
      match splice_of file docs with
      | [] => delete v groups
      | docs' => <[v:=VArr docs' props]> groups
      end
  | _ => groups
  end.

(** What [removeFileFromJsonItems] makes of the index of a directory
    node. *)
Definition items_remove (v : option string) (file : string) (items : value) : value :=
  match items with
  | VObj im =>
      match v with
      | None =>
          match im !! MAIN with
          | Some (VArr docs props) => VObj (<[MAIN:=VArr (splice_of file docs) props]> im)
          | _ => items
          end
      | Some v =>
          match im !! VARIANTS with
          | Some (VObj groups) => VObj (<[VARIANTS:=VObj (group_splice file v groups)]> im)
          | _ => items
          end
      end
  | _ => items
  end.

(** Every directory on the way to the file is absent or a directory
    node; the file name itself is not looked at. *)
Fixpoint path_clear (pathParts : list string) (leaf : value) : bool :=
  match pathParts with
  | [] => true
  | [_] => true
  | part :: rest =>
      match own_prop leaf part with
      | VUndef => true
      | child => is_dir child && path_clear rest child
      end
  end.

(** Every directory on the way to the file is there. *)
Fixpoint dirs_exist (pathParts : list string) (leaf : value) : bool :=
  match pathParts with
  | [] => true
  | [_] => true
  | part :: rest => is_dir (own_prop leaf part) && dirs_exist rest (own_prop leaf part)
  end.

(** [add] goes on to read the file: the name is not empty and holds no
    reserved segment. *)
Definition accepts (file : string) : bool :=
  negb (String.eqb file "") && negb (includes (split_on "/" file) JSON_ITEMS).

Fixpoint prefixb (l1 l2 : list string) : bool :=
  match l1, l2 with
  | [], _ => true
  | x :: l1', y :: l2' => String.eqb x y && prefixb l1' l2'
  | _ :: _, [] => false
  end.

Definition proper_prefixb (l1 l2 : list string) : bool :=
  prefixb l1 l2 && negb (length l1 =? length l2)%nat.

End Shape.

(** ** The ledger: what a run of [add] and [remove] has ingested *)

Module Ledger.
Import JS Store Shape.

Inductive op : Type :=
| Add (dataDir file : string) (useCache : bool)
| Remove (file : string).

Section Ledger.
Variable getVariantName : string → option string.
Variable getFileContents : string → FileContents.
Variable path_join : string → string → string.
Variable postProcessor : option PostProcessor.

(** The contents of a file as [add] sees them when the cache agrees
    with the files. *)
Definition read (dataDir file : string) : FileContents :=
  post_process postProcessor dataDir file (getFileContents (path_join dataDir file)).

Definition exec (o : op) (w : World) : World :=
  match o with
  | Add dataDir file uc =>
      (add getVariantName getFileContents path_join postProcessor dataDir file
         {| useStage := false; useCache := uc |} w).1
  | Remove file => (remove getVariantName postProcessor file w).1
  end.

Definition run (ops : list op) (w : World) : World :=
  fold_left (λ w o, exec o w) ops w.

(** The files that are in the store, oldest first. *)
Definition record (o : op) (live : list (string * FileContents))
    : list (string * FileContents) :=
  match o with
  | Add dataDir file _ =>
      if accepts file then live ++ [(file, read dataDir file)] else live
  | Remove file => filter (λ e, e.1 ≠ file) live
  end.

Definition ledger (ops : list op) : list (string * FileContents) :=
  fold_left (λ live o, record o live) ops [].

(** The parsed contents get into the index. *)
Definition indexed (c : FileContents) : bool := truthy (json c).

(** Parsed contents that can carry the file name. *)
Definition structured (c : FileContents) : bool :=
  match json c with
  | VObj _ | VArr _ _ => true
  | j => negb (truthy j)
  end.

(** The directory [level] lies on the way to [file]. *)
Definition below (level : list string) (file : string) : bool :=
  proper_prefixb level (split_on "/" file).

Definition same_variant (v : option string) (file : string) : bool :=
  bool_decide (variant_of getVariantName file = v).

(** The documents of one kind ([None]: not a variant) that are
    ingested at or below [level], oldest first. *)
Definition counts (v : option string) (level : list string)
    (e : string * FileContents) : bool :=
  indexed e.2 && same_variant v e.1 && below level e.1.

Definition expected (v : option string) (level : list string)
    (live : list (string * FileContents)) : list value :=
  omap (λ e, if counts v level e then Some (tag e.1 (json e.2)) else None) live.

Definition expected_group (v : string) (level : list string)
    (live : list (string * FileContents)) : option value :=
  match expected (Some v) level live with
  | [] => None
  | docs => Some (VArr docs ∅)
  end.

(** The documents of one kind at or below [level] when every document
    counts, parsed or not. *)
Definition ingested (v : option string) (level : list string)
    (live : list (string * FileContents)) : list value :=
  omap (λ e, if same_variant v e.1 && below level e.1
             then Some (stored e.1 e.2) else None)
       live.

(** A step the store is meant for: a file that is added is new, it
    does not lie under a file, what was parsed of it is an object or an
    array, no name on its way is one every object inherits, and a
    cached document it is served from carries no other file name; a
    file that is removed is in the store and indexed. *)
Definition admissible (live : list (string * FileContents)) (w : World)
    (o : op) : bool :=
  match o with
  | Add dataDir file uc =>
      negb (accepts file)
      || (match get file w with VUndef => true | _ => false end
          && forallb (λ e, negb (prefixb (split_on "/" e.1) (split_on "/" file))) live
          && structured (read dataDir file)
          && plain_add getVariantName path_join dataDir file
          && cache_agrees path_join postProcessor dataDir file
               {| useStage := false; useCache := uc |} w)
  | Remove file =>
      existsb (λ e, String.eqb e.1 file && indexed e.2) live
  end.

Fixpoint admissible_run (ops : list op) (live : list (string * FileContents))
    (w : World) : bool :=
  match ops with
  | [] => true
  | o :: rest =>
      admissible live w o && admissible_run rest (record o live) (exec o w)
  end.

(** The index a level is meant to hold. *)
Definition level_holds (live : list (string * FileContents))
    (level : list string) (node : value) : Prop :=
  ∃ m groups,
    node = VObj m
    ∧ m !! JSON_ITEMS = Some (index_value (expected None level live) groups)
    ∧ ∀ v, groups !! v = expected_group v level live.

(** No file of the ledger lies on the way to [level]: the level is a
    directory, or nothing. *)
Definition off_files (live : list (string * FileContents))
    (level : list string) : Prop :=
  ∀ e, e ∈ live → prefixb (split_on "/" e.1) level = false.

(** What the cache holds for a path is what the file holds, but for
    a file name [add] has written to it. *)
Definition alike (c c0 : FileContents) : Prop :=
  raw c = raw c0
  ∧ (json c = json c0
     ∨ processes postProcessor = false ∧ ∃ name, json c = tag name (json c0)).

Definition fresh (cached : gmap string (gmap string FileContents)) : Prop :=
  ∀ filePath c,
    Cache.get "file" filePath cached = Some c → alike c (getFileContents filePath).

(** The store agrees with the ledger. *)
Record consistent (live : list (string * FileContents)) (w : World) : Prop := {
  cache_fresh : fresh (cache w);
  root_dir : is_dir (data w) = true;
  live_files :
    ∀ f c, (f, c) ∈ live →
           accepts f = true ∧ structured c = true ∧ get f w = stored f c;
  live_nodup : NoDup live.*1;
  live_apart :
    ∀ e1 e2, e1 ∈ live → e2 ∈ live →
             prefixb (split_on "/" e1.1) (split_on "/" e2.1) = true → e1.1 = e2.1;
  levels :
    ∀ level, JSON_ITEMS ∉ level → off_files live level →
             walk level (data w) = VUndef
             ∨ level_holds live level (walk level (data w));
}.

End Ledger.
End Ledger.

(** ** Collaborators for the worked examples *)

Module Demo.
Import JS Store.

(** Modelled from the spec: [getVariantName] of [utils/fsUtils], which
    is not among the sources.  A file named [<base>--<variant>.<ext>] is
    a variant; without the separator it is the main document. *)
Definition getVariantName (file : string) : option string :=
  let base := List.last (split_on "/" file) EmptyString in
  let stem := List.hd EmptyString (split_on "." base) in
  match String.index 0 "--" stem with
  | Some i => Some (String.substring (i + 2) (String.length stem - (i + 2)) stem)
  | None => None
  end.

(** A data directory in which a [.json] file parses to an object and
    any other file is text. *)
Definition getFileContents (filePath : string) : FileContents :=
  if endsWith filePath ".json"
  then {| raw := "{}"; json := VObj {[ "path" := VStr filePath ]} |}
  else {| raw := "text of " ++ filePath; json := VNull |}.

Definition path_join (dataDir file : string) : string :=
  dataDir ++ "/" ++ file.

Definition add := Store.add getVariantName getFileContents path_join None.
Definition remove := Store.remove getVariantName None.
Definition update := Store.update getVariantName getFileContents path_join None.

Definition article : string := "en/article/1.json".
Definition teaser : string := "en/article/1--teaser.json".

(** The store after [add("data", "en/article/1.json")] and
    [add("data", "en/article/1--teaser.json")]. *)
Definition two_files : World :=
  (add "data" teaser no_options (add "data" article no_options initial).1).1.

(** The store after [add("data", "notes")], a text file. *)
Definition one_text : World := (add "data" "notes" no_options initial).1.

(** A run: two articles and a teaser go in, with a text file; the
    teaser goes out again. *)
Definition editing : list Ledger.op :=
  [Ledger.Add "data" article false;
   Ledger.Add "data" teaser false;
   Ledger.Add "data" "notes" false;
   Ledger.Add "data" "en/article/2.json" true;
   Ledger.Remove teaser].

End Demo.

(** ** Reading the index of a node *)

Module Listing.
Import JS Store.

(** [node._json.main], for a node that has an index. *)
Definition main_of (node : value) : value :=
  own_prop (own_prop node JSON_ITEMS) MAIN.

(** Some document of the array carries the file name. *)
Definition lists (file : string) (array : value) : bool :=
  match array with
  | VArr docs _ => existsb (has_filename file) docs
  | _ => false
  end.

(** The index holds no document of the file's kind ([None]: not a
    variant) under the file's name, and no empty group for its
    variant. *)
Definition unlisted (v : option string) (file : string) (items : value) : bool :=
  match v with
  | None => negb (lists file (own_prop items MAIN))
  | Some name =>
      match own_prop (own_prop items VARIANTS) name with
      | VUndef => true
      | VArr [] _ => false
      | group => negb (lists file group)
      end
  end.

End Listing.

(** ** Loading the configured modules ([src/unnamed/part_001], lines 11-27) *)

Module ModuleInit.
Import ModuleHandler.

(** [config.queryDir] and [config.postProcessor]: a path, or nothing. *)
Record Config : Type := {
  queryDir : option string;
  postProcessor : option string;
}.

(** [if (setting)]: the empty string is falsy. *)
Definition given (setting : option string) : option string :=
  match setting with
  | Some s => if String.eqb s "" then None else Some s
  | None => None
  end.

Section ModuleInit.
(** [findFilesInDir] of [utils/fsUtils] and node's [path.join] are not
    part of the handler.  [require.cache] is not modelled: [require]
    evaluates the module each time, which is what the deletion from the
    cache is there for; what is left of
    [delete require.cache[require.resolve(modulePath)]] is that
    [require.resolve] throws for a path it cannot resolve. *)
Context {Handle : Type}.
Variable handle_truthy : Handle → bool.
Variable require : string → option Handle.
Variable resolvable : string → bool.
Variable findFilesInDir : string → string → list string.
Variable path_join : string → string → string.

(** [delete require.cache[require.resolve(modulePath)];
     moduleHandler.load(modulePath)] *)
Definition reload (modulePath : string) (r : Registry) : Registry * outcome Handle :=
  if resolvable modulePath then load handle_truthy require modulePath r
  else (r, Thrown ResolveFailed).

(** [allQueryModules.forEach(queryModule => ...)]; a throw ends the
    loop. *)
Fixpoint load_found (queryDir : string) (allQueryModules : list string)
    (r : Registry) : Registry * outcome unit :=
  match allQueryModules with
  | [] => (r, Returned tt)
  | queryModule :: rest =>
      let modulePath := path_join queryDir queryModule in
      match reload modulePath r with
      | (r1, Returned _) => load_found queryDir rest r1
      | (r1, Thrown e) => (r1, Thrown e)
      end
  end.

Definition init (config : Config) (r : Registry) : Registry * outcome unit :=
  let '(r1, o) :=
    match given (queryDir config) with
    | Some queryDir =>
        let allQueryModules := findFilesInDir queryDir "**/*.js" in
        load_found queryDir allQueryModules r
    | None => (r, Returned tt)
    end in
  match o with
  | Returned _ =>
      match given (postProcessor config) with
      | Some postProcessor =>
          match reload postProcessor r1 with
          | (r2, Returned _) => (r2, Returned tt)
          | (r2, Thrown e) => (r2, Thrown e)
          end
      | None => (r1, Returned tt)
      end
  | Thrown e => (r1, Thrown e)
  end.

(** Every path [init] sets out to load, in order: the query modules
    found, then the post-processor. *)
Definition targets (config : Config) : list string :=
  match given (queryDir config) with
  | Some queryDir => map (path_join queryDir) (findFilesInDir queryDir "**/*.js")
  | None => []
  end
  ++ match given (postProcessor config) with
     | Some postProcessor => [postProcessor]
     | None => []
     end.

(** [init] gets through the module: the path resolves and the module
    yields a truthy value. *)
Definition loadable (modulePath : string) : bool :=
  resolvable modulePath
  && match require modulePath with
     | Some h => handle_truthy h
     | None => false
     end.

End ModuleInit.
End ModuleInit.

(** ** The data route
    ([src/dist/lib/store/includeParser/parsers/__tests__/entityIncludeParser.test.js],
    lines 63-145)

    The handler reads the store along [req.params[0]] and either sends
    what it finds as a file or renders a listing.  The parts of it that
    decide between the two and that lay out the trail of the listing
    are modelled; the rows of the listing, which come in the order of
    [Object.keys], are not. *)

Module DataRoute.
Import JS Store.

(** [!paramPath || paramPath === '' ? null : paramPath.split('/')] *)
Definition storePathParts (paramPath : option string) : option (list string) :=
  match paramPath with
  | Some p => if String.eqb p "" then None else Some (split_on "/" p)
  | None => None
  end.

(** [storePathParts
       ? storePathParts.reduce((prev, curr) => prev && prev[curr], store.data)
       : store.data] *)
Definition storeItem (paramPath : option string) (w : World) : value :=
  match storePathParts paramPath with
  | Some parts => walk parts (data w)
  | None => data w
  end.

(** [typeof storeItem === 'string'] *)
Definition is_string (v : value) : bool :=
  match v with VStr _ => true | _ => false end.

(** [storeItem && (storeItem.__FILENAME__ || typeof storeItem === 'string')]:
    the item goes to [serveDataFile]. *)
Definition serves_file (storeItem : value) : bool :=
  truthy storeItem && (truthy (own_prop storeItem FILENAME) || is_string storeItem).

Record Crumb : Type := {
  title : string;
  url : string;
}.

(** [storePathParts.map((pathPart, index) => ({
       title: pathPart,
       url: storePathParts.slice(0, index + 1).join('/') }))] *)
Definition breadcrumbs (paramPath : option string) : list Crumb :=
  match storePathParts paramPath with
  | Some parts =>
      imap (λ index pathPart,
              {| title := pathPart; url := join "/" (take (index + 1) parts) |})
           parts
  | None => []
  end.

End DataRoute.

(** ** What the passes of the include parser ask for *)

Module Calls.
Import JS IncludeParser.

(** The mount of one of the four strategies of the static pass. *)
Definition is_static_mount (c : call) : bool :=
  match c with
  | Mount (ConfigInclude | EntityInclude | CustomInclude | LocaleInclude) _ _ _ => true
  | _ => false
  end.

(** The calls come in pairs: a query, then the mount of what the query
    runner [run] returned for it, under the tag [query]. *)
Inductive paired (run : string → value → value) : list call → Prop :=
| paired_nil : paired run []
| paired_cons queryId queryArgs mountPointPath includeKey rest :
    paired run rest →
    paired run
      (QueryRun queryId queryArgs
       :: Mount (AliasWithoutType "query") (run queryId queryArgs)
            mountPointPath includeKey
       :: rest).

End Calls.

(** ** More inputs for the worked examples *)

Module Samples.
Import JS Store.

(** The store of [Demo.two_files] with the text file [notes] added. *)
Definition with_notes : World :=
  (Demo.add "data" "notes" no_options Demo.two_files).1.

(** A cache that holds contents for [data/en/article/1.json] which the
    data directory of [Demo] does not hold. *)
Definition stale : FileContents :=
  {| raw := "{}"; json := VObj {[ "path" := VStr "an earlier version" ]} |}.

Definition with_stale_cache : World :=
  with_cache initial (Cache.set "file" "data/en/article/1.json" stale ∅).

(** A post-processor with the two store hooks and no [processFile]. *)
Definition store_hooks : PostProcessor :=
  {| processFile := None; storeAdd := true; storeRemove := true |}.

End Samples.

(** * Properties *)

(** ** Values, paths and strings *)

Module JSFacts.
Import JS.

Lemma split_on_cons sep s : ∃ x r, split_on sep s = x :: r.
Proof.
  induction s as [|c s IH]; simpl; [by eexists _, _|].
  destruct (Ascii.eqb c sep); [by eexists _, _|].
  destruct IH as (x & r & ->). by eexists _, _.
Qed.

Lemma split_on_not_nil sep s : split_on sep s ≠ [].
Proof. destruct (split_on_cons sep s) as (x & r & ->). done. Qed.

Lemma includes_false xs x : includes xs x = false ↔ x ∉ xs.
Proof.
  unfold includes. induction xs as [|y xs IH]; simpl.
  - split; [intros _; apply not_elem_of_nil | done].
  - rewrite orb_false_iff, IH, not_elem_of_cons.
    destruct (String.eqb_spec x y) as [->|Hne]; split; intros [H1 H2]; done.
Qed.

Lemma truthy_obj m : truthy (VObj m) = true.
Proof. done. Qed.

Lemma own_prop_obj m k : own_prop (VObj m) k = default VUndef (m !! k).
Proof. done. Qed.

Lemma write_back_obj m k x child :
  m !! k = Some x → write_back (VObj m) k child = VObj (<[k:=child]> m).
Proof. intros H. simpl. by rewrite H. Qed.

End JSFacts.

(** ** The store *)

Module StoreFacts.
Import JS Store Shape JSFacts.

Lemma names_distinct :
  JSON_ITEMS ≠ MAIN ∧ JSON_ITEMS ≠ VARIANTS ∧ MAIN ≠ VARIANTS.
Proof. done. Qed.

Lemma is_index_inv items :
  is_index items = true →
  ∃ im docs props groups,
    items = VObj im ∧ im !! MAIN = Some (VArr docs props)
    ∧ im !! VARIANTS = Some (VObj groups)
    ∧ map_Forall (λ _ g, is_array g = true) groups.
Proof.
  destruct items as [| | | | | |im]; try done. simpl.
  destruct (im !! MAIN) as [[| | | | |docs props|]|] eqn:Hm; try done.
  destruct (im !! VARIANTS) as [[| | | | | |groups]|] eqn:Hv; try done.
  intros H%bool_decide_eq_true. by eexists _, _, _, _.
Qed.

Lemma is_dir_inv v :
  is_dir v = true →
  ∃ m items, v = VObj m ∧ m !! JSON_ITEMS = Some items ∧ is_index items = true.
Proof.
  destruct v as [| | | | | |m]; try done. simpl.
  destruct (m !! JSON_ITEMS) as [items|] eqn:H; [|done]. by eexists _, _.
Qed.

Lemma is_dir_intro m items :
  m !! JSON_ITEMS = Some items → is_index items = true → is_dir (VObj m) = true.
Proof. intros H Hi. simpl. by rewrite H. Qed.

Lemma skeleton_is_dir : is_dir (deepClone storeDataSkeleton) = true.
Proof. by vm_compute. Qed.

Lemma is_array_inv g : is_array g = true → ∃ docs props, g = VArr docs props.
Proof. destruct g; try done. by eexists _, _. Qed.

Lemma group_push_arrays d v groups :
  map_Forall (λ _ g, is_array g = true) groups →
  map_Forall (λ _ g, is_array g = true) (group_push d v groups).
Proof.
  intros H. unfold group_push.
  destruct (groups !! v) as [[| | | | |docs props|]|]; by apply map_Forall_insert_2.
Qed.

Lemma group_splice_arrays file v groups :
  map_Forall (λ _ g, is_array g = true) groups →
  map_Forall (λ _ g, is_array g = true) (group_splice file v groups).
Proof.
  intros H. unfold group_splice.
  destruct (groups !! v) as [[| | | | |docs props|]|]; try done.
  destruct (splice_of file docs).
  - by apply map_Forall_delete.
  - by apply map_Forall_insert_2.
Qed.

Lemma items_add_index v d items :
  is_index items = true → is_index (items_add v d items) = true.
Proof.
  intros (im & docs & props & groups & -> & Hm & Hv & Hg)%is_index_inv.
  destruct v as [v|]; simpl; rewrite ?Hm, ?Hv; simpl.
  - rewrite lookup_insert_ne by done. rewrite Hm, lookup_insert_eq.
    apply bool_decide_eq_true. by apply group_push_arrays.
  - rewrite lookup_insert_eq, lookup_insert_ne by done. rewrite Hv.
    by apply bool_decide_eq_true.
Qed.

Lemma items_remove_index v file items :
  is_index items = true → is_index (items_remove v file items) = true.
Proof.
  intros (im & docs & props & groups & -> & Hm & Hv & Hg)%is_index_inv.
  destruct v as [v|]; simpl; rewrite ?Hm, ?Hv; simpl.
  - rewrite lookup_insert_ne by done. rewrite Hm, lookup_insert_eq.
    apply bool_decide_eq_true. by apply group_splice_arrays.
  - rewrite lookup_insert_eq, lookup_insert_ne by done. rewrite Hv.
    by apply bool_decide_eq_true.
Qed.

Section Items.
Variable getVariantName : string → option string.
#[local] Abbreviation addFileToJsonItems := (addFileToJsonItems getVariantName).
#[local] Abbreviation removeFileFromJsonItems := (removeFileFromJsonItems getVariantName).
#[local] Abbreviation variant_of := (variant_of getVariantName).

Lemma opt_prop_obj m k : opt_prop (VObj m) k = default VUndef (m !! k).
Proof. done. Qed.

Lemma variant_of_truthy file v : variant_of file = Some v → truthy (VStr v) = true.
Proof.
  unfold Store.variant_of. destruct (getVariantName file) as [u|]; [|done].
  destruct (String.eqb u "") eqn:E; [done|]. intros [= <-]. simpl. by rewrite E.
Qed.

Lemma addFileToJsonItems_dir m items file jsonFileContents :
  m !! JSON_ITEMS = Some items →
  is_index items = true →
  truthy jsonFileContents = true →
  addFileToJsonItems (VObj m) file jsonFileContents
  = (VObj (<[JSON_ITEMS:=items_add (variant_of file) (tag file jsonFileContents) items]> m),
     Normal).
Proof.
  intros Hm (im & docs & props & groups & -> & Hmain & Hvar & Hg)%is_index_inv Hj.
  unfold Store.addFileToJsonItems. rewrite Hj.
  destruct (variant_of file) as [v|] eqn:Hv; simpl.
  - rewrite Hm; simpl. rewrite !Hvar; simpl.
    unfold group_push.
    destruct (groups !! v) as [g|] eqn:Hgv; simpl.
    + destruct (is_array_inv g (Hg _ _ Hgv)) as (ds & ps & ->). simpl.
      rewrite !Hgv. simpl. done.
    + rewrite !lookup_insert_eq. simpl.
      by rewrite insert_insert_eq.
  - rewrite Hm; simpl. rewrite !Hmain; simpl. done.
Qed.

Lemma addFileToJsonItems_falsy dataLeaf file jsonFileContents :
  truthy jsonFileContents = false →
  addFileToJsonItems dataLeaf file jsonFileContents = (dataLeaf, Normal).
Proof. intros H. unfold Store.addFileToJsonItems. by rewrite H. Qed.

Lemma is_empty_array_spec docs props :
  is_empty_array (VArr docs props) = match docs with [] => true | _ => false end.
Proof. by destruct docs. Qed.

Lemma removeFileFromJsonItems_dir m items file :
  m !! JSON_ITEMS = Some items →
  is_index items = true →
  removeFileFromJsonItems (VObj m) file
  = (VObj (<[JSON_ITEMS:=items_remove (variant_of file) file items]> m), Normal).
Proof.
  intros Hm (im & docs & props & groups & -> & Hmain & Hvar & Hg)%is_index_inv.
  unfold Store.removeFileFromJsonItems.
  destruct (variant_of file) as [v|] eqn:Hv; unfold opt_prop; simpl.
  - rewrite Hm; simpl. rewrite !Hvar; simpl.
    unfold group_splice.
    destruct (groups !! v) as [g|] eqn:Hgv; simpl.
    + destruct (is_array_inv g (Hg _ _ Hgv)) as (ds & ps & ->). simpl.
      rewrite ?lookup_insert_eq. simpl.
      fold (splice_of file ds).
      destruct (splice_of file ds) eqn:Hs; simpl.
      * by rewrite delete_insert_eq.
      * done.
    + rewrite (insert_id im) by done. by rewrite insert_id.
  - rewrite Hm; simpl. by rewrite !Hmain.
Qed.

End Items.

Section Walks.
Variable getVariantName : string → option string.

#[local] Abbreviation addFileToJsonItems := (addFileToJsonItems getVariantName).
#[local] Abbreviation removeFileFromJsonItems := (removeFileFromJsonItems getVariantName).
#[local] Abbreviation variant_of := (variant_of getVariantName).
#[local] Abbreviation add_walk := (add_walk getVariantName).
#[local] Abbreviation remove_walk := (remove_walk getVariantName).

Lemma walk_undef pathParts : walk pathParts VUndef = VUndef.
Proof. induction pathParts; [done|]. simpl. apply IHpathParts. Qed.

Lemma walk_cons_obj part rest m :
  walk (part :: rest) (VObj m) = walk rest (default VUndef (m !! part)).
Proof. done. Qed.

Lemma walk_app l1 l2 v : walk (l1 ++ l2) v = walk l2 (walk l1 v).
Proof. unfold walk. apply fold_left_app. Qed.

(** The index update of a directory node, with the contents falsy or
    not. *)
Lemma addFileToJsonItems_node m items file jsonFileContents :
  m !! JSON_ITEMS = Some items →
  is_index items = true →
  addFileToJsonItems (VObj m) file jsonFileContents
  = (VObj (<[JSON_ITEMS:=items_after_add (variant_of file) file jsonFileContents items]> m),
     Normal).
Proof.
  intros Hm Hi. unfold items_after_add.
  destruct (truthy jsonFileContents) eqn:Hj.
  - by apply addFileToJsonItems_dir.
  - rewrite addFileToJsonItems_falsy by done. by rewrite insert_id.
Qed.

Lemma items_after_add_index v file jsonFileContents items :
  is_index items = true →
  is_index (items_after_add v file jsonFileContents items) = true.
Proof.
  intros H. unfold items_after_add.
  destruct (truthy jsonFileContents); [by apply items_add_index|done].
Qed.

Lemma add_walk_unfold file jsonFileContents doc part next rest leaf :
  add_walk file jsonFileContents doc (part :: next :: rest) leaf
  = let '(leaf1, c1) :=
      if truthy (own_prop leaf part) then (leaf, Normal)
      else set_prop leaf part (deepClone storeDataSkeleton) in
    if is_normal c1 then
      let '(child, c2) :=
        addFileToJsonItems (own_prop leaf1 part) file jsonFileContents in
      let leaf2 := write_back leaf1 part child in
      if is_normal c2 then
        if truthy child then
          let '(child', c3) :=
            add_walk file jsonFileContents doc (next :: rest) child in
          (write_back leaf2 part child', c3)
        else add_walk file jsonFileContents doc (next :: rest) leaf2
      else (leaf2, c2)
    else (leaf1, c1).
Proof. done. Qed.

Lemma remove_walk_unfold file part next rest leaf :
  remove_walk file (part :: next :: rest) leaf
  = let '(child, c) := removeFileFromJsonItems (own_prop leaf part) file in
    let leaf1 := write_back leaf part child in
    if is_normal c then
      if truthy child then
        let '(child', c') := remove_walk file (next :: rest) child in
        (write_back leaf1 part child', c')
      else remove_walk file (next :: rest) leaf1
    else (leaf1, c).
Proof. done. Qed.

(** One round of the loop of [add] on a directory part. *)
Lemma add_walk_round file jsonFileContents doc part next rest m cm items :
  entered m part = VObj cm →
  cm !! JSON_ITEMS = Some items →
  is_index items = true →
  add_walk file jsonFileContents doc (part :: next :: rest) (VObj m)
  = let '(child, c) :=
      add_walk file jsonFileContents doc (next :: rest)
        (VObj (<[JSON_ITEMS:=items_after_add (variant_of file) file jsonFileContents items]> cm)) in
    (VObj (<[part:=child]> m), c).
Proof.
  intros He Hcm Hi. unfold entered in He.
  rewrite add_walk_unfold. rewrite own_prop_obj.
  destruct (truthy (default VUndef (m !! part))) eqn:Ht.
  - cbn [is_normal]. rewrite own_prop_obj, He.
    rewrite (addFileToJsonItems_node _ _ _ _ Hcm Hi).
    cbn [is_normal truthy].
    destruct (m !! part) as [x|] eqn:Hx; [|done].
    rewrite write_back_obj with (x := x) by done.
    destruct (add_walk _ _ _ _ _) as [child c].
    rewrite write_back_obj with (x := VObj (<[JSON_ITEMS:=items_after_add (variant_of file) file jsonFileContents items]> cm))
      by apply lookup_insert_eq.
    by rewrite insert_insert_eq.
  - cbn [set_prop is_normal]. rewrite own_prop_obj, lookup_insert_eq. cbn [default].
    rewrite He.
    rewrite (addFileToJsonItems_node _ _ _ _ Hcm Hi).
    cbn [is_normal truthy].
    rewrite write_back_obj with (x := VObj cm) by apply lookup_insert_eq.
    rewrite insert_insert_eq.
    destruct (add_walk _ _ _ _ _) as [child c].
    rewrite write_back_obj with (x := VObj (<[JSON_ITEMS:=items_after_add (variant_of file) file jsonFileContents items]> cm))
      by apply lookup_insert_eq.
    by rewrite insert_insert_eq.
Qed.

(** One round of the loop of [remove] on a directory part. *)
Lemma remove_walk_round file part next rest m cm items :
  m !! part = Some (VObj cm) →
  cm !! JSON_ITEMS = Some items →
  is_index items = true →
  remove_walk file (part :: next :: rest) (VObj m)
  = let '(child, c) :=
      remove_walk file (next :: rest)
        (VObj (<[JSON_ITEMS:=items_remove (variant_of file) file items]> cm)) in
    (VObj (<[part:=child]> m), c).
Proof.
  intros Hm Hcm Hi.
  rewrite remove_walk_unfold. rewrite own_prop_obj, Hm. cbn [default].
  rewrite (removeFileFromJsonItems_dir _ _ _ _ Hcm Hi).
  cbn [is_normal truthy].
  rewrite write_back_obj with (x := VObj cm) by done.
  destruct (remove_walk _ _ _) as [child c].
  rewrite write_back_obj with (x := VObj (<[JSON_ITEMS:=items_remove (variant_of file) file items]> cm))
    by apply lookup_insert_eq.
  by rewrite insert_insert_eq.
Qed.

End Walks.

Section Trees.
Variable getVariantName : string → option string.

#[local] Abbreviation addFileToJsonItems := (addFileToJsonItems getVariantName).
#[local] Abbreviation removeFileFromJsonItems := (removeFileFromJsonItems getVariantName).
#[local] Abbreviation variant_of := (variant_of getVariantName).
#[local] Abbreviation add_walk := (add_walk getVariantName).
#[local] Abbreviation remove_walk := (remove_walk getVariantName).
#[local] Abbreviation add_tree := (add_tree getVariantName).
#[local] Abbreviation remove_tree := (remove_tree getVariantName).

Lemma own_prop_insert m k x : own_prop (VObj (<[k:=x]> m)) k = x.
Proof. simpl. by rewrite lookup_insert_eq. Qed.

Lemma own_prop_lookup m k x : m !! k = Some x → own_prop (VObj m) k = x.
Proof. intros H. simpl. by rewrite H. Qed.

Lemma path_clear_unfold part next rest leaf :
  path_clear (part :: next :: rest) leaf
  = match own_prop leaf part with
    | VUndef => true
    | child => is_dir child && path_clear (next :: rest) child
    end.
Proof. done. Qed.

Lemma dirs_exist_unfold part next rest leaf :
  dirs_exist (part :: next :: rest) leaf
  = is_dir (own_prop leaf part) && dirs_exist (next :: rest) (own_prop leaf part).
Proof. done. Qed.

Lemma path_clear_frame pathParts m x :
  JSON_ITEMS ∉ pathParts →
  path_clear pathParts (VObj (<[JSON_ITEMS:=x]> m)) = path_clear pathParts (VObj m).
Proof.
  destruct pathParts as [|part [|next rest]]; [done..|].
  intros H. rewrite !path_clear_unfold, !own_prop_obj.
  rewrite lookup_insert_ne; [done|]. intros E. apply H. rewrite <- E. apply list_elem_of_here.
Qed.

Lemma dirs_exist_frame pathParts m x :
  JSON_ITEMS ∉ pathParts →
  dirs_exist pathParts (VObj (<[JSON_ITEMS:=x]> m)) = dirs_exist pathParts (VObj m).
Proof.
  destruct pathParts as [|part [|next rest]]; [done..|].
  intros H. rewrite !dirs_exist_unfold, !own_prop_obj.
  rewrite lookup_insert_ne; [done|]. intros E. apply H. rewrite <- E. apply list_elem_of_here.
Qed.

Lemma walk_frame pathParts m x :
  pathParts ≠ [] →
  JSON_ITEMS ∉ pathParts →
  walk pathParts (VObj (<[JSON_ITEMS:=x]> m)) = walk pathParts (VObj m).
Proof.
  destruct pathParts as [|part rest]; [done|].
  intros _ H. rewrite !walk_cons_obj.
  rewrite lookup_insert_ne; [done|]. intros E. apply H. rewrite <- E. apply list_elem_of_here.
Qed.

Lemma dirs_exist_clear pathParts leaf :
  dirs_exist pathParts leaf = true → path_clear pathParts leaf = true.
Proof.
  revert leaf. induction pathParts as [|part rest IH]; [done|].
  destruct rest as [|next rest]; [done|].
  intros leaf. rewrite dirs_exist_unfold, path_clear_unfold. intros [Hd Hr]%andb_prop.
  specialize (IH _ Hr).
  destruct (own_prop leaf part); try done; cbv zeta; by rewrite Hd, IH.
Qed.

Lemma skeleton_clear pathParts :
  JSON_ITEMS ∉ pathParts → path_clear pathParts (deepClone storeDataSkeleton) = true.
Proof.
  destruct pathParts as [|part [|next rest]]; [done..|].
  intros H. rewrite path_clear_unfold. unfold deepClone, storeDataSkeleton.
  rewrite own_prop_obj, lookup_singleton_ne; [done|].
  intros E. apply H. rewrite <- E. apply list_elem_of_here.
Qed.

(** What the clear path leads [add] into is a directory node. *)
Lemma entered_clear part next rest m :
  JSON_ITEMS ∉ next :: rest →
  path_clear (part :: next :: rest) (VObj m) = true →
  ∃ cm items,
    entered m part = VObj cm ∧ cm !! JSON_ITEMS = Some items
    ∧ is_index items = true ∧ path_clear (next :: rest) (VObj cm) = true.
Proof.
  intros Hn. rewrite path_clear_unfold, own_prop_obj. unfold entered.
  destruct (default VUndef (m !! part)) as [| | | | | |cm] eqn:E; cbv zeta;
    try (intros [H _]%andb_prop; discriminate).
  - intros _. cbn [truthy].
    eexists _, _. split; [reflexivity|]. split; [apply lookup_singleton_eq|].
    split; [by vm_compute|]. by apply skeleton_clear.
  - intros [Hd Hc]%andb_prop. cbn [truthy].
    destruct (is_dir_inv _ Hd) as (cm' & items & [= <-] & Hi & Hx).
    by eexists _, _.
Qed.

(** On a clear path the loop of [add] runs to its end, leaves the
    document under the file name and every directory in place. *)
Lemma add_walk_clear file jsonFileContents doc pathParts m :
  pathParts ≠ [] →
  JSON_ITEMS ∉ pathParts →
  path_clear pathParts (VObj m) = true →
  ∃ m',
    add_walk file jsonFileContents doc pathParts (VObj m) = (VObj m', Normal)
    ∧ m' !! JSON_ITEMS = m !! JSON_ITEMS
    ∧ walk pathParts (VObj m') = doc
    ∧ dirs_exist pathParts (VObj m') = true.
Proof.
  revert m. induction pathParts as [|part rest IH]; [done|].
  intros m _ Hn Hc.
  apply not_elem_of_cons in Hn as [Hp Hn].
  destruct rest as [|next rest].
  - exists (<[part:=doc]> m). split; [done|].
    split; [by apply lookup_insert_ne|].
    split; [|done]. rewrite walk_cons_obj, lookup_insert_eq. done.
  - destruct (entered_clear _ _ _ _ Hn Hc) as (cm & items & He & Hcm & Hi & Hcc).
    rewrite (add_walk_round _ _ _ _ _ _ _ _ _ _ He Hcm Hi).
    set (items' := items_after_add (variant_of file) file jsonFileContents items).
    destruct (IH (<[JSON_ITEMS:=items']> cm)) as (cm' & -> & Hj & Hw & Hd).
    + done.
    + done.
    + by rewrite path_clear_frame.
    + exists (<[part:=VObj cm']> m). split; [done|].
      split; [by apply lookup_insert_ne|].
      split.
      * rewrite walk_cons_obj, lookup_insert_eq. done.
      * rewrite dirs_exist_unfold, own_prop_insert.
        rewrite Hd, andb_true_r.
        apply is_dir_intro with items'; [by rewrite Hj, lookup_insert_eq|].
        by apply items_after_add_index.
Qed.

(** When the directories are there the loop of [remove] runs to its
    end and leaves nothing under the file name. *)
Lemma remove_walk_dirs file pathParts m :
  pathParts ≠ [] →
  JSON_ITEMS ∉ pathParts →
  dirs_exist pathParts (VObj m) = true →
  ∃ m',
    remove_walk file pathParts (VObj m) = (VObj m', Normal)
    ∧ m' !! JSON_ITEMS = m !! JSON_ITEMS
    ∧ walk pathParts (VObj m') = VUndef
    ∧ dirs_exist pathParts (VObj m') = true.
Proof.
  revert m. induction pathParts as [|part rest IH]; [done|].
  intros m _ Hn Hc.
  apply not_elem_of_cons in Hn as [Hp Hn].
  destruct rest as [|next rest].
  - exists (delete part m). split; [done|].
    split; [by apply lookup_delete_ne|].
    split; [|done]. rewrite walk_cons_obj, lookup_delete_eq. done.
  - rewrite dirs_exist_unfold in Hc. apply andb_prop in Hc as [Hd Hc].
    destruct (is_dir_inv _ Hd) as (cm & items & Hcm & Hitems & Hi).
    rewrite Hcm in Hc. rewrite own_prop_obj in Hcm.
    destruct (m !! part) as [x|] eqn:Hx; [|done]. simpl in Hcm. subst x.
    rewrite (remove_walk_round _ _ _ _ _ _ _ _ Hx Hitems Hi).
    set (items' := items_remove (variant_of file) file items).
    destruct (IH (<[JSON_ITEMS:=items']> cm)) as (cm' & -> & Hj & Hw & Hd').
    + done.
    + done.
    + by rewrite dirs_exist_frame.
    + exists (<[part:=VObj cm']> m). split; [done|].
      split; [by apply lookup_insert_ne|].
      split.
      * rewrite walk_cons_obj, lookup_insert_eq. done.
      * rewrite dirs_exist_unfold, own_prop_insert.
        rewrite Hd', andb_true_r.
        apply is_dir_intro with items'; [by rewrite Hj, lookup_insert_eq|].
        by apply items_remove_index.
Qed.

(** [add] on a tree whose root is a directory node and whose path is
    clear. *)
Lemma add_tree_clear file jsonFileContents doc pathParts root :
  pathParts ≠ [] →
  JSON_ITEMS ∉ pathParts →
  is_dir root = true →
  path_clear pathParts root = true →
  ∃ m',
    add_tree file jsonFileContents doc pathParts root = (VObj m', Normal)
    ∧ is_dir (VObj m') = true
    ∧ walk pathParts (VObj m') = doc
    ∧ dirs_exist pathParts (VObj m') = true.
Proof.
  intros Hne Hn (m & items & -> & Hm & Hi)%is_dir_inv Hc.
  destruct (add_walk_clear file jsonFileContents doc _ _ Hne Hn Hc)
    as (m' & Hw & Hj & Hdoc & Hd).
  unfold Store.add_tree. rewrite Hw. cbn [is_normal].
  rewrite Hm in Hj.
  rewrite (addFileToJsonItems_node _ _ _ _ _ Hj Hi).
  eexists. split; [reflexivity|].
  split; [|split].
  - eapply is_dir_intro; [apply lookup_insert_eq|]. by apply items_after_add_index.
  - by rewrite walk_frame.
  - by rewrite dirs_exist_frame.
Qed.

Lemma remove_tree_dirs file pathParts root :
  pathParts ≠ [] →
  JSON_ITEMS ∉ pathParts →
  is_dir root = true →
  dirs_exist pathParts root = true →
  ∃ m',
    remove_tree file pathParts root = (VObj m', Normal)
    ∧ is_dir (VObj m') = true
    ∧ walk pathParts (VObj m') = VUndef
    ∧ dirs_exist pathParts (VObj m') = true.
Proof.
  intros Hne Hn (m & items & -> & Hm & Hi)%is_dir_inv Hc.
  destruct (remove_walk_dirs file _ _ Hne Hn Hc) as (m' & Hw & Hj & Hdoc & Hd).
  unfold Store.remove_tree. rewrite Hw. cbn [is_normal].
  rewrite Hm in Hj.
  rewrite (removeFileFromJsonItems_dir _ _ _ _ Hj Hi).
  eexists. split; [reflexivity|].
  split; [|split].
  - eapply is_dir_intro; [apply lookup_insert_eq|]. by apply items_remove_index.
  - by rewrite walk_frame.
  - by rewrite dirs_exist_frame.
Qed.

End Trees.

Section Operations.
Variable getVariantName : string → option string.
Variable getFileContents : string → FileContents.
Variable path_join : string → string → string.
Variable postProcessor : option PostProcessor.

#[local] Abbreviation add := (add getVariantName getFileContents path_join postProcessor).
#[local] Abbreviation remove := (remove getVariantName postProcessor).
#[local] Abbreviation update := (update getVariantName getFileContents path_join postProcessor).
#[local] Abbreviation fetch := (fetch getFileContents path_join postProcessor).
#[local] Abbreviation add_tree := (add_tree getVariantName).
#[local] Abbreviation remove_tree := (remove_tree getVariantName).
#[local] Abbreviation tag_cached := (tag_cached path_join postProcessor).
#[local] Abbreviation plain_file := (plain_file getVariantName).

Lemma accepts_inv file :
  accepts file = true →
  String.eqb file "" = false ∧ includes (split_on "/" file) JSON_ITEMS = false.
Proof.
  unfold accepts. intros [H1 H2]%andb_prop.
  by apply negb_true_iff in H1, H2.
Qed.

Lemma fetch_store dataDir file options w :
  data (fetch dataDir file options w).1 = data w
  ∧ stage (fetch dataDir file options w).1 = stage w
  ∧ trace (fetch dataDir file options w).1 = trace w.
Proof. unfold Store.fetch. cbn [fst]. by destruct (negb (useCache options) || _). Qed.

(** Writing the file name to the cached document leaves the trees and
    the trace alone. *)
Lemma tag_cached_store dataDir file rootLeaf w :
  data (tag_cached dataDir file rootLeaf w) = data w
  ∧ stage (tag_cached dataDir file rootLeaf w) = stage w
  ∧ trace (tag_cached dataDir file rootLeaf w) = trace w.
Proof.
  unfold Store.tag_cached. destruct (processes postProcessor || nullish rootLeaf); [done|].
  by destruct (Cache.get _ _ _).
Qed.

(** What [add] does to the world when it accepts the file. *)
Lemma add_accepted dataDir file options w :
  accepts file = true →
  add dataDir file options w
  = let '(w1, contents) := fetch dataDir file options w in
    let rootLeaf := if useStage options then stage w1 else data w1 in
    let '(root', c) :=
      add_tree file (json contents) (stored file contents) (split_on "/" file) rootLeaf in
    let w2 := if useStage options then with_stage w1 root' else with_data w1 root' in
    let w3 := tag_cached dataDir file rootLeaf w2 in
    if is_normal c then
      match postProcessor with
      | Some pp =>
          if storeAdd pp
          then (emit w3 (StoreAddHook dataDir file (raw contents)
                           (tag file (json contents))), Normal)
          else (w3, Normal)
      | None => (w3, Normal)
      end
    else (w3, c).
Proof.
  intros [H1 H2]%accepts_inv. unfold Store.add, meetsPathRequirements.
  by rewrite H1, H2.
Qed.

(** The tree [add] leaves, whether the [storeAdd] hook ran or not. *)
Lemma add_data dataDir file options w :
  accepts file = true →
  useStage options = false →
  data (add dataDir file options w).1
  = (add_tree file (json (fetch dataDir file options w).2)
       (stored file (fetch dataDir file options w).2)
       (split_on "/" file) (data w)).1
  ∧ (add dataDir file options w).2
    = (add_tree file (json (fetch dataDir file options w).2)
         (stored file (fetch dataDir file options w).2)
         (split_on "/" file) (data w)).2.
Proof.
  intros Ha Hs. rewrite add_accepted by done.
  destruct (fetch_store dataDir file options w) as (Hfd & _ & _).
  destruct (fetch dataDir file options w) as [w1 contents]. cbn [fst snd] in *.
  rewrite Hs, Hfd. cbv zeta.
  destruct (Store.add_tree _ _ _ _ _ _) as [root' c]. cbn [fst snd].
  pose proof (tag_cached_store dataDir file (data w) (with_data w1 root')) as (Hd & _).
  cbn [data with_data] in Hd.
  destruct c; cbn [is_normal]; [|done..].
  destruct postProcessor as [pp|]; [destruct (storeAdd pp)|]; done.
Qed.

(** The cache [add] leaves: the entry it worked on carries the file
    name. *)
Lemma add_cache dataDir file options w :
  accepts file = true →
  cache (add dataDir file options w).1
  = let w1 := (fetch dataDir file options w).1 in
    if processes postProcessor || nullish (if useStage options then stage w else data w)
    then cache w1
    else
      match Cache.get "file" (path_join dataDir file) (cache w1) with
      | Some c =>
          Cache.set "file" (path_join dataDir file)
            {| raw := raw c; json := tag file (json c) |} (cache w1)
      | None => cache w1
      end.
Proof.
  intros Ha. rewrite add_accepted by done.
  destruct (fetch_store dataDir file options w) as (Hfd & Hfs & _).
  destruct (fetch dataDir file options w) as [w1 contents]. cbn [fst snd] in *.
  rewrite Hfd, Hfs. cbv zeta.
  destruct (Store.add_tree _ _ _ _ _ _) as [root' c].
  set (rootLeaf := if useStage options then stage w else data w).
  set (w2 := if useStage options then with_stage w1 root' else with_data w1 root').
  assert (cache w2 = cache w1) as Hc by (subst w2; by destruct (useStage options)).
  assert (cache (tag_cached dataDir file rootLeaf w2)
          = if processes postProcessor || nullish rootLeaf then cache w1
            else match Cache.get "file" (path_join dataDir file) (cache w1) with
                 | Some c =>
                     Cache.set "file" (path_join dataDir file)
                       {| raw := raw c; json := tag file (json c) |} (cache w1)
                 | None => cache w1
                 end) as Ht.
  { unfold Store.tag_cached. destruct (processes postProcessor || nullish rootLeaf); [done|].
    rewrite Hc. by destruct (Cache.get _ _ _). }
  destruct (is_normal c); [|done].
  destruct postProcessor as [pp|]; [destruct (storeAdd pp)|]; done.
Qed.

(** [add] on the live tree, along a clear path. *)
Lemma add_live_clear dataDir file options w :
  useStage options = false →
  accepts file = true →
  is_dir (data w) = true →
  path_clear (split_on "/" file) (data w) = true →
  (add dataDir file options w).2 = Normal
  ∧ get file (add dataDir file options w).1
    = stored file (fetch dataDir file options w).2
  ∧ is_dir (data (add dataDir file options w).1) = true
  ∧ dirs_exist (split_on "/" file) (data (add dataDir file options w).1) = true.
Proof.
  intros Hs Ha Hd Hc.
  destruct (add_data dataDir file options w Ha Hs) as [Hdata Hcompl].
  unfold get. rewrite Hdata, Hcompl.
  apply accepts_inv in Ha as [_ Hn%includes_false].
  destruct (add_tree_clear getVariantName file (json (fetch dataDir file options w).2)
              (stored file (fetch dataDir file options w).2)
              _ _ (split_on_not_nil _ _) Hn Hd Hc) as (m' & -> & Hd' & Hw & He).
  done.
Qed.

(** [remove] when the directories of the file are there. *)
Lemma remove_dirs file w :
  accepts file = true →
  is_dir (data w) = true →
  dirs_exist (split_on "/" file) (data w) = true →
  (remove file w).2 = Normal
  ∧ get file (remove file w).1 = VUndef
  ∧ is_dir (data (remove file w).1) = true
  ∧ dirs_exist (split_on "/" file) (data (remove file w).1) = true
  ∧ cache (remove file w).1 = cache w.
Proof.
  intros Ha Hd Hc. unfold Store.remove.
  apply accepts_inv in Ha as [_ Hn%includes_false].
  destruct (remove_tree_dirs getVariantName file _ _ (split_on_not_nil _ _) Hn Hd Hc)
    as (m' & -> & Hd' & Hw & He).
  cbn [is_normal]. unfold get.
  destruct postProcessor as [pp|]; [destruct (storeRemove pp)|]; done.
Qed.

Lemma cache_get_set {V : Type} bin key (value : V) cached :
  Cache.get bin key (Cache.set bin key value cached) = Some value.
Proof.
  unfold Cache.get, Cache.set. destruct (cached !! bin) as [items|] eqn:E.
  - rewrite E. rewrite lookup_insert_eq. apply lookup_insert_eq.
  - rewrite lookup_insert_eq. rewrite lookup_insert_eq. apply lookup_insert_eq.
Qed.

Lemma fetch_fresh dataDir file w :
  (fetch dataDir file no_options w).2
  = Ledger.read getFileContents path_join postProcessor dataDir file.
Proof.
  unfold Store.fetch, Ledger.read. cbn [useCache no_options negb orb snd].
  unfold with_cache. cbn [cache]. by rewrite cache_get_set.
Qed.

(** C1, as amended.  Take a file that [add] accepts, no segment of
    whose path, nor the name of its variant, is a name every object
    inherits.  When [add] ingests it into the live tree along a path
    on which every directory is absent or a directory node, and caches
    it under a path that is no such name either, the file is what
    [get] returns right after the call, which returns normally; its
    directories are then in place.  Whenever the directories of the
    file are in place, as they are after that [add], [get] returns
    [undefined] right after [remove]. *)
Theorem get_after_add_and_remove file :
  accepts file = true →
  plain_file file = true →
  (∀ dataDir options w,
     useStage options = false →
     Names.plain_name (path_join dataDir file) = true →
     is_dir (data w) = true →
     path_clear (split_on "/" file) (data w) = true →
     (add dataDir file options w).2 = Normal
     ∧ get file (add dataDir file options w).1
       = stored file (fetch dataDir file options w).2
     ∧ is_dir (data (add dataDir file options w).1) = true
     ∧ dirs_exist (split_on "/" file) (data (add dataDir file options w).1) = true)
  ∧ (∀ w,
       is_dir (data w) = true →
       dirs_exist (split_on "/" file) (data w) = true →
       (remove file w).2 = Normal ∧ get file (remove file w).1 = VUndef).
Proof.
  intros Ha _. split.
  - intros dataDir options w Hs _ Hd Hc. by apply add_live_clear.
  - intros w Hd He. destruct (remove_dirs file w Ha Hd He) as (H1 & H2 & _). done.
Qed.

(** C5.  [promoteStage] puts the staging tree, index included, in the
    place of the live tree and leaves the empty skeleton in staging. *)
Theorem promoteStage_swaps w :
  data (promoteStage w) = stage w
  ∧ stage (promoteStage w) = storeDataSkeleton
  ∧ storeDataSkeleton = VObj {[ JSON_ITEMS := index_value [] ∅ ]}.
Proof. done. Qed.

(** A file [add] does not accept leaves tree and cache alone. *)
Lemma add_skips dataDir file options w :
  accepts file = false →
  data (add dataDir file options w).1 = data w
  ∧ cache (add dataDir file options w).1 = cache w.
Proof.
  unfold accepts, Store.add, meetsPathRequirements.
  destruct (String.eqb file ""); [done|].
  by destruct (includes (split_on "/" file) JSON_ITEMS).
Qed.

(** C6.  A call of [add] with an empty file name, or with a name that
    has the reserved segment, returns normally and leaves both trees
    and the cache as they were; for the reserved segment the log gets
    one warning, and nothing reaches the log otherwise. *)
Theorem add_refused dataDir file options w :
  file = "" ∨ includes (split_on "/" file) JSON_ITEMS = true →
  (add dataDir file options w).2 = Normal
  ∧ data (add dataDir file options w).1 = data w
  ∧ stage (add dataDir file options w).1 = stage w
  ∧ cache (add dataDir file options w).1 = cache w
  ∧ trace (add dataDir file options w).1
    = if String.eqb file "" then trace w
      else (trace w ++ [LogWarn (skip_message (split_on "/" file))])%list.
Proof.
  intros H. unfold Store.add.
  destruct (String.eqb file "") eqn:E; [done|].
  destruct H as [->|H]; [done|].
  unfold meetsPathRequirements. by rewrite H.
Qed.


End Operations.

Section Examples.

#[local] Abbreviation demo_fetch :=
  (fetch Demo.getFileContents Demo.path_join None).

Lemma get_after_add_and_remove_witness :
  (Demo.add "data" Demo.article no_options initial).2 = Normal
  ∧ get Demo.article (Demo.add "data" Demo.article no_options initial).1
    = stored Demo.article (demo_fetch "data" Demo.article no_options initial).2
  ∧ get Demo.article (Demo.remove Demo.article Demo.two_files).1 = VUndef.
Proof.
  destruct (get_after_add_and_remove Demo.getVariantName Demo.getFileContents
              Demo.path_join None Demo.article) as [Ha Hb].
  - reflexivity.
  - reflexivity.
  - destruct (Ha "data" no_options initial) as (H1 & H2 & _).
    + reflexivity.
    + reflexivity.
    + vm_compute; reflexivity.
    + vm_compute; reflexivity.
    + destruct (Hb Demo.two_files) as [_ H3].
      * vm_compute; reflexivity.
      * vm_compute; reflexivity.
      * exact (conj H1 (conj H2 H3)).
Defined.

(** C1 as stated fails: with the text file [notes] in the store, [add]
    of [notes/b] returns normally, the assignment to a property of the
    string is dropped, and [get] finds nothing. *)
Lemma add_under_text_file :
  ¬ (∀ dataDir file w,
       accepts file = true →
       (Demo.add dataDir file no_options w).2 = Normal →
       get file (Demo.add dataDir file no_options w).1
       = stored file (demo_fetch dataDir file no_options w).2).
Proof.
  intros H. specialize (H "data" "notes/b" Demo.one_text eq_refl eq_refl).
  vm_compute in H. discriminate H.
Qed.

(** C3, the code at a failing input.  No directory [fr] is in the
    store.  [remove] of [fr/article/1.json] returns normally and takes
    the article [en/article/1.json], which is still in the tree, out of
    the root's [main]; [remove] of [fr/en/article/1.json] deletes that
    article from the tree. *)
Lemma remove_under_missing_directory :
  walk ["fr"] (data Demo.two_files) = VUndef
  ∧ (Demo.remove "fr/article/1.json" Demo.two_files).2 = Normal
  ∧ own_prop (own_prop (data Demo.two_files) JSON_ITEMS) MAIN
    = VArr [stored Demo.article (Demo.getFileContents "data/en/article/1.json")] ∅
  ∧ own_prop (own_prop (data (Demo.remove "fr/article/1.json" Demo.two_files).1)
                JSON_ITEMS) MAIN
    = VArr [] ∅
  ∧ get Demo.article (Demo.remove "fr/article/1.json" Demo.two_files).1
    = stored Demo.article (Demo.getFileContents "data/en/article/1.json")
  ∧ get Demo.article (Demo.remove "fr/en/article/1.json" Demo.two_files).1 = VUndef.
Proof. by vm_compute. Qed.

Lemma add_refused_witness :
  data (Demo.add "data" "en/_json/40000/41234.json" no_options Demo.two_files).1
  = data Demo.two_files
  ∧ trace (Demo.add "data" "en/_json/40000/41234.json" no_options Demo.two_files).1
    = [LogWarn (skip_message ["en"; "_json"; "40000"; "41234.json"])].
Proof.
  destruct (add_refused Demo.getVariantName Demo.getFileContents Demo.path_join None
              "data" "en/_json/40000/41234.json" no_options Demo.two_files)
    as (_ & Hd & _ & _ & Ht).
  - right. reflexivity.
  - split; [exact Hd|]. exact (eq_trans Ht eq_refl).
Defined.


End Examples.

End StoreFacts.

(** ** The module handler *)

Module ModuleHandlerFacts.
Import ModuleHandler.

Section Registry.
Context {Handle : Type}.
Variable handle_truthy : Handle → bool.
Variable require : string → option Handle.

#[local] Abbreviation load := (load handle_truthy require).
#[local] Abbreviation get := (get handle_truthy require).
#[local] Abbreviation usable := (usable handle_truthy).

Lemma load_entry modulePath r :
  modules (load modulePath r).1 !! modulePath = require modulePath.
Proof.
  unfold ModuleHandler.load. destruct (require modulePath) as [h|]; cbn.
  - destruct (handle_truthy h); cbn; apply lookup_insert_eq.
  - apply lookup_delete_eq.
Qed.

Lemma load_failed modulePath r :
  failed (load modulePath r).2 = true ↔
  match require modulePath with
  | Some h => handle_truthy h = false
  | None => True
  end.
Proof.
  unfold ModuleHandler.load. destruct (require modulePath) as [h|]; cbn; [|done].
  destruct (handle_truthy h); cbn; split; done.
Qed.

(** C9, as amended.  For a module path that is not a name every object
    inherits, [get] hands out the cached handle when the registry
    holds a truthy one for the path and performs [load] otherwise.  The
    entry [load] leaves is what [require] has just yielded, never the
    handle held before: when [load] fails, either [require] threw and
    the path has no entry, or the module yielded a falsy value and the
    entry holds that value, which [get] does not hand out. *)
Theorem get_cached_or_load modulePath r :
  Names.plain_name modulePath = true →
  (∀ h, modules r !! modulePath = Some h → handle_truthy h = true →
        get modulePath r = (r, Returned h))
  ∧ (usable modulePath r = false → get modulePath r = load modulePath r)
  ∧ (failed (load modulePath r).2 = true →
     usable modulePath (load modulePath r).1 = false
     ∧ ((require modulePath = None
         ∧ modules (load modulePath r).1 !! modulePath = None)
        ∨ (∃ h, require modulePath = Some h ∧ handle_truthy h = false
                ∧ modules (load modulePath r).1 !! modulePath = Some h))).
Proof.
  intros _. split; [|split].
  - intros h Hm Ht. unfold ModuleHandler.get. by rewrite Hm, Ht.
  - unfold ModuleHandler.usable, ModuleHandler.get.
    destruct (modules r !! modulePath) as [h|]; [|done]. by intros ->.
  - intros Hf%load_failed. unfold ModuleHandler.usable.
    rewrite load_entry. destruct (require modulePath) as [h|]; [|by auto].
    split; [done|]. right. by exists h.
Qed.

End Registry.

(** A module whose export is falsy: [module.exports = false]. *)
Lemma get_cached_or_load_witness :
  get id (λ _, Some false) "hooks.js"
    {| modules := {[ "hooks.js" := true ]}; debug_log := [] |}
  = ({| modules := {[ "hooks.js" := true ]}; debug_log := [] |}, Returned true)
  ∧ modules (load id (λ _, Some false) "hooks.js"
               {| modules := {[ "hooks.js" := true ]}; debug_log := [] |}).1
    !! "hooks.js" = Some false.
Proof.
  destruct (get_cached_or_load id (λ _, Some false) "hooks.js"
              {| modules := {[ "hooks.js" := true ]}; debug_log := [] |} eq_refl)
    as (Hget & _ & Hload).
  split.
  - apply Hget; reflexivity.
  - destruct Hload as [_ [[Hn _]|(h & Hr & Ht & Hm)]].
    + reflexivity.
    + discriminate Hn.
    + injection Hr as <-. exact Hm.
Defined.

(** C9 as stated fails: when the module yields a falsy value, [load]
    fails and the registry holds an entry for the path. *)
Lemma load_failed_keeps_entry :
  ¬ (∀ (require : string → option bool) modulePath r,
       failed (load id require modulePath r).2 = true →
       modules (load id require modulePath r).1 !! modulePath = None).
Proof.
  intros H.
  specialize (H (λ _, Some false) "hooks.js"
                {| modules := ∅; debug_log := [] |} eq_refl).
  vm_compute in H. discriminate H.
Qed.

End ModuleHandlerFacts.

(** ** The include parser *)

Module IncludeParserFacts.
Import JS IncludeParser.

Lemma endsWith_same_length s a b :
  String.length a = String.length b →
  endsWith s a = true → endsWith s b = true → a = b.
Proof.
  unfold endsWith. intros Hl [_ Ha]%andb_prop [_ Hb]%andb_prop.
  apply String.eqb_eq in Ha, Hb. rewrite Hl in Ha. congruence.
Qed.

Lemma length_append (a b : string) :
  String.length (a ++ b) = (String.length a + String.length b)%nat.
Proof. induction a as [|c a IH]; simpl; [done|]. by rewrite IH. Qed.

Lemma substring_append_r (a b : string) i k :
  String.substring (String.length a + i) k (a ++ b) = String.substring i k b.
Proof. induction a as [|c a IH]; simpl; done. Qed.

Lemma endsWith_append a b suffix :
  endsWith b suffix = true → endsWith (a ++ b) suffix = true.
Proof.
  unfold endsWith. intros [Hk He]%andb_prop. apply Nat.leb_le in Hk.
  rewrite length_append. apply andb_true_intro. split.
  - apply Nat.leb_le. lia.
  - replace (String.length a + String.length b - String.length suffix)%nat
      with (String.length a + (String.length b - String.length suffix))%nat by lia.
    by rewrite substring_append_r.
Qed.

Lemma toLowerCase_append a b :
  toLowerCase (a ++ b) = (toLowerCase a ++ toLowerCase b)%string.
Proof. induction a as [|c a IH]; simpl; [done|]. by rewrite IH. Qed.

Lemma join_split_on sep s :
  join (String sep EmptyString) (split_on sep s) = s.
Proof.
  induction s as [|c s IH]; [done|]. simpl.
  destruct (JSFacts.split_on_cons sep s) as (x & r & E). rewrite E in *.
  destruct (Ascii.eqb_spec c sep) as [->|Hne].
  - change (join (String sep "") ("" :: x :: r))
      with (String sep (join (String sep "") (x :: r))).
    by rewrite IH.
  - destruct r as [|y r]; simpl in *; by rewrite <- IH.
Qed.

Lemma append_assoc (a b c : string) : ((a ++ b) ++ c = a ++ (b ++ c))%string.
Proof.
  induction a as [|x a IH]; [done|].
  change (String x ((a ++ b) ++ c) = String x (a ++ (b ++ c)))%string.
  by rewrite IH.
Qed.

Lemma join_last sep l key :
  last l = Some key → ∃ front, join sep l = (front ++ key)%string.
Proof.
  induction l as [|x l IH]; [done|].
  destruct l as [|y l].
  - intros [= <-]. by exists "".
  - rewrite last_cons_cons. intros H. destruct (IH H) as [front Hf].
    exists (x ++ sep ++ front)%string.
    change (join sep (x :: y :: l)) with (x ++ sep ++ join sep (y :: l))%string.
    rewrite Hf. by rewrite !append_assoc.
Qed.

(** The last piece of a split is the tail of the string. *)
Lemma split_on_last sep s key :
  last (split_on sep s) = Some key → ∃ front, s = (front ++ key)%string.
Proof.
  intros H. destruct (join_last (String sep EmptyString) _ _ H) as [front Hf].
  exists front. by rewrite <- Hf, join_split_on.
Qed.

Lemma endsWith_length s suffix :
  endsWith s suffix = true → (String.length suffix <= String.length s)%nat.
Proof. unfold endsWith. intros [H _]%andb_prop. by apply Nat.leb_le. Qed.

Lemma toLowerCase_length s : String.length (toLowerCase s) = String.length s.
Proof. induction s as [|c s IH]; simpl; [done|]. by rewrite IH. Qed.

(** A test on the last segment of a path is a test on the path. *)
Lemma endsWith_last_segment includePath key suffix :
  last (split_on "." includePath) = Some key →
  endsWith (toLowerCase key) suffix = true →
  endsWith (toLowerCase includePath) suffix = true.
Proof.
  intros [front ->]%split_on_last H.
  rewrite toLowerCase_append. by apply endsWith_append.
Qed.

Lemma fold_assign_lookup params (ks : list string) (m : gmap string value) key :
  key ≠ "__proto__" →
  fold_left (assign_param params) ks m !! key
  = if decide (key ∈ ks) then Some (param_entry key params) else m !! key.
Proof.
  intros Hkey. revert m. induction ks as [|k ks IH]; intros m; cbn [fold_left].
  - destruct (decide (key ∈ [])) as [H|]; [by apply elem_of_nil in H|done].
  - rewrite IH. unfold assign_param.
    destruct (decide (key ∈ ks)) as [Hin|Hnin];
      destruct (decide (key ∈ k :: ks)) as [Hin'|Hnin']; try done.
    + exfalso. apply Hnin'. by apply elem_of_cons; right.
    + apply elem_of_cons in Hin' as [->|?]; [|done].
      destruct (String.eqb_spec k "__proto__") as [->|_]; [done|].
      by rewrite lookup_insert_eq.
    + destruct (String.eqb k "__proto__"); [done|].
      rewrite lookup_insert_ne; [done|]. intros ->. apply Hnin'. apply list_elem_of_here.
Qed.

Lemma fold_assign_proto params (ks : list string) (m : gmap string value) :
  fold_left (assign_param params) ks m !! "__proto__" = m !! "__proto__".
Proof.
  revert m. induction ks as [|k ks IH]; intros m; cbn [fold_left]; [done|].
  rewrite IH. unfold assign_param.
  destruct (String.eqb_spec k "__proto__") as [->|Hne]; [done|].
  by rewrite lookup_insert_ne.
Qed.

Lemma getAll_nil key params : getAll key params = [] ↔ key ∉ keys params.
Proof.
  unfold getAll, keys. induction params as [|[k v] params IH]; simpl.
  - split; [intros _; apply not_elem_of_nil|done].
  - rewrite filter_cons. simpl. rewrite not_elem_of_cons.
    destruct (decide (k = key)) as [->|Hne]; simpl.
    + split; [done|]. by intros [? _].
    + rewrite IH. split; [by split|by intros [_ ?]].
Qed.

(** The own properties [parseParams] leaves, when the name [__proto__]
    occurs at most once: none under [__proto__]; under any other name
    none when the name does not occur, the value when it occurs once,
    the sequence of its values when it occurs more often. *)
Lemma parseParams_entry queryString :
  (length (getAll "__proto__" (URLSearchParams queryString)) ≤ 1)%nat →
  ∃ obj,
    parseParams queryString = Some (VObj obj)
    ∧ obj !! "__proto__" = None
    ∧ ∀ key, key ≠ "__proto__" →
        obj !! key
        = match getAll key (URLSearchParams queryString) with
          | [] => None
          | [v] => Some (VStr v)
          | vs => Some (VArr (map VStr vs) ∅)
          end.
Proof.
  intros Hp. unfold parseParams.
  destruct (Nat.ltb_spec 1 (length (getAll "__proto__" (URLSearchParams queryString))))
    as [Hlt|_]; [lia|].
  eexists. split; [reflexivity|]. split; [by rewrite fold_assign_proto|].
  intros key Hkey. rewrite fold_assign_lookup by done.
  destruct (getAll key (URLSearchParams queryString)) as [|v vs] eqn:E.
  - apply getAll_nil in E. by rewrite decide_False.
  - rewrite decide_True.
    + unfold param_entry, get_first. rewrite E. by destruct vs.
    + destruct (decide (key ∈ keys (URLSearchParams queryString))) as [|Hn]; [done|].
      apply getAll_nil in Hn. by rewrite Hn in E.
Qed.

Section Passes.
Variable store_get : value → value.
Variable getObjectValue : value → string → value.
Variable queryRunner_run : string → value → value.
Variable configIncludeParser : value → value → list string → string → value.
Variable entityIncludeParser : value → value → list string → string → value.
Variable customIncludeParser : value → value → list string → string → value.
Variable localeIncludeParser : value → value → list string → string → value.
Variable aliasWithoutTypeIncludeParser :
  value → value → list string → string → string → value.

#[local] Abbreviation static_step :=
  (static_step store_get getObjectValue configIncludeParser entityIncludeParser
     customIncludeParser localeIncludeParser).
#[local] Abbreviation dynamic_step :=
  (dynamic_step getObjectValue queryRunner_run aliasWithoutTypeIncludeParser).

Lemma suffixes_exclusive key s1 s2 :
  s1 ∈ static_suffixes → s2 ∈ static_suffixes →
  endsWith key s1 = true → endsWith key s2 = true → s1 = s2.
Proof.
  intros H1 H2. apply endsWith_same_length.
  unfold static_suffixes in *.
  repeat (apply elem_of_cons in H1 as [->|H1]);
    repeat (apply elem_of_cons in H2 as [->|H2]);
    try done; by apply elem_of_nil in H1 || by apply elem_of_nil in H2.
Qed.

Ltac two_suffixes Ha Hb :=
  exfalso;
  let E := fresh in
  pose proof (λ Hl, endsWith_same_length _ _ _ Hl Ha Hb) as E;
  specialize (E eq_refl); discriminate E.

Ltac no_call := exists []; split; [by rewrite app_nil_r|simpl; lia].
Ltac one_call := eexists [_]; split; [reflexivity|simpl; lia].

(** C10.  The four suffix tests of the static pass exclude one another,
    so one reference makes the pass call at most one mounting strategy;
    when the last segment of the reference ends in none of the four
    suffixes no strategy is called and the document is as it was. *)
Theorem static_step_one_strategy includePath st :
  let key := toLowerCase (default EmptyString (last (split_on "." includePath))) in
  (∀ s1 s2, s1 ∈ static_suffixes → s2 ∈ static_suffixes →
            endsWith key s1 = true → endsWith key s2 = true → s1 = s2)
  ∧ (∃ calls, (static_step includePath st).2 = (st.2 ++ calls)%list
              ∧ (length calls ≤ 1)%nat)
  ∧ ((∀ s, s ∈ static_suffixes → endsWith key s = false) →
     static_step includePath st = st).
Proof.
  intros key. split; [apply suffixes_exclusive|].
  unfold IncludeParser.static_step, pop, static_if. subst key.
  destruct (last (split_on "." includePath)) as [k|]; cbv beta iota zeta;
    [|split; [no_call|done]].
  change (default EmptyString (Some k)) with k.
  destruct (truthy (VStr k)); [|split; [no_call|done]].
  destruct (endsWith (toLowerCase k) "configinclude") eqn:E1;
    destruct (endsWith (toLowerCase k) "entityinclude") eqn:E2;
    destruct (endsWith (toLowerCase k) "custominclude") eqn:E3;
    destruct (endsWith (toLowerCase k) "localeinclude") eqn:E4;
    try (two_suffixes E1 E2); try (two_suffixes E1 E3); try (two_suffixes E1 E4);
    try (two_suffixes E2 E3); try (two_suffixes E2 E4); try (two_suffixes E3 E4);
    cbn [fst snd].
  - split; [one_call|]. intros H.
    specialize (H "configinclude"). rewrite H in E1; [done|].
    unfold static_suffixes. by apply list_elem_of_here.
  - split; [one_call|]. intros H.
    specialize (H "entityinclude"). rewrite H in E2; [done|].
    unfold static_suffixes. apply elem_of_cons; right. by apply list_elem_of_here.
  - split; [one_call|]. intros H.
    specialize (H "custominclude"). rewrite H in E3; [done|].
    unfold static_suffixes. do 2 (apply elem_of_cons; right). by apply list_elem_of_here.
  - split; [one_call|]. intros H.
    specialize (H "localeinclude"). rewrite H in E4; [done|].
    unfold static_suffixes. do 3 (apply elem_of_cons; right). by apply list_elem_of_here.
  - split; [no_call|by destruct st].
Qed.

(** The dynamic pass on one reference whose last segment ends,
    whatever the case, in [queryinclude] and whose value in the
    document is a string with parameters that decode. *)
Lemma dynamic_step_reference includePath key reference queryId pieces queryArgs st :
  last (split_on "." includePath) = Some key →
  endsWith (toLowerCase key) "queryinclude" = true →
  getObjectValue st.1 includePath = VStr reference →
  split_on "?" reference = queryId :: pieces →
  match pieces with
  | q :: _ => if String.eqb q "" then Some (VObj ∅) else parseParams q
  | [] => Some (VObj ∅)
  end = Some queryArgs →
  let includeData := queryRunner_run queryId queryArgs in
  let mountPointPath := removelast (split_on "." includePath) in
  dynamic_step includePath st
  = (aliasWithoutTypeIncludeParser st.1 includeData mountPointPath key "query",
     (st.2 ++ [QueryRun queryId queryArgs;
               Mount (AliasWithoutType "query") includeData mountPointPath key])%list,
     Normal).
Proof.
  intros Hlast Hend Hval Hsplit Hargs includeData mountPointPath.
  unfold IncludeParser.dynamic_step, pop.
  rewrite (endsWith_last_segment _ _ _ Hlast Hend), Hval, Hsplit, Hlast.
  assert (truthy (VStr key) = true) as ->.
  { destruct key; [discriminate Hend|done]. }
  cbn [lookup list_lookup default fst snd].
  subst includeData mountPointPath.
  destruct pieces as [|q pieces]; cbn [lookup list_lookup].
  - injection Hargs as <-. by rewrite <- app_assoc.
  - cbn [truthy]. destruct (String.eqb q ""); cbn [negb].
    + injection Hargs as <-. by rewrite <- app_assoc.
    + rewrite Hargs. by rewrite <- app_assoc.
Qed.

End Passes.

(** C8.  The name [__proto__] is lost.  The reference
    [data.content.relatedQueryInclude] holds
    [relatedArticles?__proto__=x&tag=foo]: the parameter [__proto__]
    occurs once, with the value [x], and the query runner gets a
    mapping that has [tag] and nothing for [__proto__]. *)
Theorem proto_parameter_lost :
  getAll "__proto__" (URLSearchParams "__proto__=x&tag=foo") = ["x"]
  ∧ parseParams "__proto__=x&tag=foo" = Some (VObj {[ "tag" := VStr "foo" ]})
  ∧ (dynamic_step (λ _ _, VStr "relatedArticles?__proto__=x&tag=foo")
       (λ _ queryArgs, queryArgs) (λ fileContent _ _ _ _, fileContent)
       "data.content.relatedQueryInclude" (VObj ∅, [])).1.2
    = [QueryRun "relatedArticles" (VObj {[ "tag" := VStr "foo" ]});
       Mount (AliasWithoutType "query") (VObj {[ "tag" := VStr "foo" ]})
         ["data"; "content"] "relatedQueryInclude"].
Proof. split; [|split]; by vm_compute. Qed.

Lemma static_step_one_strategy_witness :
  static_step (λ v, v) (λ _ _, VStr "en/node/article/1.json")
    (λ fc _ _ _, fc) (λ fc _ _ _, fc) (λ fc _ _ _, fc) (λ fc _ _ _, fc)
    "data.content.author" (VObj ∅, [])
  = (VObj ∅, []).
Proof.
  apply (static_step_one_strategy (λ v, v) (λ _ _, VStr "en/node/article/1.json")
           (λ fc _ _ _, fc) (λ fc _ _ _, fc) (λ fc _ _ _, fc) (λ fc _ _ _, fc)
           "data.content.author" (VObj ∅, [])).
  intros s Hs. unfold static_suffixes in Hs.
  repeat (apply elem_of_cons in Hs as [->|Hs]; [reflexivity|]).
  by apply elem_of_nil in Hs.
Defined.

End IncludeParserFacts.

(** ** The ledger and the index *)

Module LedgerFacts.
Import JS Store Shape Ledger JSFacts StoreFacts.

Lemma findIndex_lower p xs : (-1 ≤ findIndex p xs)%Z.
Proof.
  induction xs as [|x xs IH]; simpl; [lia|].
  destruct (p x); [lia|]. destruct (Z.ltb_spec (findIndex p xs) 0); lia.
Qed.

Lemma findIndex_found p xs x :
  x ∈ xs → p x = true → (0 ≤ findIndex p xs)%Z.
Proof.
  induction xs as [|y xs IH]; [by intros ?%elem_of_nil|].
  intros [->|Hin]%elem_of_cons Hp; simpl.
  - by rewrite Hp.
  - destruct (p y); [lia|]. specialize (IH Hin Hp).
    destruct (Z.ltb_spec (findIndex p xs) 0); lia.
Qed.

Lemma splice_head x xs : splice 0 1 (x :: xs) = xs.
Proof. unfold splice. simpl. by rewrite drop_0. Qed.

Lemma splice_tail r x xs :
  (0 ≤ r)%Z → splice (r + 1) 1 (x :: xs) = x :: splice r 1 xs.
Proof.
  intros Hr. unfold splice.
  destruct (Z.ltb_spec (r + 1) 0) as [|_]; [lia|].
  destruct (Z.ltb_spec r 0) as [|_]; [lia|].
  cbn [length].
  replace (Z.to_nat (Z.min (r + 1) (Z.of_nat (S (length xs)))))
    with (S (Z.to_nat (Z.min r (Z.of_nat (length xs))))) by lia.
  done.
Qed.

Lemma filename_not_length : String.eqb FILENAME "length" = false.
Proof. by vm_compute. Qed.

Lemma filename_not_index : index_of_string FILENAME = None.
Proof. by vm_compute. Qed.

Lemma tag_filename file jsonFileContents other :
  match jsonFileContents with VObj _ | VArr _ _ => True | _ => False end →
  has_filename other (tag file jsonFileContents) = String.eqb file other.
Proof.
  destruct jsonFileContents as [| | | | |xs props|m]; try done; intros _.
  - unfold tag, has_filename, opt_prop, set_prop.
    rewrite filename_not_length, filename_not_index.
    cbn [fst nullish own_prop].
    rewrite filename_not_length, filename_not_index.
    by rewrite lookup_insert_eq.
  - unfold tag, has_filename, opt_prop, set_prop.
    cbn [fst nullish own_prop].
    by rewrite lookup_insert_eq.
Qed.

Lemma tag_truthy file jsonFileContents :
  truthy (tag file jsonFileContents) = truthy jsonFileContents.
Proof.
  destruct jsonFileContents as [| | | | |xs props|m]; done.
Qed.

(** The file name written last is the one that stays. *)
Lemma tag_tag file name jsonFileContents :
  tag file (tag name jsonFileContents) = tag file jsonFileContents.
Proof.
  destruct jsonFileContents as [| | | | |xs props|m]; try done.
  - unfold tag, set_prop. rewrite filename_not_length, filename_not_index.
    cbn [fst]. by rewrite insert_insert_eq.
  - unfold tag, set_prop. cbn [fst]. by rewrite insert_insert_eq.
Qed.

Lemma stored_defined file c : stored file c ≠ VUndef.
Proof.
  unfold stored, js_or. destruct (truthy (tag file (json c))) eqn:E; [|done].
  intros H. by rewrite H in E.
Qed.

Lemma structured_indexed c :
  structured c = true → indexed c = true →
  match json c with VObj _ | VArr _ _ => True | _ => False end.
Proof.
  unfold structured, indexed. destruct (json c); try done; intros H1 H2;
    rewrite H2 in H1; done.
Qed.

Section Expected.
Variable getVariantName : string → option string.

#[local] Abbreviation variant_of := (variant_of getVariantName).
#[local] Abbreviation counts := (counts getVariantName).
#[local] Abbreviation expected := (expected getVariantName).
#[local] Abbreviation expected_group := (expected_group getVariantName).

Lemma expected_snoc v level live e :
  expected v level (live ++ [e])%list
  = (expected v level live
     ++ (if counts v level e then [tag e.1 (json e.2)] else []))%list.
Proof.
  unfold Ledger.expected. rewrite omap_app. f_equal. simpl.
  by destruct (counts v level e).
Qed.

Lemma expected_elem v level live f c :
  (f, c) ∈ live → counts v level (f, c) = true →
  tag f (json c) ∈ expected v level live.
Proof.
  intros Hin Hc. unfold Ledger.expected. apply list_elem_of_omap.
  exists (f, c). split; [done|]. by rewrite Hc.
Qed.

Lemma filter_other_id (live : list (string * FileContents)) f :
  f ∉ live.*1 → filter (λ e, e.1 ≠ f) live = live.
Proof.
  induction live as [|e live IH]; [done|].
  rewrite fmap_cons, not_elem_of_cons. intros [Hne Hnin].
  rewrite filter_cons_True by done. by rewrite IH.
Qed.

(** Taking a file out of the ledger takes its document out of the
    expected documents the way [findIndex] and [splice] take it out of
    the array. *)
Lemma expected_splice v level live f c :
  NoDup live.*1 →
  (∀ e, e ∈ live → structured e.2 = true) →
  (f, c) ∈ live →
  counts v level (f, c) = true →
  splice_of f (expected v level live)
  = expected v level (filter (λ e, e.1 ≠ f) live).
Proof.
  intros Hnd Hst Hin Hc. induction live as [|e live IH]; [by apply elem_of_nil in Hin|].
  rewrite fmap_cons in Hnd. apply NoDup_cons in Hnd as [Hfresh Hnd].
  assert (∀ e', e' ∈ live → structured e'.2 = true) as Hst'.
  { intros e' He'. apply Hst. by apply elem_of_cons; right. }
  apply elem_of_cons in Hin as [<-|Hin].
  - rewrite filter_cons_False by (simpl; by intros H).
    rewrite filter_other_id by done.
    unfold Ledger.expected at 1. cbn [omap list_omap]. rewrite Hc.
    unfold splice_of. cbn [findIndex fst snd].
    rewrite tag_filename, String.eqb_refl; [apply splice_head|].
    apply structured_indexed; [apply (Hst (f, c)), list_elem_of_here|].
    unfold Ledger.counts in Hc. by apply andb_prop in Hc as [[? _]%andb_prop _].
  - assert (e.1 ≠ f) as Hne.
    { intros <-. apply Hfresh. apply list_elem_of_fmap. by exists (e.1, c). }
    rewrite filter_cons_True by done.
    unfold Ledger.expected. cbn [omap list_omap].
    fold (expected v level live). fold (expected v level (filter (λ e0, e0.1 ≠ f) live)).
    destruct (counts v level e) eqn:Hce; [|by apply IH].
    unfold splice_of. cbn [findIndex].
    rewrite tag_filename.
    2:{ apply structured_indexed; [apply Hst, list_elem_of_here|].
        unfold Ledger.counts in Hce. by apply andb_prop in Hce as [[? _]%andb_prop _]. }
    destruct (String.eqb_spec e.1 f) as [|_]; [done|].
    pose proof (findIndex_found (has_filename f) _ _ (expected_elem _ _ _ _ _ Hin Hc)) as Hf.
    rewrite tag_filename, String.eqb_refl in Hf.
    2:{ apply structured_indexed; [by apply (Hst' (f, c))|].
        unfold Ledger.counts in Hc. by apply andb_prop in Hc as [[? _]%andb_prop _]. }
    specialize (Hf eq_refl).
    destruct (Z.ltb_spec (findIndex (has_filename f) (expected v level live)) 0); [lia|].
    rewrite splice_tail by done. f_equal. by apply IH.
Qed.

(** The expected documents of another kind or level are as before. *)
Lemma expected_filter_other v level live f :
  (∀ e, e ∈ live → e.1 = f → counts v level e = false) →
  expected v level (filter (λ e, e.1 ≠ f) live) = expected v level live.
Proof.
  intros H. induction live as [|e live IH]; [done|].
  assert (∀ e', e' ∈ live → e'.1 = f → counts v level e' = false) as H'.
  { intros e' He'. apply H. by apply elem_of_cons; right. }
  destruct (decide (e.1 = f)) as [He|He].
  - rewrite filter_cons_False by (by intros ?).
    unfold Ledger.expected at 2. cbn [omap list_omap].
    rewrite (H e (list_elem_of_here _ _) He). by apply IH.
  - rewrite filter_cons_True by done.
    unfold Ledger.expected. cbn [omap list_omap].
    fold (expected v level live). fold (expected v level (filter (λ e0, e0.1 ≠ f) live)).
    by rewrite IH.
Qed.

End Expected.

Section Levels.
Variable getVariantName : string → option string.

#[local] Abbreviation variant_of := (variant_of getVariantName).
#[local] Abbreviation counts := (counts getVariantName).
#[local] Abbreviation expected := (expected getVariantName).
#[local] Abbreviation expected_group := (expected_group getVariantName).
#[local] Abbreviation same_variant := (same_variant getVariantName).

Lemma index_value_main main groups :
  (<[MAIN:=VArr main ∅]> {[ VARIANTS := VObj groups ]} : gmap string value) !! MAIN
  = Some (VArr main ∅).
Proof. apply lookup_insert_eq. Qed.

Lemma index_value_variants main groups :
  (<[MAIN:=VArr main ∅]> {[ VARIANTS := VObj groups ]} : gmap string value) !! VARIANTS
  = Some (VObj groups).
Proof. rewrite lookup_insert_ne by done. apply lookup_singleton_eq. Qed.

Lemma items_add_main d main groups :
  items_add None d (index_value main groups) = index_value (main ++ [d]) groups.
Proof.
  unfold items_add, index_value. rewrite index_value_main.
  by rewrite insert_insert_eq.
Qed.

Lemma items_add_group d u main groups :
  items_add (Some u) d (index_value main groups)
  = index_value main (group_push d u groups).
Proof.
  unfold items_add, index_value. rewrite index_value_variants.
  rewrite insert_insert_ne by done. by rewrite insert_singleton_eq.
Qed.

Lemma items_remove_main file main groups :
  items_remove None file (index_value main groups)
  = index_value (splice_of file main) groups.
Proof.
  unfold items_remove, index_value. rewrite index_value_main.
  by rewrite insert_insert_eq.
Qed.

Lemma items_remove_group file u main groups :
  items_remove (Some u) file (index_value main groups)
  = index_value main (group_splice file u groups).
Proof.
  unfold items_remove, index_value. rewrite index_value_variants.
  rewrite insert_insert_ne by done. by rewrite insert_singleton_eq.
Qed.

Lemma counts_variant v level f c :
  counts v level (f, c) = true → variant_of f = v.
Proof.
  unfold Ledger.counts, Ledger.same_variant. cbn [fst snd].
  intros [[_ H]%andb_prop _]%andb_prop. by apply bool_decide_eq_true in H.
Qed.

Lemma counts_intro level f c :
  indexed c = true → below level f = true →
  counts (variant_of f) level (f, c) = true.
Proof.
  intros Hi Hb. unfold Ledger.counts, Ledger.same_variant. cbn [fst snd].
  rewrite Hi, Hb. by rewrite bool_decide_eq_true_2.
Qed.

Lemma counts_other v level f c :
  variant_of f ≠ v → counts v level (f, c) = false.
Proof.
  intros H. unfold Ledger.counts, Ledger.same_variant. cbn [fst snd].
  rewrite bool_decide_eq_false_2 by done. by rewrite andb_false_r.
Qed.

Lemma counts_not_indexed v level f c :
  indexed c = false → counts v level (f, c) = false.
Proof. intros H. unfold Ledger.counts. cbn [fst snd]. by rewrite H. Qed.

Lemma counts_not_below v level f c :
  below level f = false → counts v level (f, c) = false.
Proof. intros H. unfold Ledger.counts. cbn [fst snd]. by rewrite H, andb_false_r. Qed.

Lemma expected_group_lookup v level live :
  expected_group v level live
  = match expected (Some v) level live with
    | [] => None
    | docs => Some (VArr docs ∅)
    end.
Proof. done. Qed.

(** The index of a level on the way to a file that is added holds what
    it held and the new document. *)
Lemma items_after_add_expected level live f c main groups :
  main = expected None level live →
  (∀ v, groups !! v = expected_group v level live) →
  below level f = true →
  ∃ groups',
    items_after_add (variant_of f) f (json c) (index_value main groups)
    = index_value (expected None level (live ++ [(f, c)])) groups'
    ∧ ∀ v, groups' !! v = expected_group v level (live ++ [(f, c)]).
Proof.
  intros -> Hg Hb. unfold items_after_add.
  destruct (truthy (json c)) eqn:Hi.
  - destruct (variant_of f) as [u|] eqn:Hv.
    + exists (group_push (tag f (json c)) u groups). split.
      * rewrite items_add_group. f_equal.
        rewrite expected_snoc, counts_other, app_nil_r; [done|by rewrite Hv].
      * intros v. rewrite !expected_group_lookup, expected_snoc.
        unfold group_push. rewrite (Hg u), expected_group_lookup.
        destruct (decide (v = u)) as [->|Hne].
        -- assert (counts (Some u) level (f, c) = true) as ->.
           { rewrite <- Hv. by apply counts_intro. }
           destruct (expected (Some u) level live) as [|d ds];
             by rewrite lookup_insert_eq.
        -- rewrite counts_other, app_nil_r by (rewrite Hv; congruence).
           rewrite <- !expected_group_lookup, <- (Hg v).
           destruct (expected_group u level live) as [[| | | | | |]|];
             by rewrite lookup_insert_ne.
    + exists groups. split.
      * rewrite items_add_main. f_equal.
        rewrite expected_snoc.
        assert (counts None level (f, c) = true) as ->; [|done].
        rewrite <- Hv. by apply counts_intro.
      * intros v. rewrite Hg, !expected_group_lookup, expected_snoc.
        rewrite counts_other, app_nil_r; [done|by rewrite Hv].
  - exists groups. split.
    + f_equal. by rewrite expected_snoc, counts_not_indexed, app_nil_r.
    + intros v. rewrite Hg, !expected_group_lookup, expected_snoc.
      by rewrite counts_not_indexed, app_nil_r.
Qed.

(** A level off the way to the file expects what it expected. *)
Lemma expected_snoc_off v level live f c :
  below level f = false →
  expected v level (live ++ [(f, c)]) = expected v level live.
Proof. intros H. by rewrite expected_snoc, counts_not_below, app_nil_r. Qed.

Lemma expected_filter_kind v level live f :
  variant_of f ≠ v →
  expected v level (filter (λ e, e.1 ≠ f) live) = expected v level live.
Proof.
  intros H. apply expected_filter_other. intros [f' c'] _ Hf. cbn [fst] in Hf.
  subst f'. by apply counts_other.
Qed.

Lemma expected_filter_off v level live f :
  below level f = false →
  expected v level (filter (λ e, e.1 ≠ f) live) = expected v level live.
Proof.
  intros H. apply expected_filter_other. intros [f' c'] _ Hf. cbn [fst] in Hf.
  subst f'. by apply counts_not_below.
Qed.

(** The index of a level on the way to a file that is removed holds
    what it held, less the document; a group left empty is gone. *)
Lemma items_remove_expected level live f c main groups :
  NoDup live.*1 →
  (∀ e, e ∈ live → structured e.2 = true) →
  (f, c) ∈ live →
  indexed c = true →
  below level f = true →
  main = expected None level live →
  (∀ v, groups !! v = expected_group v level live) →
  ∃ groups',
    items_remove (variant_of f) f (index_value main groups)
    = index_value (expected None level (filter (λ e, e.1 ≠ f) live)) groups'
    ∧ ∀ v, groups' !! v
           = expected_group v level (filter (λ e, e.1 ≠ f) live).
Proof.
  intros Hnd Hst Hin Hi Hb -> Hg.
  pose proof (counts_intro level f c Hi Hb) as Hc.
  destruct (variant_of f) as [u|] eqn:Hv.
  - exists (group_splice f u groups). split.
    + rewrite items_remove_group. f_equal.
      rewrite expected_filter_kind; [done|by rewrite Hv].
    + intros v. unfold group_splice. rewrite (Hg u), !expected_group_lookup.
      pose proof (expected_elem getVariantName _ _ _ _ _ Hin Hc) as Hel.
      pose proof (expected_splice getVariantName (Some u) level live f c
                    Hnd Hst Hin Hc) as Hs.
      destruct (expected (Some u) level live) as [|d ds] eqn:E;
        [by apply elem_of_nil in Hel|].
      destruct (decide (v = u)) as [->|Hne].
      * rewrite <- Hs. destruct (splice_of f (d :: ds));
          [by rewrite lookup_delete_eq|by rewrite lookup_insert_eq].
      * rewrite expected_filter_kind by (rewrite Hv; congruence).
        rewrite <- expected_group_lookup, <- (Hg v).
        destruct (splice_of f (d :: ds));
          [by rewrite lookup_delete_ne|by rewrite lookup_insert_ne].
  - exists groups. split.
    + rewrite items_remove_main. f_equal. by apply expected_splice with c.
    + intros v. rewrite Hg, !expected_group_lookup.
      by rewrite expected_filter_kind by (rewrite Hv; congruence).
Qed.

End Levels.

Section WalkLevels.
Variable getVariantName : string → option string.

#[local] Abbreviation variant_of := (variant_of getVariantName).
#[local] Abbreviation add_walk := (add_walk getVariantName).
#[local] Abbreviation remove_walk := (remove_walk getVariantName).

Lemma prefixb_cons x l1 y l2 :
  prefixb (x :: l1) (y :: l2) = String.eqb x y && prefixb l1 l2.
Proof. done. Qed.

Lemma proper_prefixb_cons x l1 l2 :
  proper_prefixb (x :: l1) (x :: l2) = proper_prefixb l1 l2.
Proof. unfold proper_prefixb. cbn [prefixb length]. by rewrite String.eqb_refl. Qed.

Lemma proper_prefixb_head x l1 y l2 :
  x ≠ y → proper_prefixb (x :: l1) (y :: l2) = false.
Proof.
  intros H. unfold proper_prefixb. cbn [prefixb].
  by destruct (String.eqb_spec x y).
Qed.

Lemma walk_skeleton level :
  level ≠ [] → JSON_ITEMS ∉ level →
  walk level (deepClone storeDataSkeleton) = VUndef.
Proof.
  destruct level as [|x level]; [done|]. intros _ [Hx _]%not_elem_of_cons.
  unfold deepClone, storeDataSkeleton. rewrite walk_cons_obj.
  rewrite lookup_singleton_ne by done. apply walk_undef.
Qed.

Lemma walk_entered part next rest m level :
  path_clear (part :: next :: rest) (VObj m) = true →
  level ≠ [] → JSON_ITEMS ∉ level →
  walk level (entered m part) = walk level (default VUndef (m !! part)).
Proof.
  rewrite path_clear_unfold, own_prop_obj. unfold entered.
  destruct (default VUndef (m !! part)) as [| | | | | |cm] eqn:E; cbv zeta;
    try (intros [H _]%andb_prop; discriminate).
  - intros _ Hl Hn. cbn [truthy]. rewrite walk_undef. by apply walk_skeleton.
  - done.
Qed.

(** The levels of the tree after the loop of [add]: a level on the way
    to the file has its index updated, a level off the way is as it
    was. *)
Lemma add_walk_levels file jsonFileContents doc pathParts m level :
  pathParts ≠ [] →
  JSON_ITEMS ∉ pathParts →
  path_clear pathParts (VObj m) = true →
  level ≠ [] →
  JSON_ITEMS ∉ level →
  let root' := (add_walk file jsonFileContents doc pathParts (VObj m)).1 in
  if proper_prefixb level pathParts then
    ∃ lm',
      walk level root' = VObj lm'
      ∧ lm' !! JSON_ITEMS
        = Some (items_after_add (variant_of file) file jsonFileContents
                  (items_of (walk level (VObj m))))
  else if prefixb pathParts level then True
  else walk level root' = walk level (VObj m).
Proof.
  revert m level. induction pathParts as [|part rest IH]; [done|].
  intros m level _ Hn Hc Hl Hnl.
  destruct level as [|x level]; [done|]. clear Hl.
  apply not_elem_of_cons in Hn as [Hp Hn].
  apply not_elem_of_cons in Hnl as [Hx Hnl].
  destruct (String.eqb_spec x part) as [->|Hne].
  2:{ rewrite proper_prefixb_head by done. rewrite prefixb_cons.
      destruct (String.eqb_spec part x) as [|_]; [congruence|]. cbn [andb].
      destruct (add_walk_clear getVariantName file jsonFileContents doc
                  (part :: rest) m) as (m' & Hw & _); [done| |done|].
      { by apply not_elem_of_cons. }
      cbv zeta. rewrite Hw. cbn [fst]. rewrite !walk_cons_obj.
      destruct rest as [|next rest].
      - injection Hw as <-. by rewrite lookup_insert_ne.
      - destruct (entered_clear _ _ _ _ Hn Hc) as (cm & items & He & Hcm & Hi & Hcc).
        rewrite (add_walk_round _ _ _ _ _ _ _ _ _ _ He Hcm Hi) in Hw.
        destruct (Store.add_walk _ _ _ _ (next :: rest) _) as [child c].
        injection Hw as <- _. by rewrite lookup_insert_ne. }
  rewrite proper_prefixb_cons, prefixb_cons, String.eqb_refl. cbn [andb].
  destruct rest as [|next rest].
  - unfold proper_prefixb. destruct level; cbn; done.
  - destruct (entered_clear _ _ _ _ Hn Hc) as (cm & items & He & Hcm & Hi & Hcc).
    cbv zeta. rewrite (add_walk_round _ _ _ _ _ _ _ _ _ _ He Hcm Hi).
    set (items' := items_after_add (variant_of file) file jsonFileContents items).
    destruct (add_walk_clear getVariantName file jsonFileContents doc (next :: rest)
                (<[JSON_ITEMS:=items']> cm)) as (cm' & Hw & Hj & _);
      [done|done|by rewrite path_clear_frame|].
    specialize (IH (<[JSON_ITEMS:=items']> cm) level).
    cbv zeta in IH. rewrite Hw in *. cbn [fst] in *.
    rewrite !walk_cons_obj, lookup_insert_eq. cbn [default from_option id].
    destruct level as [|y level].
    + cbn [proper_prefixb prefixb length Nat.eqb negb andb walk fold_left].
      exists cm'. split; [done|]. rewrite Hj, lookup_insert_eq.
      unfold items', items_of. f_equal. f_equal.
      fold (entered m part). by rewrite He, own_prop_obj, Hcm.
    + assert (walk (y :: level) (VObj (<[JSON_ITEMS:=items']> cm))
              = walk (y :: level) (default VUndef (m !! part))) as Hsame.
      { rewrite walk_frame by done. rewrite <- He. by eapply walk_entered. }
      rewrite Hsame in IH. apply IH; try done. by rewrite path_clear_frame.
Qed.

Lemma walk_prefix_undef pathParts level root :
  prefixb pathParts level = true →
  walk pathParts root = VUndef → walk level root = VUndef.
Proof.
  revert level root. induction pathParts as [|part rest IH]; intros level root.
  - intros _ H. change (root = VUndef) in H. subst root. apply walk_undef.
  - destruct level as [|x level]; [done|]. rewrite prefixb_cons.
    intros [->%String.eqb_eq Hp]%andb_prop. cbn [walk fold_left].
    by apply IH.
Qed.

(** The levels of the tree after the loop of [remove]. *)
Lemma remove_walk_levels file pathParts m level :
  pathParts ≠ [] →
  JSON_ITEMS ∉ pathParts →
  dirs_exist pathParts (VObj m) = true →
  level ≠ [] →
  JSON_ITEMS ∉ level →
  let root' := (remove_walk file pathParts (VObj m)).1 in
  if proper_prefixb level pathParts then
    ∃ lm',
      walk level root' = VObj lm'
      ∧ lm' !! JSON_ITEMS
        = Some (items_remove (variant_of file) file (items_of (walk level (VObj m))))
  else if prefixb pathParts level then walk level root' = VUndef
  else walk level root' = walk level (VObj m).
Proof.
  revert m level. induction pathParts as [|part rest IH]; [done|].
  intros m level _ Hn Hc Hl Hnl.
  destruct level as [|x level]; [done|]. clear Hl.
  pose proof (remove_walk_dirs getVariantName file (part :: rest) m) as Hall.
  destruct Hall as (m' & Hw & _ & Hgone & _); [done|done|done|].
  apply not_elem_of_cons in Hn as [Hp Hn].
  apply not_elem_of_cons in Hnl as [Hx Hnl].
  destruct (String.eqb_spec x part) as [->|Hne].
  2:{ rewrite proper_prefixb_head by done. rewrite prefixb_cons.
      destruct (String.eqb_spec part x) as [|_]; [congruence|]. cbn [andb].
      cbv zeta. rewrite Hw. cbn [fst]. rewrite !walk_cons_obj.
      destruct rest as [|next rest].
      - injection Hw as <-. by rewrite lookup_delete_ne.
      - rewrite dirs_exist_unfold in Hc. apply andb_prop in Hc as [Hd Hc].
        destruct (is_dir_inv _ Hd) as (cm & items & Hcm & Hitems & Hi).
        rewrite own_prop_obj in Hcm.
        destruct (m !! part) as [c0|] eqn:Hm0; [|done]. simpl in Hcm. subst c0.
        rewrite (remove_walk_round _ _ _ _ _ _ _ _ Hm0 Hitems Hi) in Hw.
        destruct (Store.remove_walk _ _ (next :: rest) _) as [child c].
        injection Hw as <- _. by rewrite lookup_insert_ne. }
  rewrite proper_prefixb_cons, prefixb_cons, String.eqb_refl. cbn [andb].
  destruct rest as [|next rest].
  - assert (proper_prefixb level [] = false) as -> by (by destruct level).
    cbn [prefixb]. cbv zeta. rewrite Hw. cbn [fst].
    apply walk_prefix_undef with [part]; [|done].
    by rewrite prefixb_cons, String.eqb_refl.
  - rewrite dirs_exist_unfold in Hc. apply andb_prop in Hc as [Hd Hc].
    destruct (is_dir_inv _ Hd) as (cm & items & Hcm & Hitems & Hi).
    rewrite Hcm in Hc. rewrite own_prop_obj in Hcm.
    destruct (m !! part) as [c0|] eqn:Hm0; [|done]. simpl in Hcm. subst c0.
    cbv zeta. rewrite (remove_walk_round _ _ _ _ _ _ _ _ Hm0 Hitems Hi).
    set (items' := items_remove (variant_of file) file items).
    destruct (remove_walk_dirs getVariantName file (next :: rest)
                (<[JSON_ITEMS:=items']> cm)) as (cm' & Hw' & Hj & _);
      [done|done|by rewrite dirs_exist_frame|].
    specialize (IH (<[JSON_ITEMS:=items']> cm) level).
    cbv zeta in IH. rewrite Hw' in *. cbn [fst] in *.
    rewrite !walk_cons_obj, lookup_insert_eq, Hm0. cbn [default from_option id].
    destruct level as [|y level].
    + cbn [proper_prefixb prefixb length Nat.eqb negb andb walk fold_left].
      exists cm'. split; [done|]. rewrite Hj, lookup_insert_eq.
      unfold items', items_of. cbn [truthy]. by rewrite own_prop_obj, Hitems.
    + assert (walk (y :: level) (VObj (<[JSON_ITEMS:=items']> cm))
              = walk (y :: level) (VObj cm)) as Hsame by (by rewrite walk_frame).
      rewrite Hsame in IH. apply IH; try done. by rewrite dirs_exist_frame.
Qed.

End WalkLevels.


Lemma prefixb_spec l1 l2 : prefixb l1 l2 = true ↔ ∃ k, l2 = (l1 ++ k)%list.
Proof.
  revert l2. induction l1 as [|x l1 IH]; intros l2.
  - split; [intros _; by exists l2|done].
  - destruct l2 as [|y l2].
    + split; [done|]. by intros [k ?].
    + rewrite prefixb_cons. split.
      * intros [->%String.eqb_eq [k ->]%IH]%andb_prop. by exists k.
      * intros [k [= -> ->]]. rewrite String.eqb_refl. apply IH. by exists k.
Qed.

Lemma prefixb_refl l : prefixb l l = true.
Proof. apply prefixb_spec. exists []. by rewrite app_nil_r. Qed.

Lemma prefixb_trans l1 l2 l3 :
  prefixb l1 l2 = true → prefixb l2 l3 = true → prefixb l1 l3 = true.
Proof.
  intros [k ->]%prefixb_spec [k' ->]%prefixb_spec. apply prefixb_spec.
  exists (k ++ k')%list. by rewrite app_assoc.
Qed.

Lemma prefixb_length l1 l2 :
  prefixb l1 l2 = true → (length l1 ≤ length l2)%nat.
Proof. intros [k ->]%prefixb_spec. rewrite length_app. lia. Qed.

Lemma prefixb_same_length l1 l2 :
  prefixb l1 l2 = true → length l1 = length l2 → l1 = l2.
Proof.
  intros [k ->]%prefixb_spec. rewrite length_app. intros H.
  destruct k; [by rewrite app_nil_r|simpl in H; lia].
Qed.

Lemma proper_prefixb_spec l1 l2 :
  proper_prefixb l1 l2 = true ↔ prefixb l1 l2 = true ∧ length l1 ≠ length l2.
Proof.
  unfold proper_prefixb. rewrite andb_true_iff, negb_true_iff, Nat.eqb_neq. done.
Qed.

Lemma proper_prefixb_false l1 l2 :
  prefixb l1 l2 = false → proper_prefixb l1 l2 = false.
Proof. unfold proper_prefixb. by intros ->. Qed.

Lemma prefixb_elem l1 l2 x : prefixb l1 l2 = true → x ∈ l1 → x ∈ l2.
Proof. intros [k ->]%prefixb_spec H. apply elem_of_app. by left. Qed.

Lemma split_on_inj sep s1 s2 : split_on sep s1 = split_on sep s2 → s1 = s2.
Proof.
  intros H. rewrite <- (IncludeParserFacts.join_split_on sep s1).
  rewrite H. apply IncludeParserFacts.join_split_on.
Qed.

Lemma walk_prefix pathParts level root :
  prefixb level pathParts = true →
  walk level root = VUndef → walk pathParts root = VUndef.
Proof. intros H. by apply walk_prefix_undef. Qed.

(** A path is clear when each of its directories is nothing or a
    directory node. *)
Lemma path_clear_intro pathParts m :
  (∀ level, level ≠ [] → proper_prefixb level pathParts = true →
            walk level (VObj m) = VUndef ∨ is_dir (walk level (VObj m)) = true) →
  path_clear pathParts (VObj m) = true.
Proof.
  revert m. induction pathParts as [|part rest IH]; [done|]. intros m H.
  destruct rest as [|next rest]; [done|].
  rewrite path_clear_unfold.
  destruct (H [part]) as [Hu|Hd]; [done|by rewrite proper_prefixb_cons|..].
  - change (walk [part] (VObj m)) with (own_prop (VObj m) part) in Hu. by rewrite Hu.
  - change (walk [part] (VObj m)) with (own_prop (VObj m) part) in Hd.
    destruct (is_dir_inv _ Hd) as (cm & items & Hcm & _).
    rewrite Hcm in *. cbv zeta. rewrite Hd. cbn [andb]. apply IH.
    intros level Hl Hp. specialize (H (part :: level)).
    rewrite proper_prefixb_cons in H.
    change (walk (part :: level) (VObj m)) with (walk level (own_prop (VObj m) part)) in H.
    rewrite Hcm in H. by apply H.
Qed.

Lemma dirs_exist_intro pathParts m :
  (∀ level, level ≠ [] → proper_prefixb level pathParts = true →
            is_dir (walk level (VObj m)) = true) →
  dirs_exist pathParts (VObj m) = true.
Proof.
  revert m. induction pathParts as [|part rest IH]; [done|]. intros m H.
  destruct rest as [|next rest]; [done|].
  rewrite dirs_exist_unfold.
  pose proof (H [part]) as Hd.
  change (walk [part] (VObj m)) with (own_prop (VObj m) part) in Hd.
  rewrite Hd; [|done|by rewrite proper_prefixb_cons]. cbn [andb].
  destruct (is_dir_inv (own_prop (VObj m) part)) as (cm & items & Hcm & _).
  { apply Hd; [done|by rewrite proper_prefixb_cons]. }
  rewrite Hcm. apply IH.
  intros level Hl Hp. specialize (H (part :: level)).
  rewrite proper_prefixb_cons in H.
  change (walk (part :: level) (VObj m)) with (walk level (own_prop (VObj m) part)) in H.
  rewrite Hcm in H. by apply H.
Qed.

Section TreeLevels.
Variable getVariantName : string → option string.

#[local] Abbreviation variant_of := (variant_of getVariantName).
#[local] Abbreviation add_tree := (add_tree getVariantName).
#[local] Abbreviation remove_tree := (remove_tree getVariantName).

Lemma proper_prefixb_nil pathParts :
  pathParts ≠ [] → proper_prefixb [] pathParts = true.
Proof. by destruct pathParts. Qed.

(** The levels of the tree after [add], the root among them. *)
Lemma add_tree_levels file jsonFileContents doc pathParts root level :
  pathParts ≠ [] →
  JSON_ITEMS ∉ pathParts →
  is_dir root = true →
  path_clear pathParts root = true →
  JSON_ITEMS ∉ level →
  let root' := (add_tree file jsonFileContents doc pathParts root).1 in
  if proper_prefixb level pathParts then
    ∃ lm',
      walk level root' = VObj lm'
      ∧ lm' !! JSON_ITEMS
        = Some (items_after_add (variant_of file) file jsonFileContents
                  (items_of (walk level root)))
  else if prefixb pathParts level then True
  else walk level root' = walk level root.
Proof.
  intros Hne Hn Hd Hc Hnl.
  destruct (is_dir_inv _ Hd) as (m & items & -> & Hm & Hi).
  destruct (add_walk_clear getVariantName file jsonFileContents doc _ _ Hne Hn Hc)
    as (m' & Hw & Hj & _).
  pose proof (add_walk_levels getVariantName file jsonFileContents doc
                pathParts m level Hne Hn Hc) as Hlev.
  cbv zeta in *. unfold Store.add_tree. rewrite Hw in *. cbn [is_normal fst] in *.
  rewrite Hm in Hj. rewrite (addFileToJsonItems_node _ _ _ _ _ Hj Hi). cbn [fst].
  destruct level as [|x level].
  - rewrite proper_prefixb_nil by done. eexists. split; [reflexivity|].
    rewrite lookup_insert_eq. unfold items_of. cbn [walk fold_left truthy].
    by rewrite own_prop_obj, Hm.
  - rewrite walk_frame by done. by apply Hlev.
Qed.

(** The levels of the tree after [remove], the root among them. *)
Lemma remove_tree_levels file pathParts root level :
  pathParts ≠ [] →
  JSON_ITEMS ∉ pathParts →
  is_dir root = true →
  dirs_exist pathParts root = true →
  JSON_ITEMS ∉ level →
  let root' := (remove_tree file pathParts root).1 in
  if proper_prefixb level pathParts then
    ∃ lm',
      walk level root' = VObj lm'
      ∧ lm' !! JSON_ITEMS
        = Some (items_remove (variant_of file) file (items_of (walk level root)))
  else if prefixb pathParts level then walk level root' = VUndef
  else walk level root' = walk level root.
Proof.
  intros Hne Hn Hd Hc Hnl.
  destruct (is_dir_inv _ Hd) as (m & items & -> & Hm & Hi).
  destruct (remove_walk_dirs getVariantName file _ _ Hne Hn Hc)
    as (m' & Hw & Hj & _).
  pose proof (remove_walk_levels getVariantName file pathParts m level Hne Hn Hc)
    as Hlev.
  cbv zeta in *. unfold Store.remove_tree. rewrite Hw in *. cbn [is_normal fst] in *.
  rewrite Hm in Hj. rewrite (removeFileFromJsonItems_dir _ _ _ _ Hj Hi). cbn [fst].
  destruct level as [|x level].
  - rewrite proper_prefixb_nil by done. eexists. split; [reflexivity|].
    rewrite lookup_insert_eq. unfold items_of. cbn [walk fold_left truthy].
    by rewrite own_prop_obj, Hm.
  - rewrite walk_frame by done. by apply Hlev.
Qed.

End TreeLevels.

Section Consistency.
Variable getVariantName : string → option string.
Variable getFileContents : string → FileContents.
Variable path_join : string → string → string.
Variable postProcessor : option PostProcessor.

#[local] Abbreviation add := (add getVariantName getFileContents path_join postProcessor).
#[local] Abbreviation remove := (remove getVariantName postProcessor).
#[local] Abbreviation fetch := (fetch getFileContents path_join postProcessor).
#[local] Abbreviation read := (read getFileContents path_join postProcessor).
#[local] Abbreviation variant_of := (variant_of getVariantName).
#[local] Abbreviation counts := (counts getVariantName).
#[local] Abbreviation expected := (expected getVariantName).
#[local] Abbreviation expected_group := (expected_group getVariantName).
#[local] Abbreviation level_holds := (level_holds getVariantName).
#[local] Abbreviation consistent :=
  (consistent getVariantName getFileContents postProcessor).
#[local] Abbreviation alike := (alike postProcessor).
#[local] Abbreviation fresh := (fresh getFileContents postProcessor).
#[local] Abbreviation exec := (exec getVariantName getFileContents path_join postProcessor).
#[local] Abbreviation run := (run getVariantName getFileContents path_join postProcessor).
#[local] Abbreviation record := (record getFileContents path_join postProcessor).
#[local] Abbreviation ledger := (ledger getFileContents path_join postProcessor).
#[local] Abbreviation admissible :=
  (admissible getVariantName getFileContents path_join postProcessor).
#[local] Abbreviation admissible_run :=
  (admissible_run getVariantName getFileContents path_join postProcessor).

Lemma is_index_value main groups :
  (∀ v g, groups !! v = Some g → is_array g = true) →
  is_index (index_value main groups) = true.
Proof.
  intros H. unfold is_index, index_value. cbv beta iota.
  rewrite index_value_main, index_value_variants.
  by apply bool_decide_eq_true.
Qed.

Lemma level_holds_dir live level node :
  level_holds live level node → is_dir node = true.
Proof.
  intros (m & groups & -> & Hm & Hg). eapply is_dir_intro; [done|].
  apply is_index_value. intros v g. rewrite Hg, expected_group_lookup.
  destruct (expected (Some v) level live); [done|]. by intros [= <-].
Qed.

Lemma items_of_obj m items :
  m !! JSON_ITEMS = Some items → items_of (VObj m) = items.
Proof. intros H. unfold items_of. cbn [truthy]. by apply own_prop_lookup. Qed.

Lemma items_of_undef : items_of VUndef = index_value [] ∅.
Proof.
  unfold items_of, deepClone, storeDataSkeleton. cbn [truthy].
  by rewrite own_prop_obj, lookup_singleton_eq.
Qed.

Lemma expected_nil v level live :
  (∀ e, e ∈ live → counts v level e = false) → expected v level live = [].
Proof.
  induction live as [|e live IH]; [done|]. intros H.
  unfold Ledger.expected. cbn [omap list_omap].
  rewrite (H e (list_elem_of_here _ _)). apply IH.
  intros e' He'. apply H. by apply elem_of_cons; right.
Qed.

(** A level on the way to a file of the ledger is there. *)
Lemma live_level_defined live w f c level :
  consistent live w → (f, c) ∈ live →
  prefixb level (split_on "/" f) = true →
  walk level (data w) ≠ VUndef.
Proof.
  intros Hk Hin Hp Hu.
  destruct (live_files _ _ _ _ _ Hk f c Hin) as (_ & _ & Hget).
  apply (stored_defined f c). rewrite <- Hget. unfold get.
  by apply walk_prefix with level.
Qed.

(** A level that is not there has nothing below it in the ledger. *)
Lemma absent_level_empty live w v level :
  consistent live w → walk level (data w) = VUndef →
  expected v level live = [].
Proof.
  intros Hk Hu. apply expected_nil. intros [f c] Hin.
  destruct (counts v level (f, c)) eqn:Hc; [|done]. exfalso.
  apply (live_level_defined live w f c level Hk Hin); [|done].
  unfold Ledger.counts, below in Hc. cbn [fst snd] in Hc.
  apply andb_prop in Hc as [_ Hb]. by apply proper_prefixb_spec in Hb as [? _].
Qed.

Lemma cache_get_set_other {V : Type} bin key key' (value : V) cached :
  key' ≠ key →
  Cache.get bin key' (Cache.set bin key value cached) = Cache.get bin key' cached.
Proof.
  intros Hne. unfold Cache.get, Cache.set.
  destruct (cached !! bin) as [items|] eqn:E.
  - rewrite E, lookup_insert_eq. by rewrite lookup_insert_ne.
  - rewrite lookup_insert_eq, lookup_insert_eq, lookup_insert_ne by done.
    apply lookup_empty.
Qed.

Lemma alike_refl c : alike c c.
Proof. split; [done|by left]. Qed.

Lemma post_process_plain dataDir file c :
  processes postProcessor = false → post_process postProcessor dataDir file c = c.
Proof.
  unfold processes, post_process. destruct postProcessor as [pp|]; [|done].
  by destruct (processFile pp).
Qed.

Lemma post_process_alike dataDir file c c0 :
  alike c c0 →
  alike (post_process postProcessor dataDir file c)
    (post_process postProcessor dataDir file c0).
Proof.
  intros [Hr [Hj|[Hp Hn]]].
  - destruct c, c0. cbn [raw json] in *. subst. apply alike_refl.
  - rewrite !post_process_plain by done. split; [done|]. by right.
Qed.

(** What [add] does with the contents does not depend on a file name
    written to them before. *)
Lemma stored_alike file c c0 : alike c c0 → stored file c = stored file c0.
Proof.
  intros [Hr [Hj|[_ [name Hj]]]]; unfold stored; rewrite Hr, Hj; [done|].
  by rewrite tag_tag.
Qed.

Lemma addFileToJsonItems_tag leaf file name jsonFileContents :
  addFileToJsonItems getVariantName leaf file (tag name jsonFileContents)
  = addFileToJsonItems getVariantName leaf file jsonFileContents.
Proof. unfold Store.addFileToJsonItems. by rewrite tag_truthy, tag_tag. Qed.

Lemma add_walk_tag file name jsonFileContents doc pathParts leaf :
  add_walk getVariantName file (tag name jsonFileContents) doc pathParts leaf
  = add_walk getVariantName file jsonFileContents doc pathParts leaf.
Proof.
  revert leaf. induction pathParts as [|part rest IH]; intros leaf; [done|].
  destruct rest as [|next rest]; [done|].
  rewrite !add_walk_unfold.
  destruct (if truthy (own_prop leaf part) then (leaf, Normal)
            else set_prop leaf part (deepClone storeDataSkeleton)) as [leaf1 c1].
  destruct (is_normal c1); [|done].
  rewrite addFileToJsonItems_tag.
  destruct (Store.addFileToJsonItems _ _ _ _) as [child c2].
  destruct (is_normal c2); [|done].
  cbv zeta. by rewrite !IH.
Qed.

Lemma add_tree_alike file c c0 doc pathParts root :
  alike c c0 →
  add_tree getVariantName file (json c) doc pathParts root
  = add_tree getVariantName file (json c0) doc pathParts root.
Proof.
  intros [_ [Hj|[_ [name Hj]]]]; rewrite Hj; [done|].
  unfold Store.add_tree. rewrite add_walk_tag.
  destruct (Store.add_walk _ _ _ _ _ _) as [root1 c1].
  destruct (is_normal c1); [|done]. apply addFileToJsonItems_tag.
Qed.

(** With a cache that agrees with the files, [add] gets the contents
    the files hold, and the cache goes on agreeing. *)
Lemma fetch_read dataDir file options w :
  fresh (cache w) →
  alike (fetch dataDir file options w).2 (read dataDir file)
  ∧ fresh (cache (fetch dataDir file options w).1).
Proof.
  intros Hfresh. unfold Store.fetch, Ledger.read. cbn [fst snd].
  set (filePath := path_join dataDir file).
  destruct (negb (useCache options)
            || negb (bool_decide (is_Some (Cache.get "file" filePath (cache w)))))
    eqn:Hset.
  - unfold with_cache. cbn [cache]. rewrite cache_get_set.
    split; [apply alike_refl|].
    intros fp c. destruct (decide (fp = filePath)) as [->|Hne].
    + rewrite cache_get_set. intros [= <-]. apply alike_refl.
    + rewrite cache_get_set_other by done. apply Hfresh.
  - split; [|done]. apply orb_false_iff in Hset as [_ Hs].
    apply negb_false_iff, bool_decide_eq_true in Hs as [c Hc].
    rewrite Hc. apply post_process_alike. by apply Hfresh.
Qed.

Lemma add_world dataDir file options w :
  useStage options = false →
  accepts file = true →
  fresh (cache (fetch dataDir file options w).1) →
  data (add dataDir file options w).1
  = (add_tree getVariantName file (json (fetch dataDir file options w).2)
       (stored file (fetch dataDir file options w).2)
       (split_on "/" file) (data w)).1
  ∧ fresh (cache (add dataDir file options w).1).
Proof.
  intros Hs Ha Hfresh.
  split; [by apply (add_data getVariantName getFileContents path_join postProcessor)|].
  rewrite (add_cache getVariantName getFileContents path_join postProcessor) by done.
  cbv zeta.
  destruct (processes postProcessor || nullish _) eqn:Hp; [done|].
  apply orb_false_iff in Hp as [Hp _].
  destruct (Cache.get "file" (path_join dataDir file)
              (cache (fetch dataDir file options w).1)) as [c|] eqn:Hc; [|done].
  intros fp c'. destruct (decide (fp = path_join dataDir file)) as [->|Hne].
  - rewrite cache_get_set. intros [= <-].
    destruct (Hfresh _ _ Hc) as [Hr [Hj|[_ [name Hj]]]]; (split; [done|]);
      right; (split; [done|]); exists file; cbn [json]; rewrite Hj; [done|].
    by rewrite tag_tag.
  - rewrite cache_get_set_other by done. apply Hfresh.
Qed.

Lemma remove_world file w :
  data (remove file w).1
  = (remove_tree getVariantName file (split_on "/" file) (data w)).1
  ∧ cache (remove file w).1 = cache w.
Proof.
  unfold Store.remove. destruct (Store.remove_tree _ _ _ _) as [root' c].
  destruct (is_normal c); [|done].
  destruct postProcessor as [pp|]; [destruct (storeRemove pp)|]; done.
Qed.

Lemma level_holds_ext live live' level node :
  (∀ v, expected v level live' = expected v level live) →
  level_holds live level node → level_holds live' level node.
Proof.
  intros H (m & groups & -> & Hm & Hg). exists m, groups. split; [done|].
  rewrite H. split; [done|]. intros v. rewrite Hg, !expected_group_lookup.
  by rewrite H.
Qed.

Lemma off_files_prefix live level pathParts :
  (∀ e, e ∈ live → prefixb (split_on "/" e.1) pathParts = false) →
  prefixb level pathParts = true →
  off_files live level.
Proof.
  intros H Hp e He. destruct (prefixb (split_on "/" e.1) level) eqn:E; [|done].
  pose proof (H e He) as Hf. by rewrite (prefixb_trans _ _ _ E Hp) in Hf.
Qed.

Lemma accepts_parts file :
  accepts file = true → JSON_ITEMS ∉ split_on "/" file.
Proof. intros [_ H]%accepts_inv. by apply includes_false. Qed.

(** [add] of a new file keeps the store in agreement with the ledger. *)
Lemma consistent_add live w dataDir f uc :
  consistent live w →
  accepts f = true →
  get f w = VUndef →
  (∀ e, e ∈ live → prefixb (split_on "/" e.1) (split_on "/" f) = false) →
  structured (read dataDir f) = true →
  consistent (live ++ [(f, read dataDir f)])
    (add dataDir f {| useStage := false; useCache := uc |} w).1.
Proof.
  intros Hk Ha Hnew Hfree Hst.
  set (options := {| useStage := false; useCache := uc |}).
  destruct (fetch_read dataDir f options w (cache_fresh _ _ _ _ _ Hk)) as [Hread Hfresh].
  pose proof (accepts_parts f Ha) as Hn.
  pose proof (split_on_not_nil "/" f) as Hne.
  pose proof (root_dir _ _ _ _ _ Hk) as Hroot.
  assert (path_clear (split_on "/" f) (data w) = true) as Hclear.
  { destruct (is_dir_inv _ Hroot) as (m & items & Hm & _). rewrite Hm.
    apply path_clear_intro. intros level Hl [Hp _]%proper_prefixb_spec.
    rewrite <- Hm.
    destruct (levels _ _ _ _ _ Hk level) as [Hu|Hh]; [..|by left|].
    - intros Hin. apply Hn. by eapply prefixb_elem.
    - by eapply off_files_prefix.
    - right. by eapply level_holds_dir. }
  destruct (add_live_clear getVariantName getFileContents path_join postProcessor
              dataDir f options w eq_refl Ha Hroot Hclear) as (_ & Hget & Hroot' & _).
  destruct (add_world dataDir f options w eq_refl Ha Hfresh) as [Hdata Hcache].
  rewrite (stored_alike _ _ _ Hread) in Hget, Hdata.
  rewrite (add_tree_alike _ _ _ _ _ _ Hread) in Hdata.
  assert (∀ f' c', (f', c') ∈ live → prefixb (split_on "/" f) (split_on "/" f') = false)
    as Hfree'.
  { intros f' c' Hin. destruct (prefixb _ _) eqn:E; [|done]. exfalso.
    by apply (live_level_defined live w f' c' (split_on "/" f) Hk Hin E). }
  split.
  - exact Hcache.
  - done.
  - intros f' c' [Hin|Hin]%elem_of_app.
    + destruct (live_files _ _ _ _ _ Hk f' c' Hin) as (Ha' & Hs' & Hg').
      split; [done|]. split; [done|]. rewrite <- Hg'. unfold get. rewrite Hdata.
      pose proof (add_tree_levels getVariantName f (json (read dataDir f))
                    (stored f (read dataDir f)) _ _ (split_on "/" f')
                    Hne Hn Hroot Hclear (accepts_parts f' Ha')) as Hlev.
      cbv zeta in Hlev.
      rewrite proper_prefixb_false in Hlev by apply (Hfree (f', c') Hin).
      by rewrite (Hfree' f' c' Hin) in Hlev.
    + apply list_elem_of_singleton in Hin as [= -> ->]. done.
  - rewrite fmap_app. apply NoDup_app. split; [apply (live_nodup _ _ _ _ _ Hk)|].
    split; [|apply NoDup_singleton].
    intros x Hx Hxf. apply list_elem_of_singleton in Hxf as ->.
    apply list_elem_of_fmap in Hx as [[f' c'] [Hf Hin]]. cbn [fst] in Hf. subst f'.
    pose proof (Hfree (f, c') Hin) as E. cbn [fst] in E. by rewrite prefixb_refl in E.
  - intros e1 e2 [H1|H1]%elem_of_app [H2|H2]%elem_of_app Hp.
    + by apply (live_apart _ _ _ _ _ Hk).
    + apply list_elem_of_singleton in H2 as ->. cbn [fst] in Hp.
      by rewrite (Hfree e1 H1) in Hp.
    + apply list_elem_of_singleton in H1 as ->.
      destruct e2 as [f2 c2]. cbn [fst] in Hp. by rewrite (Hfree' f2 c2 H2) in Hp.
    + apply list_elem_of_singleton in H1 as ->.
      by apply list_elem_of_singleton in H2 as ->.
  - intros level Hnl Hoff.
    assert (off_files live level) as Hoff_old.
    { intros e He. apply Hoff. apply elem_of_app. by left. }
    assert (prefixb (split_on "/" f) level = false) as Hoff_f.
    { apply (Hoff (f, read dataDir f)). apply elem_of_app. right. apply list_elem_of_here. }
    pose proof (add_tree_levels getVariantName f (json (read dataDir f))
                  (stored f (read dataDir f)) _ _ level Hne Hn Hroot Hclear Hnl) as Hlev.
    cbv zeta in Hlev. rewrite Hdata.
    destruct (proper_prefixb level (split_on "/" f)) eqn:Hb.
    + right. destruct Hlev as (lm' & Hw & Hidx).
      destruct (levels _ _ _ _ _ Hk level Hnl Hoff_old) as [Hu|(lm & groups & Hlm & Hi & Hg)].
      * rewrite Hu, items_of_undef in Hidx.
        destruct (items_after_add_expected getVariantName level live f (read dataDir f)
                    [] ∅) as (groups' & Heq & Hg'); [| |done|].
        { symmetry. by eapply absent_level_empty. }
        { intros v. rewrite lookup_empty, expected_group_lookup.
          by erewrite absent_level_empty. }
        exists lm', groups'. by rewrite Hw, Hidx, Heq.
      * rewrite Hlm, (items_of_obj _ _ Hi) in Hidx.
        destruct (items_after_add_expected getVariantName level live f (read dataDir f)
                    _ groups eq_refl Hg Hb) as (groups' & Heq & Hg').
        exists lm', groups'. by rewrite Hw, Hidx, Heq.
    + rewrite Hoff_f in Hlev. rewrite Hlev.
      destruct (levels _ _ _ _ _ Hk level Hnl Hoff_old) as [Hu|Hh]; [by left|right].
      eapply level_holds_ext; [|done]. intros v. by apply expected_snoc_off.
Qed.

Lemma proper_prefixb_strict l1 l2 :
  proper_prefixb l1 l2 = true → prefixb l2 l1 = false.
Proof.
  intros [H1 H2]%proper_prefixb_spec. destruct (prefixb l2 l1) eqn:E; [|done].
  apply prefixb_length in H1, E. lia.
Qed.

Lemma off_files_filter live f level :
  off_files (filter (λ e, e.1 ≠ f) live) level →
  prefixb (split_on "/" f) level = false →
  off_files live level.
Proof.
  intros Hoff Hf e He. destruct (decide (e.1 = f)) as [->|Hne]; [done|].
  apply Hoff. by apply list_elem_of_filter.
Qed.

(** [remove] of an indexed file of the ledger keeps the store in
    agreement with the ledger. *)
Lemma consistent_remove live w f c :
  consistent live w →
  (f, c) ∈ live →
  indexed c = true →
  consistent (filter (λ e, e.1 ≠ f) live) (remove f w).1.
Proof.
  intros Hk Hin Hi.
  destruct (live_files _ _ _ _ _ Hk f c Hin) as (Ha & Hs & Hg).
  pose proof (accepts_parts f Ha) as Hn.
  pose proof (split_on_not_nil "/" f) as Hne.
  pose proof (root_dir _ _ _ _ _ Hk) as Hroot.
  assert (∀ e, e ∈ live → structured e.2 = true) as Hst.
  { intros [f' c'] He. by destruct (live_files _ _ _ _ _ Hk f' c' He) as (_ & ? & _). }
  assert (∀ level, proper_prefixb level (split_on "/" f) = true →
                   off_files live level) as Hoff_way.
  { intros level Hb e He. destruct (prefixb (split_on "/" e.1) level) eqn:E; [|done].
    pose proof Hb as [Hp _]%proper_prefixb_spec.
    pose proof (live_apart _ _ _ _ _ Hk e (f, c) He Hin (prefixb_trans _ _ _ E Hp)) as Hef.
    cbn [fst] in Hef. rewrite Hef in E.
    by rewrite (proper_prefixb_strict _ _ Hb) in E. }
  assert (dirs_exist (split_on "/" f) (data w) = true) as Hdirs.
  { destruct (is_dir_inv _ Hroot) as (m & items & Hm & _). rewrite Hm.
    apply dirs_exist_intro. intros level Hl Hb. rewrite <- Hm.
    pose proof Hb as [Hp _]%proper_prefixb_spec.
    destruct (levels _ _ _ _ _ Hk level) as [Hu|Hh].
    - intros Hj. apply Hn. by eapply prefixb_elem.
    - by apply Hoff_way.
    - by destruct (live_level_defined live w f c level Hk Hin Hp).
    - by eapply level_holds_dir. }
  destruct (remove_dirs getVariantName postProcessor f w Ha Hroot Hdirs)
    as (_ & _ & Hroot' & _ & _).
  destruct (remove_world f w) as [Hdata Hcache].
  split.
  - rewrite Hcache. apply (cache_fresh _ _ _ _ _ Hk).
  - done.
  - intros f' c' [Hne' Hin']%list_elem_of_filter. cbn [fst] in Hne'.
    destruct (live_files _ _ _ _ _ Hk f' c' Hin') as (Ha' & Hs' & Hg').
    split; [done|]. split; [done|]. rewrite <- Hg'. unfold get. rewrite Hdata.
    pose proof (remove_tree_levels getVariantName f _ _ (split_on "/" f')
                  Hne Hn Hroot Hdirs (accepts_parts f' Ha')) as Hlev.
    cbv zeta in Hlev.
    assert (prefixb (split_on "/" f') (split_on "/" f) = false) as E1.
    { destruct (prefixb (split_on "/" f') (split_on "/" f)) eqn:E; [|done].
      pose proof (live_apart _ _ _ _ _ Hk (f', c') (f, c) Hin' Hin E) as Hff.
      cbn [fst] in Hff. by destruct Hne'. }
    assert (prefixb (split_on "/" f) (split_on "/" f') = false) as E2.
    { destruct (prefixb (split_on "/" f) (split_on "/" f')) eqn:E; [|done].
      pose proof (live_apart _ _ _ _ _ Hk (f, c) (f', c') Hin Hin' E) as Hff.
      cbn [fst] in Hff. by destruct Hne'. }
    by rewrite proper_prefixb_false, E2 in Hlev.
  - apply (sublist_NoDup _ live.*1); [apply (live_nodup _ _ _ _ _ Hk)|].
    apply fmap_sublist, sublist_filter.
  - intros e1 e2 [_ H1]%list_elem_of_filter [_ H2]%list_elem_of_filter.
    by apply (live_apart _ _ _ _ _ Hk).
  - intros level Hnl Hoff.
    pose proof (remove_tree_levels getVariantName f _ _ level
                  Hne Hn Hroot Hdirs Hnl) as Hlev.
    cbv zeta in Hlev. rewrite Hdata.
    destruct (proper_prefixb level (split_on "/" f)) eqn:Hb.
    + right. destruct Hlev as (lm' & Hw & Hidx).
      pose proof Hb as [Hp _]%proper_prefixb_spec.
      destruct (levels _ _ _ _ _ Hk level Hnl (Hoff_way level Hb))
        as [Hu|(lm & groups & Hlm & Hitems & Hgr)].
      * by destruct (live_level_defined live w f c level Hk Hin Hp).
      * rewrite Hlm, (items_of_obj _ _ Hitems) in Hidx.
        destruct (items_remove_expected getVariantName level live f c _ groups
                    (live_nodup _ _ _ _ _ Hk) Hst Hin Hi Hb eq_refl Hgr)
          as (groups' & Heq & Hg').
        exists lm', groups'. by rewrite Hw, Hidx, Heq.
    + destruct (prefixb (split_on "/" f) level) eqn:Hf; [by left|].
      rewrite Hlev.
      destruct (levels _ _ _ _ _ Hk level Hnl (off_files_filter _ _ _ Hoff Hf))
        as [Hu|Hh]; [by left|right].
      eapply level_holds_ext; [|done]. intros v. by apply expected_filter_off.
Qed.

Lemma consistent_initial : consistent [] initial.
Proof.
  split.
  - intros filePath c. unfold Cache.get. cbn [cache initial].
    by rewrite lookup_empty.
  - apply skeleton_is_dir.
  - intros f c H. by apply elem_of_nil in H.
  - apply NoDup_nil_2.
  - intros e1 e2 H. by apply elem_of_nil in H.
  - intros level Hnl _. destruct level as [|x level].
    + right. eexists _, ∅. split; [reflexivity|]. split; [apply lookup_singleton_eq|].
      intros v. apply lookup_empty.
    + left. by apply walk_skeleton.
Qed.

Lemma consistent_same live w w' :
  data w' = data w → cache w' = cache w →
  consistent live w → consistent live w'.
Proof.
  intros Hd Hc Hk. split.
  - rewrite Hc. apply (cache_fresh _ _ _ _ _ Hk).
  - rewrite Hd. apply (root_dir _ _ _ _ _ Hk).
  - intros f c Hin. unfold get. rewrite Hd. apply (live_files _ _ _ _ _ Hk f c Hin).
  - apply (live_nodup _ _ _ _ _ Hk).
  - apply (live_apart _ _ _ _ _ Hk).
  - rewrite Hd. apply (levels _ _ _ _ _ Hk).
Qed.

(** An admissible step keeps the store in agreement with the ledger. *)
Lemma consistent_step live w o :
  consistent live w → admissible live w o = true →
  consistent (record o live) (exec o w).
Proof.
  intros Hk Hadm. destruct o as [dataDir f uc|f]; cbn [Ledger.record Ledger.exec].
  - unfold Ledger.admissible in Hadm. destruct (accepts f) eqn:Ha.
    + cbn [negb orb] in Hadm.
      apply andb_prop in Hadm as [[[[Hnew Hfree]%andb_prop Hst]%andb_prop _]%andb_prop _].
      apply consistent_add; try done.
      * by destruct (get f w).
      * intros e He. apply negb_true_iff.
        rewrite forallb_forall in Hfree. apply Hfree. by apply list_elem_of_In.
    + destruct (add_skips getVariantName getFileContents path_join postProcessor
                  dataDir f {| useStage := false; useCache := uc |} w Ha)
        as [Hd Hc].
      by apply (consistent_same live w).
  - unfold Ledger.admissible in Hadm. apply existsb_exists in Hadm as ([f' c] & Hin & Hfc).
    cbn [fst snd] in Hfc. apply andb_prop in Hfc as [->%String.eqb_eq Hi].
    apply consistent_remove with c; [done| |done]. by apply list_elem_of_In.
Qed.

Lemma consistent_run_from ops live w :
  consistent live w →
  admissible_run ops live w = true →
  consistent (fold_left (λ live o, record o live) ops live)
    (fold_left (λ w o, exec o w) ops w).
Proof.
  revert live w. induction ops as [|o ops IH]; intros live w Hk Hadm; [done|].
  cbn [Ledger.admissible_run] in Hadm. apply andb_prop in Hadm as [Ho Hrest].
  cbn [fold_left]. apply IH; [by apply consistent_step|done].
Qed.

(** C2, as amended.  Take any run of [add] and [remove] on the live
    tree, from the empty store, in which a file that is added is new
    (nothing is at its path, it does not lie under a file of the store,
    and what was parsed of it is an object or an array), is reached
    along names that no object inherits and, when it is served from the
    cache, from a cached document that carries no other file name; and
    in which a file that is removed is in the store and was parsed.
    Then [get] returns each file of the store, and every directory
    level of the tree, along names that no object inherits, has an
    index whose [main] holds exactly the parsed documents that are in
    the store at or below the level and are no variant, oldest first,
    and whose [variants] holds under each variant name exactly the
    parsed documents of that variant at or below the level, with no
    entry for a name that has none.  Documents that were not parsed are
    in the tree and in no index. *)
Theorem index_after_run ops :
  admissible_run ops [] initial = true →
  (∀ f c, (f, c) ∈ ledger ops → get f (run ops initial) = stored f c)
  ∧ ∀ level,
      JSON_ITEMS ∉ level →
      forallb Names.plain_name level = true →
      off_files (ledger ops) level →
      walk level (data (run ops initial)) = VUndef
      ∨ ∃ m groups,
          walk level (data (run ops initial)) = VObj m
          ∧ m !! JSON_ITEMS
            = Some (index_value (expected None level (ledger ops)) groups)
          ∧ ∀ v, groups !! v
                 = match expected (Some v) level (ledger ops) with
                   | [] => None
                   | docs => Some (VArr docs ∅)
                   end.
Proof.
  intros Hadm.
  pose proof (consistent_run_from ops [] initial consistent_initial Hadm) as Hk.
  split.
  - intros f c Hin. by destruct (live_files _ _ _ _ _ Hk f c Hin) as (_ & _ & ?).
  - intros level Hnl _ Hoff. apply (levels _ _ _ _ _ Hk level Hnl Hoff).
Qed.

End Consistency.

Section LedgerExamples.

#[local] Abbreviation demo_run :=
  (run Demo.getVariantName Demo.getFileContents Demo.path_join None).
#[local] Abbreviation demo_ledger :=
  (ledger Demo.getFileContents Demo.path_join None).
#[local] Abbreviation demo_expected := (expected Demo.getVariantName).

Lemma index_after_run_witness :
  ∃ m groups,
    walk ["en"] (data (demo_run Demo.editing initial)) = VObj m
    ∧ m !! JSON_ITEMS
      = Some (index_value (demo_expected None ["en"] (demo_ledger Demo.editing)) groups)
    ∧ groups !! "teaser" = None.
Proof.
  destruct (index_after_run Demo.getVariantName Demo.getFileContents Demo.path_join
              None Demo.editing) as [_ Hlev].
  - vm_compute. reflexivity.
  - destruct (Hlev ["en"]) as [Hu|(m & groups & Hm & Hi & Hg)].
    + intros H. apply list_elem_of_singleton in H. discriminate H.
    + reflexivity.
    + intros e He. vm_compute in He.
      repeat (apply elem_of_cons in He as [->|He]; [reflexivity|]).
      by apply elem_of_nil in He.
    + vm_compute in Hu. discriminate Hu.
    + exists m, groups. split; [exact Hm|]. split; [exact Hi|].
      rewrite (Hg "teaser"). vm_compute. reflexivity.
Defined.

(** C2 as stated fails: a text file is a document of the store and is
    in no index. *)
Lemma text_file_not_indexed :
  ¬ (∀ ops,
       own_prop (own_prop (data (demo_run ops initial)) JSON_ITEMS) MAIN
       = VArr (ingested Demo.getVariantName None [] (demo_ledger ops)) ∅).
Proof.
  intros H. specialize (H [Add "data" "notes" false]).
  vm_compute in H. discriminate H.
Qed.

End LedgerExamples.

End LedgerFacts.

(** ** The cache *)

Module CacheFacts.

Section CacheFacts.
Context {V : Type}.
Implicit Types (data : gmap string (gmap string V)) (bin key : string).

Lemma get_set_same bin key (value : V) data :
  Cache.get bin key (Cache.set bin key value data) = Some value.
Proof.
  unfold Cache.get, Cache.set. destruct (data !! bin) as [items|] eqn:E.
  - rewrite E, lookup_insert_eq. apply lookup_insert_eq.
  - by rewrite !lookup_insert_eq.
Qed.

Lemma set_other_bin bin bin' key (value : V) data :
  bin' ≠ bin → Cache.set bin key value data !! bin' = data !! bin'.
Proof.
  intros Hne. unfold Cache.set. destruct (data !! bin) as [items|] eqn:E.
  - rewrite E. by rewrite lookup_insert_ne.
  - rewrite lookup_insert_eq. by rewrite !lookup_insert_ne.
Qed.

Lemma set_same_bin bin key (value : V) data :
  Cache.set bin key value data !! bin
  = Some (<[key:=value]> (default ∅ (data !! bin))).
Proof.
  unfold Cache.set. destruct (data !! bin) as [items|] eqn:E.
  - rewrite E. by rewrite lookup_insert_eq.
  - by rewrite !lookup_insert_eq.
Qed.

(** X1.  What [cache.get] returns after [cache.set], for bins and keys
    that are not names every object inherits: the value just set under
    the bin and key of the call, and under any other bin or key what
    it returned before. *)
Theorem get_after_set bin key (value : V) bin' key' data :
  Names.plain_name bin = true → Names.plain_name key = true →
  Names.plain_name bin' = true → Names.plain_name key' = true →
  Cache.get bin' key' (Cache.set bin key value data)
  = if decide (bin' = bin ∧ key' = key) then Some value
    else Cache.get bin' key' data.
Proof.
  intros _ _ _ _. destruct (decide (bin' = bin ∧ key' = key)) as [[-> ->]|Hne].
  - apply get_set_same.
  - unfold Cache.get. destruct (decide (bin' = bin)) as [->|Hb].
    + rewrite set_same_bin. rewrite lookup_insert_ne by (intros ->; by apply Hne).
      destruct (data !! bin); [done|]. apply lookup_empty.
    + by rewrite set_other_bin.
Qed.

(** X2.  What [cache.get] returns after [cache.remove] and after
    [cache.reset], for bins and keys that are not names every object
    inherits: nothing under the key removed, nothing in the bin that
    was reset, and everywhere else what it returned before. *)
Theorem get_after_remove_and_reset bin key bin' key' data :
  Names.plain_name bin = true → Names.plain_name key = true →
  Names.plain_name bin' = true → Names.plain_name key' = true →
  Cache.get bin' key' (Cache.remove bin key data)
  = (if decide (bin' = bin ∧ key' = key) then None else Cache.get bin' key' data)
  ∧ Cache.get bin' key' (Cache.reset bin data)
    = (if decide (bin' = bin) then None else Cache.get bin' key' data).
Proof.
  intros _ _ _ _. split.
  - unfold Cache.get, Cache.remove.
    destruct (decide (bin' = bin ∧ key' = key)) as [[-> ->]|Hne].
    + destruct (data !! bin) as [items|] eqn:E.
      * rewrite lookup_insert_eq. apply lookup_delete_eq.
      * by rewrite E.
    + destruct (decide (bin' = bin)) as [->|Hb].
      * destruct (data !! bin) as [items|] eqn:E; [|by rewrite E].
        rewrite lookup_insert_eq. apply lookup_delete_ne. intros ->. by apply Hne.
      * destruct (data !! bin) as [items|]; [|done]. by rewrite lookup_insert_ne.
  - unfold Cache.get, Cache.reset. destruct (decide (bin' = bin)) as [->|Hb].
    + rewrite lookup_insert_eq. apply lookup_empty.
    + by rewrite lookup_insert_ne.
Qed.

(** X3.  [cache.countItems] counts the keys of a bin, for bins and keys
    that are not names every object inherits: [set] adds one when the
    key is new to the bin and none when it replaces a value, [remove]
    takes one off when the key was there, [reset] leaves none, and no
    call changes the count of another bin. *)
Theorem countItems_counts bin key (value : V) data :
  Names.plain_name bin = true → Names.plain_name key = true →
  Cache.countItems bin (Cache.set bin key value data)
  = match Cache.get bin key data with
    | Some _ => Cache.countItems bin data
    | None => S (Cache.countItems bin data)
    end
  ∧ Cache.countItems bin (Cache.remove bin key data)
    = match Cache.get bin key data with
      | Some _ => pred (Cache.countItems bin data)
      | None => Cache.countItems bin data
      end
  ∧ Cache.countItems bin (Cache.reset bin data) = 0%nat
  ∧ ∀ bin', Names.plain_name bin' = true → bin' ≠ bin →
      Cache.countItems bin' (Cache.set bin key value data) = Cache.countItems bin' data
      ∧ Cache.countItems bin' (Cache.remove bin key data) = Cache.countItems bin' data
      ∧ Cache.countItems bin' (Cache.reset bin data) = Cache.countItems bin' data.
Proof.
  intros _ _. split; [|split; [|split]].
  - unfold Cache.countItems, Cache.get. rewrite set_same_bin.
    destruct (data !! bin) as [items|]; cbn [default].
    + destruct (items !! key) eqn:E.
      * by rewrite map_size_insert_Some.
      * by rewrite map_size_insert_None.
    + rewrite map_size_insert_None by apply lookup_empty. by rewrite map_size_empty.
  - unfold Cache.countItems, Cache.get, Cache.remove.
    destruct (data !! bin) as [items|] eqn:E; [|by rewrite E].
    rewrite lookup_insert_eq. destruct (items !! key) eqn:Ek.
    + by rewrite map_size_delete_Some.
    + by rewrite map_size_delete_None.
  - unfold Cache.countItems, Cache.reset. rewrite lookup_insert_eq. apply map_size_empty.
  - intros bin' _ Hne. unfold Cache.countItems.
    rewrite set_other_bin by done. split; [done|]. split.
    + unfold Cache.remove. destruct (data !! bin); [|done]. by rewrite lookup_insert_ne.
    + unfold Cache.reset. by rewrite lookup_insert_ne.
Qed.

End CacheFacts.

(** Two files go into the bin [file] of an empty cache. *)
Lemma get_after_set_witness :
  Cache.get "file" "data/a.json"
    (Cache.set "file" "data/b.json" 2%nat (Cache.set "file" "data/a.json" 1%nat ∅))
  = Some 1%nat.
Proof.
  rewrite (get_after_set "file" "data/b.json" 2%nat "file" "data/a.json"
             (Cache.set "file" "data/a.json" 1%nat ∅)
             eq_refl eq_refl eq_refl eq_refl).
  reflexivity.
Defined.

Lemma get_after_remove_and_reset_witness :
  Cache.get "file" "data/a.json"
    (Cache.remove "file" "data/a.json" (Cache.set "file" "data/a.json" 1%nat ∅))
  = None
  ∧ Cache.get "file" "data/a.json"
      (Cache.reset "file" (Cache.set "file" "data/a.json" 1%nat ∅))
    = None.
Proof.
  destruct (get_after_remove_and_reset "file" "data/a.json" "file" "data/a.json"
              (Cache.set "file" "data/a.json" 1%nat ∅)
              eq_refl eq_refl eq_refl eq_refl) as [H1 H2].
  split.
  - etransitivity; [exact H1|]. reflexivity.
  - etransitivity; [exact H2|]. reflexivity.
Defined.

Lemma countItems_counts_witness :
  Cache.countItems "file" (Cache.set "file" "data/a.json" 1%nat ∅) = 1%nat
  ∧ Cache.countItems "file"
      (Cache.reset "file" (Cache.set "file" "data/a.json" 1%nat ∅))
    = 0%nat.
Proof.
  destruct (countItems_counts "file" "data/a.json" 1%nat
              (∅ : gmap string (gmap string nat)) eq_refl eq_refl)
    as (H1 & _).
  destruct (countItems_counts "file" "data/a.json" 1%nat
              (Cache.set "file" "data/a.json" 1%nat ∅) eq_refl eq_refl)
    as (_ & _ & H3 & _).
  split.
  - etransitivity; [exact H1|]. reflexivity.
  - exact H3.
Defined.

End CacheFacts.

(** ** The module registry *)

Module RegistryFacts.
Import ModuleHandler ModuleInit.

Section RegistryFacts.
Context {Handle : Type}.
Variable handle_truthy : Handle → bool.
Variable require : string → option Handle.
Variable resolvable : string → bool.
Variable findFilesInDir : string → string → list string.
Variable path_join : string → string → string.

#[local] Abbreviation load := (load handle_truthy require).
#[local] Abbreviation get := (get handle_truthy require).
#[local] Abbreviation remove := (remove resolvable).
#[local] Abbreviation usable := (usable handle_truthy).
#[local] Abbreviation reload := (reload handle_truthy require resolvable).
#[local] Abbreviation load_found :=
  (load_found handle_truthy require resolvable path_join).
#[local] Abbreviation loadable := (loadable handle_truthy require resolvable).
#[local] Abbreviation init :=
  (init handle_truthy require resolvable findFilesInDir path_join).
#[local] Abbreviation targets := (targets findFilesInDir path_join).

Lemma load_other modulePath other r :
  other ≠ modulePath →
  modules (load modulePath r).1 !! other = modules r !! other.
Proof.
  intros Hne. unfold ModuleHandler.load.
  destruct (require modulePath) as [h|]; [destruct (handle_truthy h)|]; cbn;
    rewrite ?lookup_insert_ne by done; by apply lookup_delete_ne.
Qed.

Lemma load_same modulePath r :
  modules (load modulePath r).1 !! modulePath = require modulePath.
Proof.
  unfold ModuleHandler.load. destruct (require modulePath) as [h|]; cbn.
  - destruct (handle_truthy h); cbn; apply lookup_insert_eq.
  - apply lookup_delete_eq.
Qed.

Lemma load_returned modulePath r h :
  (load modulePath r).2 = Returned h →
  require modulePath = Some h ∧ handle_truthy h = true.
Proof.
  unfold ModuleHandler.load. destruct (require modulePath) as [h'|]; [|done].
  destruct (handle_truthy h') eqn:E; [|done]. cbn. by intros [= ->].
Qed.


(** X5.  [remove] of a module path that is not a name every object
    inherits writes its log line first and then resolves the path.
    When the path resolves, the entry is gone and the next [get] loads
    the module anew; when it does not, [remove] throws and the registry
    keeps every entry, that of the path included, although the log
    says the removal is done.  No other entry is touched. *)
Theorem get_after_remove modulePath r :
  Names.plain_name modulePath = true →
  debug_log (remove modulePath r).1
  = (debug_log r ++ [("Remove for " ++ modulePath ++ " done.")%string])%list
  ∧ (∀ other, other ≠ modulePath →
       modules (remove modulePath r).1 !! other = modules r !! other)
  ∧ if resolvable modulePath
    then (remove modulePath r).2 = Returned tt
         ∧ modules (remove modulePath r).1 !! modulePath = None
         ∧ get modulePath (remove modulePath r).1
           = load modulePath (remove modulePath r).1
    else (remove modulePath r).2 = Thrown ResolveFailed
         ∧ modules (remove modulePath r).1 = modules r.
Proof.
  intros _.
  unfold ModuleHandler.remove. destruct (resolvable modulePath); cbn [fst snd].
  - split; [done|]. split.
    + intros other Hne. cbn. by apply lookup_delete_ne.
    + split; [done|]. cbn [modules]. split; [apply lookup_delete_eq|].
      unfold ModuleHandler.get. cbn [modules]. by rewrite lookup_delete_eq.
  - done.
Qed.

Lemma reload_failed modulePath r :
  failed (reload modulePath r).2 = negb (loadable modulePath).
Proof.
  unfold ModuleInit.reload, ModuleInit.loadable, ModuleHandler.load.
  destruct (resolvable modulePath); [|done].
  destruct (require modulePath) as [h|]; [|done]. by destruct (handle_truthy h).
Qed.

Lemma reload_same modulePath r :
  loadable modulePath = true →
  modules (reload modulePath r).1 !! modulePath = require modulePath.
Proof.
  unfold ModuleInit.reload, ModuleInit.loadable.
  destruct (resolvable modulePath); [|done]. intros _. apply load_same.
Qed.

Lemma reload_other modulePath other r :
  other ≠ modulePath →
  modules (reload modulePath r).1 !! other = modules r !! other.
Proof.
  intros Hne. unfold ModuleInit.reload.
  destruct (resolvable modulePath); [|done]. by apply load_other.
Qed.

Lemma load_found_all queryDir allQueryModules r :
  let modulePaths := map (path_join queryDir) allQueryModules in
  failed (load_found queryDir allQueryModules r).2 = negb (forallb loadable modulePaths)
  ∧ (forallb loadable modulePaths = true →
     ∀ modulePath, modulePath ∈ modulePaths →
       modules (load_found queryDir allQueryModules r).1 !! modulePath
       = require modulePath)
  ∧ ∀ other, other ∉ modulePaths →
      modules (load_found queryDir allQueryModules r).1 !! other = modules r !! other.
Proof.
  cbv zeta. revert r. induction allQueryModules as [|f fs IH]; intros r.
  - split; [done|]. split; [|done]. intros _ q Hq. by apply elem_of_nil in Hq.
  - cbn [ModuleInit.load_found forallb map]. set (p := path_join queryDir f).
    pose proof (reload_failed p r) as Hf.
    pose proof (reload_same p r) as Hs.
    pose proof (λ q, reload_other p q r) as Ho.
    destruct (ModuleInit.reload _ _ _ p r) as [r1 [h|e]]; cbn [fst snd failed] in *.
    + destruct (loadable p); [|done]. cbn [andb].
      destruct (IH r1) as (IH1 & IH2 & IH3). split; [done|]. split.
      * intros Hall q [->|Hq]%elem_of_cons.
        -- destruct (decide (p ∈ map (path_join queryDir) fs)) as [Hin|Hnin];
             [by apply IH2|].
           rewrite IH3 by done. by apply Hs.
        -- by apply IH2.
      * intros q [Hq Hqs]%not_elem_of_cons. rewrite IH3 by done. by apply Ho.
    + destruct (loadable p); [done|]. cbn [andb negb]. split; [done|].
      split; [done|]. intros q [Hq _]%not_elem_of_cons. by apply Ho.
Qed.

(** The second half of [init]: the post-processor, after the query
    modules [found]. *)
Lemma init_tail config found r1 (o : outcome unit) :
  failed o = negb (forallb loadable found) →
  (forallb loadable found = true →
   ∀ modulePath, modulePath ∈ found → modules r1 !! modulePath = require modulePath) →
  let last :=
    match given (postProcessor config) with
    | Some postProcessor => [postProcessor]
    | None => []
    end in
  let result :=
    match o with
    | Returned _ =>
        match given (postProcessor config) with
        | Some postProcessor =>
            match reload postProcessor r1 with
            | (r2, Returned _) => (r2, Returned tt)
            | (r2, Thrown e) => (r2, Thrown e)
            end
        | None => (r1, Returned tt)
        end
    | Thrown e => (r1, Thrown e)
    end in
  failed result.2 = negb (forallb loadable found && forallb loadable last)
  ∧ (forallb loadable found && forallb loadable last = true →
     ∀ modulePath, modulePath ∈ (found ++ last)%list →
       modules result.1 !! modulePath = require modulePath).
Proof.
  intros Hf Hin. cbv zeta.
  destruct o as [[]|e]; cbn [failed] in Hf; symmetry in Hf.
  2:{ apply negb_true_iff in Hf. by rewrite Hf. }
  apply negb_false_iff in Hf. rewrite Hf. cbn [andb].
  destruct (given (postProcessor config)) as [pp|].
  - cbn [forallb]. rewrite andb_true_r.
    pose proof (reload_failed pp r1) as Hfp.
    pose proof (reload_same pp r1) as Hsp.
    pose proof (λ q, reload_other pp q r1) as Hop.
    destruct (ModuleInit.reload _ _ _ pp r1) as [r2 [h|e]]; cbn [fst snd failed] in *.
    + split; [done|]. intros Hl q [Hq|Hq%list_elem_of_singleton]%elem_of_app.
      * destruct (decide (q = pp)) as [->|Hne]; [by apply Hsp|].
        rewrite Hop by done. by apply Hin.
      * subst q. by apply Hsp.
    + split; [done|]. intros Hl. by rewrite Hl in Hfp.
  - cbn [forallb snd fst failed negb]. split; [done|]. intros _ q Hq.
    rewrite app_nil_r in Hq. by apply Hin.
Qed.

Lemma init_all config r :
  failed (init config r).2 = negb (forallb loadable (targets config))
  ∧ (forallb loadable (targets config) = true →
     ∀ modulePath, modulePath ∈ targets config →
       modules (init config r).1 !! modulePath = require modulePath).
Proof.
  unfold ModuleInit.init, ModuleInit.targets. rewrite forallb_app.
  destruct (given (queryDir config)) as [dir|]; cbv zeta.
  - destruct (load_found_all dir (findFilesInDir dir "**/*.js") r) as (H1 & H2 & _).
    cbv zeta in *.
    destruct (ModuleInit.load_found _ _ _ _ dir _ r) as [r1 o]. cbn [fst snd] in *.
    by apply (init_tail config _ r1 o).
  - apply (init_tail config [] r (Returned tt)); [done|].
    intros _ q Hq. by apply elem_of_nil in Hq.
Qed.


End RegistryFacts.


(** A module that is in the registry and resolves is removed; a path
    that does not resolve is not. *)
Lemma get_after_remove_witness :
  modules (remove (λ _, true) "queries/latest.js"
             {| modules := {[ "queries/latest.js" := true ]}; debug_log := [] |}).1
  !! "queries/latest.js" = None
  ∧ modules (remove (λ _, false) "queries/latest.js"
               {| modules := {[ "queries/latest.js" := true ]}; debug_log := [] |}).1
    = {[ "queries/latest.js" := true ]}.
Proof.
  destruct (get_after_remove id (λ _, Some true) (λ _, true) "queries/latest.js"
              {| modules := {[ "queries/latest.js" := true ]}; debug_log := [] |}
              eq_refl) as (_ & _ & _ & H1 & _).
  destruct (get_after_remove id (λ _, Some true) (λ _, false) "queries/latest.js"
              {| modules := {[ "queries/latest.js" := true ]}; debug_log := [] |}
              eq_refl) as (_ & _ & _ & H2).
  exact (conj H1 H2).
Defined.

End RegistryFacts.

(** ** The passes of the include parser *)

Module PassFacts.
Import JS IncludeParser Calls IncludeParserFacts.

Lemma substring_all s : String.substring 0 (String.length s) s = s.
Proof. induction s as [|c s IH]; [done|]. simpl. by rewrite IH. Qed.

Lemma substring_cut s i :
  (i ≤ String.length s)%nat →
  s = (String.substring 0 i s ++ String.substring i (String.length s - i) s)%string.
Proof.
  revert i. induction s as [|c s IH]; intros i Hi.
  - simpl in Hi. by replace i with 0%nat by lia.
  - destruct i as [|i].
    + change (String.substring 0 0 (String c s)) with EmptyString.
      rewrite Nat.sub_0_r. by rewrite substring_all.
    + simpl in Hi. simpl.
      change (String c s
              = String c (String.substring 0 i s
                          ++ String.substring i (String.length s - i) s)%string).
      f_equal. apply IH. lia.
Qed.

Lemma endsWith_refl s : endsWith s s = true.
Proof.
  unfold endsWith. rewrite Nat.leb_refl, Nat.sub_diag, substring_all.
  apply String.eqb_refl.
Qed.

Lemma endsWith_spec s suffix :
  endsWith s suffix = true ↔ ∃ front, s = (front ++ suffix)%string.
Proof.
  split.
  - unfold endsWith. intros [Hk He]%andb_prop.
    apply Nat.leb_le in Hk. apply String.eqb_eq in He.
    exists (String.substring 0 (String.length s - String.length suffix) s).
    rewrite <- He at 2.
    replace (String.length suffix)
      with (String.length s - (String.length s - String.length suffix))%nat at 3 by lia.
    apply substring_cut. lia.
  - intros [front ->]. apply endsWith_append, endsWith_refl.
Qed.

Lemma append_same_end (f1 a f2 b : string) :
  (f1 ++ a = f2 ++ b)%string →
  (String.length a ≤ String.length b)%nat →
  ∃ g, b = (g ++ a)%string.
Proof.
  revert f1. induction f2 as [|c f2 IH]; intros f1 H Hl.
  - exists f1. by rewrite H.
  - destruct f1 as [|c1 f1].
    + exfalso. change (a = String c (f2 ++ b)%string) in H.
      rewrite H in Hl. simpl in Hl. rewrite length_append in Hl. lia.
    + change (String c1 (f1 ++ a) = String c (f2 ++ b))%string in H.
      injection H as _ H. by apply (IH f1).
Qed.

(** Two suffixes of one string: the shorter is a suffix of the longer. *)
Lemma endsWith_both s a b :
  endsWith s a = true → endsWith s b = true →
  (String.length a ≤ String.length b)%nat →
  endsWith b a = true.
Proof.
  intros [f1 H1]%endsWith_spec [f2 H2]%endsWith_spec Hl.
  apply endsWith_spec. apply (append_same_end f1 a f2 b); [congruence|done].
Qed.

Lemma split_on_last_segment_empty sep s :
  last (split_on sep s) = Some EmptyString →
  s = EmptyString ∨ ∃ front, s = (front ++ String sep EmptyString)%string.
Proof.
  induction s as [|c s IH]; [by left|]. simpl. intros H. right.
  destruct (JSFacts.split_on_cons sep s) as (x & r & E). rewrite E in *.
  destruct (Ascii.eqb_spec c sep) as [->|Hne].
  - rewrite last_cons_cons in H. destruct (IH H) as [->|[front ->]].
    + by exists EmptyString.
    + by exists (String sep front).
  - destruct r as [|y r]; [done|]. rewrite !last_cons_cons in H.
    destruct IH as [->|[front ->]].
    + by rewrite last_cons_cons.
    + done.
    + by exists (String c front).
Qed.

(** The last segment of a reference the dynamic pass takes up is not
    empty. *)
Lemma query_key_truthy includePath :
  endsWith (toLowerCase includePath) "queryinclude" = true →
  ∃ key, last (split_on "." includePath) = Some key ∧ truthy (VStr key) = true.
Proof.
  intros He.
  destruct (JSFacts.split_on_cons "." includePath) as (x & r & E).
  destruct (last (split_on "." includePath)) as [key|] eqn:Hl.
  2:{ apply last_None in Hl. by rewrite E in Hl. }
  exists key. split; [done|]. destruct key as [|c key]; [|done]. exfalso.
  destruct (split_on_last_segment_empty _ _ Hl) as [->|[front ->]]; [done|].
  rewrite toLowerCase_append in He.
  assert (endsWith (toLowerCase front ++ toLowerCase ".") "." = true) as Hd
    by (by apply endsWith_append).
  pose proof (endsWith_both _ _ _ Hd He) as Hx.
  discriminate Hx. simpl. lia.
Qed.

(** A reference the dynamic pass takes up ends in none of the suffixes
    of the static pass. *)
Lemma query_not_static includePath key suffix :
  endsWith (toLowerCase includePath) "queryinclude" = true →
  last (split_on "." includePath) = Some key →
  suffix ∈ static_suffixes →
  endsWith (toLowerCase key) suffix = false.
Proof.
  intros Hq Hl Hs.
  destruct (endsWith (toLowerCase key) suffix) eqn:E; [|done]. exfalso.
  pose proof (endsWith_last_segment _ _ _ Hl E) as Hp.
  assert (String.length "queryinclude" ≤ String.length suffix)%nat as Hlen.
  { unfold static_suffixes in Hs.
    repeat (apply elem_of_cons in Hs as [->|Hs]; [simpl; lia|]).
    by apply elem_of_nil in Hs. }
  pose proof (endsWith_both _ _ _ Hq Hp Hlen) as Hx.
  unfold static_suffixes in Hs.
  repeat (apply elem_of_cons in Hs as [->|Hs]; [discriminate Hx|]).
  by apply elem_of_nil in Hs.
Qed.

Section PassFacts.
Variable store_get : value → value.
Variable getObjectValue : value → string → value.
Variable queryRunner_run : string → value → value.
Variable configIncludeParser : value → value → list string → string → value.
Variable entityIncludeParser : value → value → list string → string → value.
Variable customIncludeParser : value → value → list string → string → value.
Variable localeIncludeParser : value → value → list string → string → value.
Variable aliasWithoutTypeIncludeParser :
  value → value → list string → string → string → value.

#[local] Abbreviation static_step :=
  (static_step store_get getObjectValue configIncludeParser entityIncludeParser
     customIncludeParser localeIncludeParser).
#[local] Abbreviation static_each :=
  (static_each store_get getObjectValue configIncludeParser entityIncludeParser
     customIncludeParser localeIncludeParser).
#[local] Abbreviation static_run :=
  (static_run store_get getObjectValue configIncludeParser entityIncludeParser
     customIncludeParser localeIncludeParser).
#[local] Abbreviation dynamic_step :=
  (dynamic_step getObjectValue queryRunner_run aliasWithoutTypeIncludeParser).
#[local] Abbreviation dynamic_each :=
  (dynamic_each getObjectValue queryRunner_run aliasWithoutTypeIncludeParser).
#[local] Abbreviation dynamic_run :=
  (dynamic_run getObjectValue queryRunner_run aliasWithoutTypeIncludeParser).

Lemma static_suffix_in suffix :
  suffix = "configinclude" ∨ suffix = "entityinclude"
  ∨ suffix = "custominclude" ∨ suffix = "localeinclude" →
  suffix ∈ static_suffixes.
Proof.
  unfold static_suffixes. rewrite !elem_of_cons. tauto.
Qed.

(** X7.  No reference is taken up by both passes: the static pass
    leaves alone, with no call and the document as it was, every
    reference that ends in [queryinclude], which are the ones the
    dynamic pass works on; on any other reference the dynamic pass does
    nothing. *)
Theorem passes_disjoint includePath st :
  (endsWith (toLowerCase includePath) "queryinclude" = true →
   static_step includePath st = st)
  ∧ (endsWith (toLowerCase includePath) "queryinclude" = false →
     dynamic_step includePath st = (st, Normal)).
Proof.
  split.
  - intros Hq. unfold IncludeParser.static_step, pop, static_if.
    destruct (last (split_on "." includePath)) as [key|] eqn:Hl; [|done].
    destruct (truthy (VStr key)); [|done].
    rewrite !(query_not_static includePath key) by (done || apply static_suffix_in; tauto).
    by destruct st.
  - intros Hq. unfold IncludeParser.dynamic_step. by rewrite Hq.
Qed.

Ltac two_suffixes Ha Hb :=
  exfalso;
  let E := fresh in
  pose proof (λ Hl, endsWith_same_length _ _ _ Hl Ha Hb) as E;
  specialize (E eq_refl); discriminate E.

Ltac no_mount :=
  exists []; split; [by rewrite app_nil_r|split; [simpl; lia|done]].

(** One reference makes the static pass mount at most once, with one of
    its four strategies. *)
Lemma static_step_mounts includePath st :
  ∃ calls,
    (static_step includePath st).2 = (st.2 ++ calls)%list
    ∧ (length calls ≤ 1)%nat
    ∧ forallb is_static_mount calls = true.
Proof.
  unfold IncludeParser.static_step, pop, static_if.
  destruct (last (split_on "." includePath)) as [k|]; cbv beta iota zeta;
    [|no_mount].
  destruct (truthy (VStr k)); [|no_mount].
  destruct (endsWith (toLowerCase k) "configinclude") eqn:E1;
    destruct (endsWith (toLowerCase k) "entityinclude") eqn:E2;
    destruct (endsWith (toLowerCase k) "custominclude") eqn:E3;
    destruct (endsWith (toLowerCase k) "localeinclude") eqn:E4;
    try (two_suffixes E1 E2); try (two_suffixes E1 E3); try (two_suffixes E1 E4);
    try (two_suffixes E2 E3); try (two_suffixes E2 E4); try (two_suffixes E3 E4);
    cbn [fst snd];
    first [ by (eexists [_]; split; [reflexivity|split; [simpl; lia|done]])
          | no_mount ].
Qed.

Lemma static_each_mounts paths st :
  ∃ calls,
    (static_each paths st).1.2 = (st.2 ++ calls)%list
    ∧ (length calls ≤ length paths)%nat
    ∧ forallb is_static_mount calls = true.
Proof.
  revert st. induction paths as [|p paths IH]; intros st.
  - no_mount.
  - destruct p as [| | | |includePath| |]; try no_mount.
    cbn [IncludeParser.static_each].
    destruct (static_step_mounts includePath st) as (c1 & H1 & L1 & M1).
    destruct (IH (static_step includePath st)) as (c2 & H2 & L2 & M2).
    exists (c1 ++ c2)%list. rewrite H2, H1, <- app_assoc. split; [done|].
    rewrite length_app, forallb_app, M1, M2. split; [simpl; lia|done].
Qed.

(** X8.  Over a whole document the static pass mounts at most once for
    each reference the document declares, always with one of its four
    strategies; it never runs a query. *)
Theorem static_run_mounts fileContent :
  (length (static_run fileContent).1.2
   ≤ length (default [] (includes_of fileContent)))%nat
  ∧ forallb is_static_mount (static_run fileContent).1.2 = true.
Proof.
  unfold IncludeParser.static_run.
  destruct (includes_of fileContent) as [paths|]; [|simpl; split; [lia|done]].
  destruct (static_each_mounts paths (fileContent, [])) as (calls & H & L & M).
  rewrite H. cbn [snd app default]. done.
Qed.

Lemma paired_app run l1 l2 :
  paired run l1 → paired run l2 → paired run (l1 ++ l2).
Proof.
  induction 1 as [|q a mp k rest H IH]; [done|]. intros H2.
  cbn [app]. constructor. by apply IH.
Qed.

Lemma dynamic_step_pairs includePath st :
  ∃ calls,
    (dynamic_step includePath st).1.2 = (st.2 ++ calls)%list
    ∧ paired queryRunner_run calls.
Proof.
  unfold IncludeParser.dynamic_step, pop.
  destruct (endsWith (toLowerCase includePath) "queryinclude") eqn:Hq;
    [|exists []; split; [by rewrite app_nil_r|constructor]].
  destruct (getObjectValue st.1 includePath) as [| | | |reference| |];
    try (exists []; split; [by rewrite app_nil_r|constructor]).
  destruct (query_key_truthy _ Hq) as (key & -> & ->).
  destruct (match split_on "?" reference !! 1%nat with
            | Some q => if truthy (VStr q) then parseParams q else Some (VObj ∅)
            | None => Some (VObj ∅)
            end) as [queryArgs|];
    [|exists []; split; [by rewrite app_nil_r|constructor]].
  cbn [fst snd]. eexists [_; _]. rewrite <- app_assoc. split; [reflexivity|].
  repeat constructor.
Qed.

Lemma dynamic_each_pairs paths st :
  ∃ calls,
    (dynamic_each paths st).1.2 = (st.2 ++ calls)%list
    ∧ paired queryRunner_run calls.
Proof.
  revert st. induction paths as [|p paths IH]; intros st.
  - exists []. split; [by rewrite app_nil_r|constructor].
  - destruct p as [| | | |includePath| |];
      try (exists []; split; [by rewrite app_nil_r|constructor]).
    cbn [IncludeParser.dynamic_each].
    destruct (dynamic_step_pairs includePath st) as (c1 & H1 & P1).
    destruct (IncludeParser.dynamic_step _ _ _ includePath st) as [st1 c] eqn:E.
    cbn [fst] in H1. destruct (is_normal c).
    + destruct (IH st1) as (c2 & H2 & P2).
      exists (c1 ++ c2)%list. rewrite H2, H1, <- app_assoc. split; [done|].
      by apply paired_app.
    + by exists c1.
Qed.

(** X9.  Whatever the document, and whether the pass gets to its end or
    fails on the way, the calls of the dynamic pass come in pairs: each
    query it runs is followed at once by the mount, under the tag
    [query], of what the query runner returned.  The guard on the last
    segment of the reference never keeps a result from being
    mounted. *)
Theorem dynamic_run_pairs fileContent :
  paired queryRunner_run (dynamic_run fileContent).1.2.
Proof.
  unfold IncludeParser.dynamic_run.
  destruct (includes_of fileContent) as [paths|]; [|constructor].
  destruct (dynamic_each_pairs paths (fileContent, [])) as (calls & H & P).
  by rewrite H.
Qed.

Lemma dynamic_each_app l1 l2 st :
  dynamic_each (l1 ++ l2) st
  = let '(st1, c) := dynamic_each l1 st in
    if is_normal c then dynamic_each l2 st1 else (st1, c).
Proof.
  revert st. induction l1 as [|p l1 IH]; intros st; [done|].
  destruct p as [| | | |includePath| |]; try done.
  cbn [app IncludeParser.dynamic_each].
  destruct (IncludeParser.dynamic_step _ _ _ includePath st) as [st1 c].
  destruct (is_normal c) eqn:E; [apply IH|]. by rewrite E.
Qed.

(** X26.  The dynamic pass on a query reference of a document.  The
    references before it have been dealt with; its last segment ends,
    whatever the case, in [queryinclude], and its value in the document
    is a string.  The pass cuts the string at [?], takes the first
    piece as the query id and decodes the second, when it is there and
    not empty, into the parameters, calls the query runner with both,
    hands the result, with the mount path, the key and the tag
    [query], to the alias mounting strategy, and goes on with the
    references after it.  When the name [__proto__] occurs at most
    once in a query string, the decoded parameters have no property
    of their own under [__proto__]; under any other name they hold the
    value when the name occurs once and the sequence of its values
    when it occurs more often. *)
Theorem dynamic_run_query m meta props before includePath after st key reference
    queryId pieces queryArgs :
  m !! "metadata" = Some (VObj meta) →
  meta !! "includes" = Some (VArr (before ++ VStr includePath :: after) props) →
  dynamic_each before (VObj m, []) = (st, Normal) →
  last (split_on "." includePath) = Some key →
  endsWith (toLowerCase key) "queryinclude" = true →
  getObjectValue st.1 includePath = VStr reference →
  split_on "?" reference = queryId :: pieces →
  match pieces with
  | q :: _ => if String.eqb q "" then Some (VObj ∅) else parseParams q
  | [] => Some (VObj ∅)
  end = Some queryArgs →
  let includeData := queryRunner_run queryId queryArgs in
  let mountPointPath := removelast (split_on "." includePath) in
  dynamic_run (VObj m)
  = dynamic_each after
      (aliasWithoutTypeIncludeParser st.1 includeData mountPointPath key "query",
       (st.2 ++ [QueryRun queryId queryArgs;
                 Mount (AliasWithoutType "query") includeData mountPointPath key])%list)
  ∧ ∀ queryString,
      (length (getAll "__proto__" (URLSearchParams queryString)) ≤ 1)%nat →
      ∃ obj,
        parseParams queryString = Some (VObj obj)
        ∧ obj !! "__proto__" = None
        ∧ ∀ name, name ≠ "__proto__" →
            obj !! name
            = match getAll name (URLSearchParams queryString) with
              | [] => None
              | [v] => Some (VStr v)
              | vs => Some (VArr (map VStr vs) ∅)
              end.
Proof.
  intros Hm Hmeta Hb Hlast Hend Hval Hsplit Hargs includeData mountPointPath.
  split; [|apply parseParams_entry].
  unfold IncludeParser.dynamic_run, includes_of. cbn [truthy].
  rewrite JSFacts.own_prop_obj, Hm. cbn [default from_option id].
  unfold opt_prop. cbn [nullish]. rewrite JSFacts.own_prop_obj, Hmeta.
  cbn [default from_option id truthy].
  rewrite dynamic_each_app, Hb. cbn [is_normal IncludeParser.dynamic_each].
  rewrite (dynamic_step_reference getObjectValue queryRunner_run
             aliasWithoutTypeIncludeParser includePath key reference queryId pieces
             queryArgs st Hlast Hend Hval Hsplit Hargs).
  done.
Qed.

(** X10.  The dynamic pass stops at the first query reference whose
    value in the document is not a string: it fails there with a
    [TypeError], the mounts made for the references before it stay in
    the document, no query is run for the reference, and the
    references after it are not looked at. *)
Theorem dynamic_each_stops before includePath after st st1 :
  dynamic_each before st = (st1, Normal) →
  endsWith (toLowerCase includePath) "queryinclude" = true →
  (∀ reference, getObjectValue st1.1 includePath ≠ VStr reference) →
  dynamic_each (before ++ VStr includePath :: after) st = (st1, TypeError).
Proof.
  intros Hb Hq Hv. rewrite dynamic_each_app, Hb. cbn [is_normal].
  cbn [IncludeParser.dynamic_each]. unfold IncludeParser.dynamic_step. rewrite Hq.
  destruct (getObjectValue st1.1 includePath) as [| | | |reference| |] eqn:E; try done.
  by destruct (Hv reference).
Qed.

End PassFacts.

(** A document with one reference, [data.content.relatedQueryInclude],
    which holds [relatedArticles?tag=foo&tag=bar]. *)
Lemma dynamic_run_query_witness :
  dynamic_run (λ _ _, VStr "relatedArticles?tag=foo&tag=bar")
    (λ queryId queryArgs, VObj {[ "id" := VStr queryId; "args" := queryArgs ]})
    (λ fileContent includeData _ includeKey _, VObj {[ includeKey := includeData ]})
    (VObj {[ "metadata" :=
               VObj {[ "includes" :=
                         VArr [VStr "data.content.relatedQueryInclude"] ∅ ]} ]})
  = (VObj {[ "relatedQueryInclude" :=
               VObj {[ "id" := VStr "relatedArticles";
                       "args" := VObj {[ "tag" := VArr [VStr "foo"; VStr "bar"] ∅ ]} ]} ]},
     [QueryRun "relatedArticles" (VObj {[ "tag" := VArr [VStr "foo"; VStr "bar"] ∅ ]});
      Mount (AliasWithoutType "query")
        (VObj {[ "id" := VStr "relatedArticles";
                 "args" := VObj {[ "tag" := VArr [VStr "foo"; VStr "bar"] ∅ ]} ]})
        ["data"; "content"] "relatedQueryInclude"],
     Normal).
Proof.
  destruct (dynamic_run_query (λ _ _, VStr "relatedArticles?tag=foo&tag=bar")
              (λ queryId queryArgs, VObj {[ "id" := VStr queryId; "args" := queryArgs ]})
              (λ fileContent includeData _ includeKey _, VObj {[ includeKey := includeData ]})
              {[ "metadata" :=
                   VObj {[ "includes" :=
                             VArr [VStr "data.content.relatedQueryInclude"] ∅ ]} ]}
              {[ "includes" := VArr [VStr "data.content.relatedQueryInclude"] ∅ ]}
              ∅ [] "data.content.relatedQueryInclude" []
              (VObj {[ "metadata" :=
                         VObj {[ "includes" :=
                                   VArr [VStr "data.content.relatedQueryInclude"] ∅ ]} ]},
               [])
              "relatedQueryInclude" "relatedArticles?tag=foo&tag=bar"
              "relatedArticles" ["tag=foo&tag=bar"]
              (VObj {[ "tag" := VArr [VStr "foo"; VStr "bar"] ∅ ]})) as [H _].
  - reflexivity.
  - reflexivity.
  - reflexivity.
  - reflexivity.
  - reflexivity.
  - reflexivity.
  - reflexivity.
  - vm_compute. reflexivity.
  - etransitivity; [exact H|]. vm_compute. reflexivity.
Defined.

(** A document with two query references: the first holds
    [latest?limit=3], the second holds nothing. *)
Lemma dynamic_each_stops_witness :
  dynamic_each
    (λ _ includePath,
       if String.eqb includePath "data.firstQueryInclude" then VStr "latest?limit=3"
       else VUndef)
    (λ queryId _, VStr queryId)
    (λ fileContent _ _ _ _, fileContent)
    ([VStr "data.firstQueryInclude"]
     ++ VStr "data.secondQueryInclude" :: [VStr "data.thirdQueryInclude"])
    (VObj ∅, [])
  = ((VObj ∅,
      [QueryRun "latest" (VObj {[ "limit" := VStr "3" ]});
       Mount (AliasWithoutType "query") (VStr "latest") ["data"] "firstQueryInclude"]),
     TypeError).
Proof.
  apply (dynamic_each_stops
           (λ _ includePath,
              if String.eqb includePath "data.firstQueryInclude" then VStr "latest?limit=3"
              else VUndef)
           (λ queryId _, VStr queryId)
           (λ fileContent _ _ _ _, fileContent)
           [VStr "data.firstQueryInclude"] "data.secondQueryInclude"
           [VStr "data.thirdQueryInclude"] (VObj ∅, [])).
  - vm_compute. reflexivity.
  - reflexivity.
  - intros reference. vm_compute. discriminate.
Defined.

End PassFacts.

(** ** More on the store *)

Module StoreLaws.
Import JS Store Shape Listing Ledger JSFacts StoreFacts LedgerFacts.

Lemma findIndex_none p xs : existsb p xs = false → findIndex p xs = -1.
Proof.
  induction xs as [|x xs IH]; [done|]. simpl. intros [-> H]%orb_false_iff.
  by rewrite (IH H).
Qed.

Lemma findIndex_snoc p xs d :
  existsb p xs = false → p d = true →
  findIndex p (xs ++ [d]) = Z.of_nat (length xs).
Proof.
  intros H Hd. induction xs as [|x xs IH]; simpl in *.
  - by rewrite Hd.
  - apply orb_false_iff in H as [-> H]. rewrite (IH H).
    destruct (Z.ltb_spec (Z.of_nat (length xs)) 0); lia.
Qed.

Lemma splice_last xs : splice (-1) 1 xs = removelast xs.
Proof.
  unfold splice. change (-1 <? 0) with true. cbv iota.
  rewrite removelast_firstn_len.
  destruct xs as [|x xs]; [done|].
  replace (Z.to_nat (Z.max (Z.of_nat (length (x :: xs)) + -1) 0))
    with (length xs) by (cbn [length]; lia).
  rewrite drop_ge by (cbn [length]; lia).
  by rewrite app_nil_r.
Qed.

Lemma splice_at_end xs d : splice (Z.of_nat (length xs)) 1 (xs ++ [d]) = xs.
Proof.
  unfold splice. destruct (Z.ltb_spec (Z.of_nat (length xs)) 0) as [|_]; [lia|].
  rewrite length_app. cbn [length].
  replace (Z.to_nat (Z.min (Z.of_nat (length xs)) (Z.of_nat (length xs + 1))))
    with (length xs) by lia.
  rewrite take_app_length, drop_ge by (rewrite length_app; cbn [length]; lia).
  by rewrite app_nil_r.
Qed.

Lemma findIndex_first p l1 d l2 :
  existsb p l1 = false → p d = true →
  findIndex p (l1 ++ d :: l2) = Z.of_nat (length l1).
Proof.
  intros H Hd. induction l1 as [|x l1 IH]; simpl in *.
  - by rewrite Hd.
  - apply orb_false_iff in H as [-> H]. rewrite (IH H).
    destruct (Z.ltb_spec (Z.of_nat (length l1)) 0); lia.
Qed.

Lemma splice_middle l1 d l2 :
  splice (Z.of_nat (length l1)) 1 (l1 ++ d :: l2) = (l1 ++ l2)%list.
Proof.
  unfold splice. destruct (Z.ltb_spec (Z.of_nat (length l1)) 0) as [|_]; [lia|].
  rewrite length_app. cbn [length].
  replace (Z.to_nat (Z.min (Z.of_nat (length l1)) (Z.of_nat (length l1 + S (length l2)))))
    with (length l1) by lia.
  rewrite take_app_length. rewrite drop_app_ge by lia.
  replace (length l1 + 1 - length l1)%nat with 1%nat by lia. done.
Qed.

(** A file name no document of the array carries: [findIndex] yields
    [-1], and [splice(-1, 1)] takes the last document out. *)
Lemma splice_of_unlisted file docs :
  existsb (has_filename file) docs = false →
  splice_of file docs = removelast docs.
Proof. intros H. unfold splice_of. by rewrite findIndex_none, splice_last. Qed.

(** What was pushed last goes out again, whether it carries the file
    name or not. *)
Lemma splice_of_snoc file docs d :
  existsb (has_filename file) docs = false →
  splice_of file (docs ++ [d]) = docs.
Proof.
  intros H. unfold splice_of. destruct (has_filename file d) eqn:Hd.
  - by rewrite findIndex_snoc, splice_at_end.
  - rewrite findIndex_none, splice_last, removelast_last; [done|].
    rewrite existsb_app, H. simpl. by rewrite Hd.
Qed.

Lemma items_round v file jsonFileContents items :
  is_index items = true →
  truthy jsonFileContents = true →
  unlisted v file items = true →
  items_remove v file (items_after_add v file jsonFileContents items) = items.
Proof.
  intros (im & docs & props & groups & -> & Hm & Hv & Hg)%is_index_inv Hj.
  unfold items_after_add, unlisted. rewrite Hj.
  set (d := tag file jsonFileContents).
  destruct v as [name|].
  - rewrite !own_prop_obj, Hv. cbn [default from_option id].
    rewrite own_prop_obj. unfold items_add, items_remove. rewrite Hv.
    rewrite lookup_insert_eq, insert_insert_eq.
    unfold group_push, group_splice.
    destruct (groups !! name) as [g|] eqn:Hn; cbn [default from_option id].
    + destruct (is_array_inv g (Hg _ _ Hn)) as (gd & gp & ->).
      destruct gd as [|g0 gd]; [done|]. unfold lists.
      intros Hl%negb_true_iff. rewrite lookup_insert_eq.
      rewrite (splice_of_snoc file (g0 :: gd) d Hl).
      rewrite insert_insert_eq. rewrite (insert_id groups) by done.
      by rewrite insert_id.
    + intros _. rewrite lookup_insert_eq.
      pose proof (splice_of_snoc file [] d eq_refl) as Hs. cbn [app] in Hs.
      rewrite Hs. rewrite delete_insert_id by done. by rewrite insert_id.
  - rewrite own_prop_obj, Hm. cbn [default from_option id]. unfold lists.
    intros Hl%negb_true_iff. unfold items_add, items_remove. rewrite Hm.
    rewrite lookup_insert_eq, insert_insert_eq.
    rewrite (splice_of_snoc file docs d Hl). by rewrite insert_id.
Qed.

Lemma path_clear_delete pathParts m :
  JSON_ITEMS ∉ pathParts →
  path_clear pathParts (VObj (delete JSON_ITEMS m)) = path_clear pathParts (VObj m).
Proof.
  destruct pathParts as [|part [|next rest]]; [done..|].
  intros H. rewrite !path_clear_unfold, !own_prop_obj.
  rewrite lookup_delete_ne; [done|]. intros E. apply H. rewrite <- E. apply list_elem_of_here.
Qed.

(** A directory on a clear path is nothing or a directory node. *)
Lemma path_clear_level pathParts level m :
  path_clear pathParts (VObj m) = true →
  level ≠ [] →
  proper_prefixb level pathParts = true →
  walk level (VObj m) = VUndef ∨ is_dir (walk level (VObj m)) = true.
Proof.
  revert level m. induction pathParts as [|part rest IH]; intros level m.
  - by destruct level.
  - destruct level as [|x level]; [done|]. intros Hc _ Hp.
    assert (x = part) as ->.
    { apply proper_prefixb_spec in Hp as [Hp _]. rewrite prefixb_cons in Hp.
      apply andb_prop in Hp as [Hx _]. by apply String.eqb_eq in Hx. }
    rewrite proper_prefixb_cons in Hp.
    destruct rest as [|next rest]; [by destruct level|].
    rewrite path_clear_unfold, own_prop_obj in Hc. rewrite walk_cons_obj.
    destruct (default VUndef (m !! part)) as [| | | | | |cm] eqn:E;
      try (apply andb_prop in Hc as [Hd _]; discriminate Hd).
    + left. apply walk_undef.
    + apply andb_prop in Hc as [Hd Hc].
      destruct level as [|y level]; [by right|]. by apply IH.
Qed.

Section Laws.
Variable getVariantName : string → option string.
Variable getFileContents : string → FileContents.
Variable path_join : string → string → string.
Variable postProcessor : option PostProcessor.

#[local] Abbreviation add := (add getVariantName getFileContents path_join postProcessor).
#[local] Abbreviation remove := (remove getVariantName postProcessor).
#[local] Abbreviation update := (update getVariantName getFileContents path_join postProcessor).
#[local] Abbreviation fetch := (fetch getFileContents path_join postProcessor).
#[local] Abbreviation read := (read getFileContents path_join postProcessor).
#[local] Abbreviation variant_of := (variant_of getVariantName).
#[local] Abbreviation add_tree := (add_tree getVariantName).
#[local] Abbreviation remove_tree := (remove_tree getVariantName).
#[local] Abbreviation add_walk := (add_walk getVariantName).
#[local] Abbreviation remove_walk := (remove_walk getVariantName).
#[local] Abbreviation addFileToJsonItems := (addFileToJsonItems getVariantName).
#[local] Abbreviation removeFileFromJsonItems := (removeFileFromJsonItems getVariantName).
#[local] Abbreviation plain_file := (plain_file getVariantName).
#[local] Abbreviation plain_add := (plain_add getVariantName path_join).
#[local] Abbreviation cache_agrees := (cache_agrees path_join postProcessor).

(** The index of a directory on the way to the file, the root among
    them, after [add]. *)
Lemma add_tree_index file jsonFileContents doc pathParts root level :
  pathParts ≠ [] →
  JSON_ITEMS ∉ pathParts →
  is_dir root = true →
  path_clear pathParts root = true →
  proper_prefixb level pathParts = true →
  items_of (walk level (add_tree file jsonFileContents doc pathParts root).1)
  = items_after_add (variant_of file) file jsonFileContents
      (items_of (walk level root)).
Proof.
  intros Hne Hn Hd Hc Hp.
  assert (JSON_ITEMS ∉ level) as Hnl.
  { intros Hin. apply Hn. apply proper_prefixb_spec in Hp as [Hp _].
    by apply (prefixb_elem level). }
  pose proof (add_tree_levels getVariantName file jsonFileContents doc pathParts
                root level Hne Hn Hd Hc Hnl) as H.
  cbv zeta in H. rewrite Hp in H. destruct H as (lm' & -> & Hj).
  by apply items_of_obj.
Qed.

Lemma remove_tree_index file pathParts root level :
  pathParts ≠ [] →
  JSON_ITEMS ∉ pathParts →
  is_dir root = true →
  dirs_exist pathParts root = true →
  proper_prefixb level pathParts = true →
  items_of (walk level (remove_tree file pathParts root).1)
  = items_remove (variant_of file) file (items_of (walk level root)).
Proof.
  intros Hne Hn Hd Hc Hp.
  assert (JSON_ITEMS ∉ level) as Hnl.
  { intros Hin. apply Hn. apply proper_prefixb_spec in Hp as [Hp _].
    by apply (prefixb_elem level). }
  pose proof (remove_tree_levels getVariantName file pathParts
                root level Hne Hn Hd Hc Hnl) as H.
  cbv zeta in H. rewrite Hp in H. destruct H as (lm' & -> & Hj).
  by apply items_of_obj.
Qed.

Lemma items_of_dir node :
  is_dir node = true → items_of node = own_prop node JSON_ITEMS.
Proof. intros (m & items & -> & _)%is_dir_inv. done. Qed.

Lemma items_of_index node :
  node = VUndef ∨ is_dir node = true → is_index (items_of node) = true.
Proof.
  intros [->|(m & items & -> & Hm & Hi)%is_dir_inv].
  - by vm_compute.
  - by rewrite (items_of_obj _ _ Hm).
Qed.

(** [add] with the tree it works on, staged or live. *)
Lemma add_tree_world dataDir file options w :
  accepts file = true →
  let c := (fetch dataDir file options w).2 in
  let r := add_tree file (json c) (stored file c) (split_on "/" file)
             (if useStage options then stage w else data w) in
  (add dataDir file options w).2 = r.2
  ∧ data (add dataDir file options w).1
    = (if useStage options then data w else r.1)
  ∧ stage (add dataDir file options w).1
    = (if useStage options then r.1 else stage w)
  ∧ trace (add dataDir file options w).1
    = (trace w
       ++ if is_normal r.2
             && match postProcessor with Some pp => storeAdd pp | None => false end
          then [StoreAddHook dataDir file (raw c) (tag file (json c))]
          else [])%list.
Proof.
  intros Ha. cbv zeta. rewrite add_accepted by done.
  destruct (fetch_store getFileContents path_join postProcessor dataDir file options w)
    as (Hfd & Hfs & Hft).
  destruct (fetch dataDir file options w) as [w1 contents]. cbn [fst snd] in *.
  rewrite Hfd, Hfs. cbv zeta.
  destruct (Store.add_tree _ _ _ _ _ _) as [root' c].
  cbn [fst snd].
  set (rootLeaf := if useStage options then stage w else data w).
  destruct (tag_cached_store path_join postProcessor dataDir file rootLeaf
              (if useStage options then with_stage w1 root' else with_data w1 root'))
    as (Hd3 & Hs3 & Ht3).
  assert (data (if useStage options then with_stage w1 root' else with_data w1 root')
          = if useStage options then data w else root') as Hd2
    by (destruct (useStage options); [exact Hfd|done]).
  assert (stage (if useStage options then with_stage w1 root' else with_data w1 root')
          = if useStage options then root' else stage w) as Hs2
    by (destruct (useStage options); [done|exact Hfs]).
  assert (trace (if useStage options then with_stage w1 root' else with_data w1 root')
          = trace w) as Ht2
    by (by destruct (useStage options)).
  rewrite Hd2 in Hd3. rewrite Hs2 in Hs3. rewrite Ht2 in Ht3.
  destruct (is_normal c) eqn:En; cbn [andb].
  - destruct postProcessor as [pp|]; [destruct (storeAdd pp)|];
      cbn [fst snd emit data stage trace]; rewrite ?Hd3, ?Hs3, ?Ht3, ?app_nil_r;
      by destruct c.
  - cbn [fst snd]. by rewrite Hd3, Hs3, Ht3, app_nil_r.
Qed.

(** The cache [add] leaves when it has written the file name to the
    entry at [path_join dataDir file]. *)
Lemma add_cache_tagged dataDir file options w c :
  accepts file = true →
  processes postProcessor = false →
  nullish (if useStage options then stage w else data w) = false →
  Cache.get "file" (path_join dataDir file) (cache (fetch dataDir file options w).1)
  = Some c →
  (∀ filePath, filePath ≠ path_join dataDir file →
     Cache.get "file" filePath (cache (fetch dataDir file options w).1)
     = Cache.get "file" filePath (cache w)) →
  ∀ filePath,
    Cache.get "file" filePath (cache (add dataDir file options w).1)
    = if decide (filePath = path_join dataDir file)
      then Some {| raw := raw c; json := tag file (json c) |}
      else Cache.get "file" filePath (cache w).
Proof.
  intros Ha Hp Hn Hc Hother filePath.
  rewrite (add_cache getVariantName getFileContents path_join postProcessor) by done.
  cbv zeta. rewrite Hp, Hn, Hc. cbn [orb].
  destruct (decide (filePath = path_join dataDir file)) as [->|Hne].
  - apply cache_get_set.
  - rewrite cache_get_set_other by done. by apply Hother.
Qed.


Lemma fetch_cached otherFileContents dataDir file options w c :
  useCache options = true →
  Cache.get "file" (path_join dataDir file) (cache w) = Some c →
  Store.fetch otherFileContents path_join postProcessor dataDir file options w
  = (w, post_process postProcessor dataDir file c).
Proof.
  intros Hu Hc. unfold Store.fetch. rewrite Hu, Hc.
  rewrite bool_decide_eq_true_2 by eauto. cbn [negb orb]. by rewrite Hc.
Qed.




Lemma main_of_dir node :
  is_dir node = true → main_of node = own_prop (items_of node) MAIN.
Proof. intros H. unfold main_of. by rewrite items_of_dir. Qed.

Lemma main_after_remove file items docs props :
  is_index items = true →
  own_prop items MAIN = VArr docs props →
  own_prop (items_remove None file items) MAIN = VArr (splice_of file docs) props.
Proof.
  intros (im & d0 & p0 & groups & -> & Hm & Hv & Hg)%is_index_inv.
  rewrite own_prop_obj, Hm. cbn [default from_option id]. intros [= -> ->].
  unfold items_remove. rewrite Hm. by rewrite own_prop_insert.
Qed.

Lemma main_after_add file jsonFileContents items docs props :
  is_index items = true →
  truthy jsonFileContents = true →
  own_prop items MAIN = VArr docs props →
  own_prop (items_after_add None file jsonFileContents items) MAIN
  = VArr (docs ++ [tag file jsonFileContents]) props.
Proof.
  intros (im & d0 & p0 & groups & -> & Hm & Hv & Hg)%is_index_inv Hj.
  rewrite own_prop_obj, Hm. cbn [default from_option id]. intros [= -> ->].
  unfold items_after_add, items_add. rewrite Hj, Hm. by rewrite own_prop_insert.
Qed.

Lemma proper_prefixb_root file : proper_prefixb [] (split_on "/" file) = true.
Proof. apply proper_prefixb_nil, split_on_not_nil. Qed.

(** What a call of [remove] makes of the root's [main] for a file that
    is not a variant. *)
Lemma remove_splices file w docs props :
  accepts file = true →
  variant_of file = None →
  is_dir (data w) = true →
  dirs_exist (split_on "/" file) (data w) = true →
  main_of (data w) = VArr docs props →
  main_of (data (remove file w).1) = VArr (splice_of file docs) props.
Proof.
  intros Ha Hv Hd He Hm.
  destruct (remove_dirs getVariantName postProcessor file w Ha Hd He)
    as (_ & _ & Hd' & _).
  destruct (remove_world getVariantName postProcessor file w) as [Hw _].
  rewrite Hw in *. rewrite main_of_dir by done.
  pose proof (remove_tree_index file _ _ [] (split_on_not_nil _ _)
                (accepts_parts _ Ha) Hd He (proper_prefixb_root file)) as Hi.
  change (walk [] ?r) with r in Hi. rewrite Hi, Hv.
  rewrite main_of_dir in Hm by done.
  apply main_after_remove; [by apply items_of_index; right|done].
Qed.


(** What a call of [add] makes of the root's [main] for a file that is
    not a variant and has parsed contents. *)
Lemma add_appends dataDir file options w docs props :
  useStage options = false →
  accepts file = true →
  variant_of file = None →
  is_dir (data w) = true →
  path_clear (split_on "/" file) (data w) = true →
  truthy (json (fetch dataDir file options w).2) = true →
  main_of (data w) = VArr docs props →
  main_of (data (add dataDir file options w).1)
  = VArr (docs ++ [stored file (fetch dataDir file options w).2]) props.
Proof.
  intros Hs Ha Hv Hd Hc Hj Hm.
  destruct (add_live_clear getVariantName getFileContents path_join postProcessor
              dataDir file options w Hs Ha Hd Hc) as (_ & _ & Hd' & _).
  destruct (add_data getVariantName getFileContents path_join postProcessor
              dataDir file options w Ha Hs) as [Hw _].
  rewrite Hw in *. rewrite main_of_dir by done.
  pose proof (add_tree_index file (json (fetch dataDir file options w).2)
                (stored file (fetch dataDir file options w).2) _ _ []
                (split_on_not_nil _ _) (accepts_parts _ Ha) Hd Hc
                (proper_prefixb_root file)) as Hi.
  change (walk [] ?r) with r in Hi. rewrite Hi, Hv.
  rewrite main_of_dir in Hm by done.
  rewrite (main_after_add _ _ _ docs props); [|by apply items_of_index; right|done..].
  unfold stored, js_or. by rewrite tag_truthy, Hj.
Qed.


(** X17.  [add] of a file leaves alone every path that holds no reserved
    segment and is neither on the way to the file nor below it: [get]
    answers for such a path as it did before the call.  The names on
    the way to the file and on the other path are names no object
    inherits, and a cached document the call is served from carries no
    other file name. *)
Theorem add_keeps_other_paths dataDir file options w other :
  useStage options = false →
  accepts file = true →
  plain_add dataDir file = true →
  cache_agrees dataDir file options w = true →
  is_dir (data w) = true →
  path_clear (split_on "/" file) (data w) = true →
  JSON_ITEMS ∉ split_on "/" other →
  Names.plain_path other = true →
  prefixb (split_on "/" other) (split_on "/" file) = false →
  prefixb (split_on "/" file) (split_on "/" other) = false →
  get other (add dataDir file options w).1 = get other w.
Proof.
  intros Hs Ha _ _ Hd Hc Hno _ H1 H2.
  destruct (add_data getVariantName getFileContents path_join postProcessor
              dataDir file options w Ha Hs) as [Hw _].
  unfold get. rewrite Hw.
  pose proof (add_tree_levels getVariantName file
                (json (fetch dataDir file options w).2)
                (stored file (fetch dataDir file options w).2) _ _ (split_on "/" other)
                (split_on_not_nil _ _) (accepts_parts _ Ha) Hd Hc Hno) as H.
  cbv zeta in H. by rewrite (proper_prefixb_false _ _ H1), H2 in H.
Qed.

(** X18.  [remove] of a file whose directories are in place leaves alone
    every path that holds no reserved segment and is neither on the way
    to the file nor below it. *)
Theorem remove_keeps_other_paths file w other :
  accepts file = true →
  is_dir (data w) = true →
  dirs_exist (split_on "/" file) (data w) = true →
  JSON_ITEMS ∉ split_on "/" other →
  prefixb (split_on "/" other) (split_on "/" file) = false →
  prefixb (split_on "/" file) (split_on "/" other) = false →
  get other (remove file w).1 = get other w.
Proof.
  intros Ha Hd He Hno H1 H2.
  destruct (remove_world getVariantName postProcessor file w) as [Hw _].
  unfold get. rewrite Hw.
  pose proof (remove_tree_levels getVariantName file _ _ (split_on "/" other)
                (split_on_not_nil _ _) (accepts_parts _ Ha) Hd He Hno) as H.
  cbv zeta in H. by rewrite (proper_prefixb_false _ _ H1), H2 in H.
Qed.

(** The index of a text file cannot be reached. *)
Lemma addFileToJsonItems_text s file jsonFileContents :
  truthy jsonFileContents = true →
  addFileToJsonItems (VStr s) file jsonFileContents = (VStr s, TypeError).
Proof.
  intros Hj. unfold Store.addFileToJsonItems. rewrite Hj.
  destruct (variant_of file); done.
Qed.

(** A node without an index cannot take a document. *)
Lemma addFileToJsonItems_no_index m file jsonFileContents :
  m !! JSON_ITEMS = None →
  truthy jsonFileContents = true →
  addFileToJsonItems (VObj m) file jsonFileContents = (VObj m, TypeError).
Proof.
  intros Hm Hj. unfold Store.addFileToJsonItems. rewrite Hj.
  destruct (variant_of file); cbn [update_in get_prop nullish own_prop];
    rewrite Hm; cbn [default from_option id update_in get_prop nullish write_back];
    by rewrite Hm.
Qed.

Lemma add_walk_below_text file jsonFileContents doc pre part next rest m s :
  JSON_ITEMS ∉ (pre ++ [part])%list →
  truthy jsonFileContents = true →
  truthy (VStr s) = true →
  dirs_exist (pre ++ [part])%list (VObj m) = true →
  walk (pre ++ [part])%list (VObj m) = VStr s →
  (add_walk file jsonFileContents doc (pre ++ part :: next :: rest)%list (VObj m)).2
  = TypeError.
Proof.
  intros Hn Hj Hs. revert m Hn. induction pre as [|p pre IH]; intros m Hn Hd Hw.
  - cbn [app] in *. rewrite walk_cons_obj in Hw. change (walk [] ?v) with v in Hw.
    rewrite add_walk_unfold, own_prop_obj, Hw, Hs. cbn [is_normal].
    rewrite own_prop_obj, Hw. by rewrite addFileToJsonItems_text.
  - cbn [app] in *.
    apply not_elem_of_cons in Hn as [Hp Hn].
    assert (∃ x l, (pre ++ [part])%list = x :: l) as (x & l & E).
    { destruct pre; by eexists _, _. }
    assert (∃ y k, (pre ++ part :: next :: rest)%list = y :: k) as (y & k & E').
    { destruct pre; by eexists _, _. }
    rewrite E in Hd. rewrite dirs_exist_unfold in Hd. rewrite <- E in Hd.
    apply andb_prop in Hd as [Hdir Hd].
    destruct (is_dir_inv _ Hdir) as (cm & items & Hcm & Hitems & Hi).
    rewrite Hcm in Hd. rewrite own_prop_obj in Hcm.
    rewrite walk_cons_obj, Hcm in Hw.
    assert (entered m p = VObj cm) as He by (unfold entered; by rewrite Hcm).
    rewrite E'.
    rewrite (add_walk_round getVariantName _ _ _ _ _ _ _ _ _ He Hitems Hi).
    rewrite <- E'.
    specialize (IH (<[JSON_ITEMS:=items_after_add (variant_of file) file
                                    jsonFileContents items]> cm) Hn).
    rewrite dirs_exist_frame, walk_frame in IH by (done || by destruct pre).
    specialize (IH Hd Hw).
    by destruct (Store.add_walk _ _ _ _ _ _) as [child c].
Qed.

(** X19.  [add] of a file with parsed contents below a text file, a
    path one of whose directories is a non-empty string in the tree,
    throws a [TypeError]: the string has no index to push the document
    to.  No hook of the post-processor is called. *)
Theorem add_below_text_file dataDir file options w pre part next rest s :
  useStage options = false →
  accepts file = true →
  split_on "/" file = (pre ++ part :: next :: rest)%list →
  is_dir (data w) = true →
  dirs_exist (pre ++ [part])%list (data w) = true →
  walk (pre ++ [part])%list (data w) = VStr s →
  s ≠ "" →
  truthy (json (fetch dataDir file options w).2) = true →
  (add dataDir file options w).2 = TypeError
  ∧ trace (add dataDir file options w).1 = trace w.
Proof.
  intros Hs Ha Hsplit Hd He Hw Hne Hj.
  destruct (add_tree_world dataDir file options w Ha) as (H2 & _ & _ & Ht).
  cbv zeta in *. rewrite Hs in *.
  destruct (is_dir_inv _ Hd) as (m & items & Hm & _). rewrite Hm in *.
  assert (JSON_ITEMS ∉ (pre ++ [part])%list) as Hn.
  { intros Hin. apply (accepts_parts _ Ha). rewrite Hsplit.
    apply elem_of_app in Hin as [Hin|Hin%list_elem_of_singleton].
    - apply elem_of_app. by left.
    - apply elem_of_app. right. rewrite Hin. apply list_elem_of_here. }
  assert (truthy (VStr s) = true) as Hts.
  { simpl. destruct (String.eqb_spec s ""); done. }
  pose proof (add_walk_below_text file (json (fetch dataDir file options w).2)
                (stored file (fetch dataDir file options w).2)
                pre part next rest m s Hn Hj Hts He Hw) as Hwalk.
  unfold Store.add_tree in H2, Ht. rewrite Hsplit in H2, Ht.
  destruct (Store.add_walk _ _ _ _ _ _) as [root1 c]. cbn [snd] in Hwalk. subst c.
  cbn [is_normal snd andb] in *. split; [done|]. by rewrite Ht, app_nil_r.
Qed.

(** X20.  [remove] has no check for the reserved name: [remove] of
    [_json] returns normally and deletes the index of the root.  From
    then on [add] of any file with parsed contents, on a way that was
    clear, throws a [TypeError]. *)
Theorem remove_reserved_name w m :
  data w = VObj m →
  (remove JSON_ITEMS w).2 = Normal
  ∧ data (remove JSON_ITEMS w).1 = VObj (delete JSON_ITEMS m)
  ∧ ∀ dataDir file options,
      useStage options = false →
      accepts file = true →
      path_clear (split_on "/" file) (data w) = true →
      truthy (json (fetch dataDir file options (remove JSON_ITEMS w).1).2) = true →
      (add dataDir file options (remove JSON_ITEMS w).1).2 = TypeError.
Proof.
  intros Hm.
  assert (Store.remove_tree getVariantName JSON_ITEMS (split_on "/" JSON_ITEMS) (VObj m)
          = (VObj (delete JSON_ITEMS m), Normal)) as Htree.
  { change (split_on "/" JSON_ITEMS) with [JSON_ITEMS].
    unfold Store.remove_tree. cbn [Store.remove_walk delete_prop is_normal].
    unfold Store.removeFileFromJsonItems, opt_prop.
    cbn [nullish own_prop]. rewrite lookup_delete_eq.
    by destruct (variant_of JSON_ITEMS). }
  assert ((remove JSON_ITEMS w).2 = Normal
          ∧ data (remove JSON_ITEMS w).1 = VObj (delete JSON_ITEMS m)) as [Hn Hd].
  { unfold Store.remove. rewrite Hm, Htree. cbn [is_normal].
    destruct postProcessor as [pp|]; [destruct (storeRemove pp)|]; done. }
  split; [done|]. split; [done|].
  intros dataDir file options Hs Ha Hc Hj.
  set (w1 := (remove JSON_ITEMS w).1) in *.
  destruct (add_tree_world dataDir file options w1 Ha) as (H2 & _).
  cbv zeta in H2. rewrite H2, Hs, Hd. rewrite Hm in Hc.
  destruct (add_walk_clear getVariantName file (json (fetch dataDir file options w1).2)
              (stored file (fetch dataDir file options w1).2)
              (split_on "/" file) (delete JSON_ITEMS m)
              (split_on_not_nil _ _) (accepts_parts _ Ha))
    as (m' & Hw & Hidx & _).
  { by rewrite path_clear_delete by by apply accepts_parts. }
  unfold Store.add_tree. rewrite Hw. cbn [is_normal].
  rewrite lookup_delete_eq in Hidx.
  by rewrite addFileToJsonItems_no_index.
Qed.



Lemma removeFileFromJsonItems_undef file :
  removeFileFromJsonItems VUndef file = (VUndef, Normal).
Proof. unfold Store.removeFileFromJsonItems. by destruct (variant_of file). Qed.

(** A directory that is not there: the loop of [remove] does not step,
    and goes on with the next segment on the leaf it is on. *)
Lemma remove_walk_skip file part next rest m :
  own_prop (VObj m) part = VUndef →
  remove_walk file (part :: next :: rest) (VObj m)
  = remove_walk file (next :: rest) (VObj m).
Proof.
  intros H. rewrite remove_walk_unfold, H, removeFileFromJsonItems_undef.
  cbn [is_normal truthy]. rewrite own_prop_obj in H.
  unfold write_back. destruct (m !! part) as [x|] eqn:E; [|done].
  cbn in H. subst x. by rewrite insert_id.
Qed.

(** X23.  A first directory that is not in the tree does not stop
    [remove]: the loop stays on the root and goes on with the rest of
    the path, so the call deletes from the tree the file that the rest
    of the path names, when the directories of that file are in
    place.  The names on the path, the first directory among them, are
    names no object inherits. *)
Theorem remove_skips_missing_directory file part inner w :
  split_on "/" file = part :: split_on "/" inner →
  plain_file file = true →
  accepts inner = true →
  is_dir (data w) = true →
  own_prop (data w) part = VUndef →
  dirs_exist (split_on "/" inner) (data w) = true →
  (remove file w).2 = Normal
  ∧ get inner (remove file w).1 = VUndef.
Proof.
  intros Hsplit _ Ha Hd Hp He.
  destruct (is_dir_inv _ Hd) as (m & items & Hm & Hitems & Hi).
  unfold Store.remove, Store.remove_tree, get. rewrite Hsplit, Hm in *.
  destruct (split_on_cons "/" inner) as (x & r & E). rewrite E in *.
  rewrite remove_walk_skip by done.
  destruct (remove_walk_dirs getVariantName file (x :: r) m)
    as (m' & -> & Hj & Hw & _); [done|by rewrite <- E; apply accepts_parts|done|].
  cbn [is_normal]. rewrite Hitems in Hj.
  rewrite (removeFileFromJsonItems_dir getVariantName _ _ _ Hj Hi). cbn [is_normal].
  assert (walk (x :: r) (VObj (<[JSON_ITEMS:=items_remove (variant_of file) file items]> m'))
          = VUndef) as Hgone.
  { rewrite walk_frame; [done|done|]. rewrite <- E. by apply accepts_parts. }
  destruct postProcessor as [pp|]; [destruct (storeRemove pp)|]; done.
Qed.

End Laws.

Section LawExamples.

#[local] Abbreviation demo_add :=
  (Store.add Demo.getVariantName Demo.getFileContents Demo.path_join None).
#[local] Abbreviation demo_fetch :=
  (Store.fetch Demo.getFileContents Demo.path_join None).
#[local] Abbreviation demo_read :=
  (Ledger.read Demo.getFileContents Demo.path_join None).
#[local] Abbreviation staged := {| useStage := true; useCache := false |}.
#[local] Abbreviation cached := {| useStage := false; useCache := true |}.







Lemma add_keeps_other_paths_witness :
  get Demo.article (demo_add "data" "en/article/2.json" no_options Demo.two_files).1
  = get Demo.article Demo.two_files.
Proof.
  apply (add_keeps_other_paths Demo.getVariantName Demo.getFileContents
           Demo.path_join None "data" "en/article/2.json" no_options
           Demo.two_files Demo.article);
    try (vm_compute; reflexivity).
  apply includes_false. reflexivity.
Defined.

Lemma remove_keeps_other_paths_witness :
  get Demo.article (Demo.remove Demo.teaser Demo.two_files).1
  = get Demo.article Demo.two_files.
Proof.
  apply (remove_keeps_other_paths Demo.getVariantName None Demo.teaser
           Demo.two_files Demo.article);
    try (vm_compute; reflexivity).
  apply includes_false. reflexivity.
Defined.

(** [notes] is a text file; [notes/b.json] would lie below it. *)
Lemma add_below_text_file_witness :
  (demo_add "data" "notes/b.json" no_options Demo.one_text).2 = TypeError
  ∧ trace (demo_add "data" "notes/b.json" no_options Demo.one_text).1
    = trace Demo.one_text.
Proof.
  apply (add_below_text_file Demo.getVariantName Demo.getFileContents
           Demo.path_join None "data" "notes/b.json" no_options Demo.one_text
           [] "notes" "b.json" [] "text of data/notes");
    try (vm_compute; reflexivity).
  discriminate.
Defined.

Lemma remove_reserved_name_witness :
  (Demo.remove JSON_ITEMS initial).2 = Normal
  ∧ data (Demo.remove JSON_ITEMS initial).1
    = VObj (delete JSON_ITEMS {[ JSON_ITEMS := index_value [] ∅ ]})
  ∧ ∀ dataDir file options,
      useStage options = false →
      accepts file = true →
      path_clear (split_on "/" file) (data initial) = true →
      truthy (json (demo_fetch dataDir file options
                      (Demo.remove JSON_ITEMS initial).1).2) = true →
      (demo_add dataDir file options (Demo.remove JSON_ITEMS initial).1).2
      = TypeError.
Proof.
  apply (remove_reserved_name Demo.getVariantName Demo.getFileContents
           Demo.path_join None initial {[ JSON_ITEMS := index_value [] ∅ ]}).
  reflexivity.
Defined.



(** No directory [fr] is in the store. *)
Lemma remove_skips_missing_directory_witness :
  (Demo.remove "fr/en/article/1.json" Demo.two_files).2 = Normal
  ∧ get Demo.article (Demo.remove "fr/en/article/1.json" Demo.two_files).1 = VUndef.
Proof.
  apply (remove_skips_missing_directory Demo.getVariantName None
           "fr/en/article/1.json" "fr" Demo.article Demo.two_files);
    vm_compute; reflexivity.
Defined.

End LawExamples.

End StoreLaws.

(** ** The data route *)

Module RouteFacts.
Import JS Store Shape Ledger DataRoute JSFacts StoreFacts LedgerFacts IncludeParserFacts.

Lemma join_snoc sep l x :
  l ≠ [] → join sep (l ++ [x]) = (join sep l ++ sep ++ x)%string.
Proof.
  induction l as [|y l IH]; [done|]. intros _. destruct l as [|z l]; [done|].
  change (join sep ((y :: z :: l) ++ [x]))
    with (y ++ sep ++ join sep ((z :: l) ++ [x]))%string.
  rewrite IH by done.
  change (join sep (y :: z :: l)) with (y ++ sep ++ join sep (z :: l))%string.
  by rewrite !append_assoc.
Qed.

(** X24.  The trail of the listing for a path that is not empty: one
    crumb for each segment of the path, titled with the segment; the
    link of a crumb is the link of the crumb before it, a slash and the
    title; the link of the last crumb is the path itself. *)
Theorem breadcrumbs_trail paramPath :
  paramPath ≠ "" →
  map title (breadcrumbs (Some paramPath)) = split_on "/" paramPath
  ∧ (∀ i a b,
       breadcrumbs (Some paramPath) !! i = Some a →
       breadcrumbs (Some paramPath) !! S i = Some b →
       url b = (url a ++ "/" ++ title b)%string)
  ∧ url <$> last (breadcrumbs (Some paramPath)) = Some paramPath.
Proof.
  intros Hne. unfold breadcrumbs, storePathParts.
  destruct (String.eqb_spec paramPath "") as [|_]; [done|].
  set (parts := split_on "/" paramPath).
  assert (parts ≠ []) as Hparts by apply split_on_not_nil.
  split; [|split].
  - apply list_eq. intros i. rewrite list_lookup_fmap, list_lookup_imap.
    by destruct (parts !! i).
  - intros i a b. rewrite !list_lookup_imap.
    destruct (parts !! i) as [x|] eqn:Hx; [|done].
    destruct (parts !! S i) as [y|] eqn:Hy; [|done].
    cbn [fmap option_fmap option_map]. intros [= <-] [= <-]. cbn [url title].
    rewrite !Nat.add_1_r. rewrite (take_S_r parts (S i) y Hy).
    apply join_snoc. rewrite (take_S_r parts i x Hx). by destruct (take i parts).
  - rewrite last_lookup, length_imap, list_lookup_imap.
    destruct parts as [|x l] eqn:E; [done|]. cbn [length pred].
    assert (is_Some ((x :: l) !! length l)) as [y Hy].
    { apply lookup_lt_is_Some. cbn [length]. lia. }
    rewrite Hy. cbn [fmap option_fmap option_map url]. f_equal.
    rewrite Nat.add_1_r, take_ge by (cbn [length]; lia).
    rewrite <- E. apply join_split_on.
Qed.

Section Served.
Variable getVariantName : string → option string.
Variable getFileContents : string → FileContents.
Variable path_join : string → string → string.
Variable postProcessor : option PostProcessor.

#[local] Abbreviation add := (add getVariantName getFileContents path_join postProcessor).
#[local] Abbreviation fetch := (fetch getFileContents path_join postProcessor).

Lemma serves_stored file c :
  file ≠ "" →
  structured c = true →
  serves_file (stored file c) = indexed c || negb (String.eqb (raw c) "").
Proof.
  intros Hf. unfold structured, indexed, stored, js_or. rewrite tag_truthy.
  destruct (json c) as [| |b|n|s|xs props|m] eqn:E.
  1-5: destruct (truthy _); cbn [negb]; [intros; discriminate|]; intros _;
       unfold serves_file; cbn [is_string orb];
       by rewrite orb_true_r, andb_true_r.
  all: assert (truthy (VStr file) = true) as Htf
         by (simpl; by destruct (String.eqb_spec file ""));
       intros _; cbn [truthy orb]; unfold serves_file, tag, set_prop.
  - rewrite filename_not_length, filename_not_index. cbn [fst truthy andb].
    unfold own_prop. rewrite filename_not_length, filename_not_index, lookup_insert_eq.
    cbn [default from_option id]. by rewrite Htf.
  - cbn [fst truthy andb]. by rewrite own_prop_insert, Htf.
Qed.


End Served.

Lemma breadcrumbs_trail_witness :
  map title (breadcrumbs (Some "en/article/1.json")) = ["en"; "article"; "1.json"]
  ∧ url <$> last (breadcrumbs (Some "en/article/1.json")) = Some "en/article/1.json".
Proof.
  destruct (breadcrumbs_trail "en/article/1.json") as (H1 & _ & H2).
  - discriminate.
  - exact (conj H1 H2).
Defined.


End RouteFacts.
